(** * all-social-media-api: orchestration core, embedded and verified

    A shallow embedding of the TypeScript sources of the library
    (lib/request.ts, utils.ts, platforms/{meta,instagram,threads,linkedin}.ts
    and client.ts) together with the properties of the orchestration core:
    batch aggregation, bounded retries, the two-phase publish protocol, the
    ad provisioning pipeline, reply batches, deletion, and the reading of
    recent posts and their comments.

    Conventions of the embedding.
    - A JavaScript string is the list of its UTF-16 code units ([jsstring]).
    - Asynchronous code runs in one logical flow of control, so a promise is a
      computation in the monad [M] of world-passing with exceptions.
    - The outside world ([World]) is a clock, the replies the network is
      going to give, and the trace of what the program did so far.
    - Caller-supplied closures (upload, content adapter, progress hooks, the
      operation handed to [withRetries]) are oracles that may return or throw.
    - A request keeps its method, address, query and payload; its headers are
      left out. A reply is read at the type that the source declares for it:
      a member declared [string] that holds another kind of value reads as
      absent. A property that depends on what is done with such a member is
      stated for replies that are as the vendors declare them ([asDeclared],
      [declaredReplies]).
    - A [number] that the caller passes is a whole number; the batch limit of
      [replyToComments] may also be [NaN].
    - The one unbounded loop, the status polling of Instagram, recurses on
      fuel; [Hang] stands for fuel that ran out, and the fuel given is shown
      to be enough ([pollContainer_returns_or_throws]). *)

From Stdlib Require Import List String Ascii ZArith NArith Lia Bool Arith.
From Stdlib Require Import DecimalString.
Import ListNotations.

Set Implicit Arguments.
Unset Strict Implicit.

(* ================================================================== *)
(** * JavaScript strings                                                *)
(* ================================================================== *)

Module JS.

(** UTF-16 code units. *)
Definition jsstring := list N.

Fixpoint lit (s : string) : jsstring :=
  match s with
  | EmptyString => []
  | String c r => N_of_ascii c :: lit r
  end.
Arguments lit s%_string.

Fixpoint eqb (a b : jsstring) : bool :=
  match a, b with
  | [], [] => true
  | x :: a', y :: b' => N.eqb x y && eqb a' b'
  | _, _ => false
  end.

(** Truthiness of a string, and of an optional string ([undefined] is
    falsy, as is the empty string). *)
Definition nonempty (s : jsstring) : bool :=
  match s with [] => false | _ => true end.

Definition truthy (o : option jsstring) : bool :=
  match o with Some s => nonempty s | None => false end.

(** ECMAScript WhiteSpace and LineTerminator code points: what
    [String.prototype.trim] strips and what the regex class \s matches. *)
Definition is_space (c : N) : bool :=
  existsb (N.eqb c)
    [9; 10; 11; 12; 13; 32; 160; 5760; 8232; 8233; 8239; 8287; 12288; 65279]%N
  || ((8192 <=? c) && (c <=? 8202))%N.

Fixpoint trimStart (s : jsstring) : jsstring :=
  match s with
  | c :: r => if is_space c then trimStart r else s
  | [] => []
  end.

Definition trimEnd (s : jsstring) : jsstring := rev (trimStart (rev s)).

Definition trim (s : jsstring) : jsstring := trimEnd (trimStart s).

(** [s.slice(0, n)] *)
Definition slice0 (n : nat) (s : jsstring) : jsstring := firstn n s.

Fixpoint startsWith (p s : jsstring) : bool :=
  match p, s with
  | [], _ => true
  | x :: p', y :: s' => N.eqb x y && startsWith p' s'
  | _ :: _, [] => false
  end.

Fixpoint includes (p s : jsstring) : bool :=
  startsWith p s ||
  match s with
  | [] => false
  | _ :: r => includes p r
  end.

(** ASCII case folding, which is all the [i] flag of a non-unicode regex
    does to a pattern made of ASCII letters. *)
Definition toLowerAscii (c : N) : N :=
  if ((65 <=? c) && (c <=? 90))%N then (c + 32)%N else c.

Definition includes_ci (p s : jsstring) : bool :=
  includes (map toLowerAscii p) (map toLowerAscii s).

Definition is_digit (c : N) : bool := ((48 <=? c) && (c <=? 57))%N.

(** The regex class \w *)
Definition is_word (c : N) : bool :=
  is_digit c || ((65 <=? c) && (c <=? 90))%N || ((97 <=? c) && (c <=? 122))%N
  || N.eqb c 95.

(** [String(n)] for a non-negative integer. *)
Definition ofN (n : N) : jsstring := lit (NilZero.string_of_uint (N.to_uint n)).

(** [a.join(sep)] *)
Fixpoint join (sep : jsstring) (parts : list jsstring) : jsstring :=
  match parts with
  | [] => []
  | [p] => p
  | p :: r => p ++ sep ++ join sep r
  end.

(** ** [encodeURIComponent] *)

Definition hexDigit (n : N) : N := if (n <? 10)%N then (48 + n)%N else (55 + n)%N.

Definition percent (byte : N) : jsstring :=
  [37; hexDigit (byte / 16); hexDigit (byte mod 16)]%N.

Definition utf8 (cp : N) : list N :=
  (if cp <? 128 then [cp]
   else if cp <? 2048 then [192 + cp / 64; 128 + cp mod 64]
   else if cp <? 65536 then
     [224 + cp / 4096; 128 + (cp / 64) mod 64; 128 + cp mod 64]
   else [240 + cp / 262144; 128 + (cp / 4096) mod 64;
         128 + (cp / 64) mod 64; 128 + cp mod 64])%N.

Definition uriUnreserved (c : N) : bool :=
  is_digit c || ((65 <=? c) && (c <=? 90))%N || ((97 <=? c) && (c <=? 122))%N
  || existsb (N.eqb c) (lit "-_.!~*'()").

Definition isHighSurrogate (c : N) : bool := ((55296 <=? c) && (c <=? 56319))%N.
Definition isLowSurrogate (c : N) : bool := ((56320 <=? c) && (c <=? 57343))%N.

(** [None] stands for the URIError that a lone surrogate raises. *)
Fixpoint encodeURIComponent (s : jsstring) : option jsstring :=
  match s with
  | [] => Some []
  | c :: r =>
      if uriUnreserved c then option_map (cons c) (encodeURIComponent r)
      else if isLowSurrogate c then None
      else if isHighSurrogate c then
        match r with
        | lo :: r' =>
            if isLowSurrogate lo then
              let cp := ((c - 55296) * 1024 + (lo - 56320) + 65536)%N in
              option_map (app (flat_map percent (utf8 cp))) (encodeURIComponent r')
            else None
        | [] => None
        end
      else option_map (app (flat_map percent (utf8 c))) (encodeURIComponent r)
  end.

End JS.
Export JS.

(* ================================================================== *)
(** * JSON values, thrown values, the world, the monad                  *)
(* ================================================================== *)

(** What [JSON.parse] yields. An object keeps its members, with distinct
    keys, in the order in which [Object.keys] lists them. *)
#[warnings="-register-all"]
Inductive Json :=
| JNull
| JBool (b : bool)
| JNum (z : Z)
| JStr (s : jsstring)
| JArr (items : list Json)
| JObj (members : list (jsstring * Json)).

(** A response body: the text, and what [JSON.parse] makes of that text
    ([None] when it raises a SyntaxError). *)
Record Body := { text : jsstring; parsed : option Json }.

(** The [details] of a [SocialPostingError]: absent, a string, or some other
    value of which only the [String(...)] rendering matters. *)
Inductive Details :=
| NoDetails
| DetailText (s : jsstring)
| DetailValue (rendering : jsstring).

(** Values that the code throws and catches. *)
Inductive JsError :=
| SocialPostingError (message : jsstring) (code : option jsstring) (details : Details)
| PlainError (message : jsstring)           (* any other [Error] instance *)
| ThrownValue (rendering : jsstring).       (* a thrown non-[Error] value *)

(** [err instanceof Error ? err.message : String(err)] *)
Definition errorMessage (e : JsError) : jsstring :=
  match e with
  | SocialPostingError m _ _ => m
  | PlainError m => m
  | ThrownValue r => r
  end.

Inductive Method := GET | POST | PUT | DELETE.

(** A request as handed to [fetch]: the form or JSON payload is kept
    structured, before its URL or JSON encoding. *)
Inductive FormValue :=
| Text (s : jsstring)
| Stringified (j : Json).            (* [JSON.stringify(j)] *)

Inductive Payload :=
| NoPayload
| Form (fields : list (jsstring * FormValue))
| JsonBody (j : Json)
| Binary.

Record Request := {
  method : Method;
  url : jsstring;
  query : list (jsstring * jsstring);
  payload : Payload
}.

Record Response := {
  status : N;
  body : Body;
  headers : list (jsstring * jsstring)
}.

(** [response.ok] *)
Definition ok (r : Response) : bool := ((200 <=? status r) && (status r <=? 299))%N.

(** What the network does with one request, and how long it takes. *)
Inductive Reply :=
| NetworkFailure (latency : N) (cause : JsError)
| HttpReply (latency : N) (r : Response).

(** What the program did: a request together with the reply it got, a wait,
    a call of a caller-supplied closure. *)
Inductive Event :=
| EvFetch (req : Request) (reply : Reply)
| EvSleep (ms : N)
| EvCall (callee : string).

(** The world: the clock ([Date.now()]), the replies that the network gives
    to the successive requests, how many it has given, and the trace. *)
Record World := {
  now : N;
  net : nat -> Reply;
  served : nat;
  trace : list Event
}.

Inductive Result (A : Type) :=
| Ok (a : A)
| Throw (e : JsError)
| Hang.                       (* the fuel of a polling loop ran out *)
Arguments Ok {A} a.
Arguments Throw {A} e.
Arguments Hang {A}.

(** Computations over a state [W] that return, throw or hang. A throw keeps
    the state as it was when it happened: what a [catch] block sees. *)
Section StateAndExceptions.
Variable W : Type.

Definition St (A : Type) := W -> Result A * W.

Definition ret {A} (a : A) : St A := fun w => (Ok a, w).

Definition throw {A} (e : JsError) : St A := fun w => (Throw e, w).

Definition bind {A B} (m : St A) (k : A -> St B) : St B :=
  fun w =>
    match m w with
    | (Ok a, w') => k a w'
    | (Throw e, w') => (Throw e, w')
    | (Hang, w') => (Hang, w')
    end.

(** [try { m } catch (e) { h e }] *)
Definition tryCatch {A} (m : St A) (h : JsError -> St A) : St A :=
  fun w =>
    match m w with
    | (Throw e, w') => h e w'
    | r => r
    end.
End StateAndExceptions.
Arguments ret {W A} a.
Arguments throw {W A} e.
Arguments bind {W A B} m k.
Arguments tryCatch {W A} m h.

(** Code whose only state is the world. *)
Definition M (A : Type) := St World A.

(** Code that also mutates local variables [S] (the arrays that a loop
    pushes to): world actions are lifted, locals are read and updated. *)
Definition Proc (S A : Type) := St (S * World) A.

Definition lift {S A} (m : M A) : Proc S A :=
  fun sw =>
    match m (snd sw) with
    | (r, w') => (r, (fst sw, w'))
    end.

Definition modify {S} (g : S -> S) : Proc S unit :=
  fun sw => (Ok tt, (g (fst sw), snd sw)).

(** Run code with fresh locals [s]; the locals are handed back when it
    returns and are gone when it throws. *)
Definition withLocals {S A} (s : S) (p : Proc S A) : M (A * S) :=
  fun w =>
    match p (s, w) with
    | (Ok a, (s', w')) => (Ok (a, s'), w')
    | (Throw e, (_, w')) => (Throw e, w')
    | (Hang, (_, w')) => (Hang, w')
    end.

Declare Scope js_scope.
Delimit Scope js_scope with js.
Notation "x <- m ;; k" := (bind m (fun x => k))
  (at level 61, m at next level, right associativity) : js_scope.
Notation "m ;; k" := (bind m (fun _ => k))
  (at level 61, right associativity) : js_scope.
Notation "' pat <- m ;; k" := (bind m (fun x => match x with pat => k end))
  (at level 61, pat pattern, m at next level, right associativity) : js_scope.
Open Scope js_scope.

Definition record (ev : Event) (w : World) : World :=
  {| now := now w; net := net w; served := served w; trace := trace w ++ [ev] |}.

Definition advance (ms : N) (w : World) : World :=
  {| now := (now w + ms)%N; net := net w; served := served w; trace := trace w |}.

(** [Date.now()] *)
Definition dateNow : M N := fun w => (Ok (now w), w).

(** [await new Promise((r) => setTimeout(r, ms))] *)
Definition sleep (ms : N) : M unit :=
  fun w => (Ok tt, advance ms (record (EvSleep ms) w)).

(** A caller-supplied closure: given the world it is called in, it returns or
    throws. *)
Inductive Outcome (A : Type) :=
| Returns (a : A)
| Throws (e : JsError).
Arguments Returns {A} a.
Arguments Throws {A} e.

Definition Closure (A : Type) := World -> Outcome A.

Definition call {A} (callee : string) (f : Closure A) : M A :=
  fun w =>
    let w' := record (EvCall callee) w in
    match f w with
    | Returns a => (Ok a, w')
    | Throws e => (Throw e, w')
    end.

Definition latency (reply : Reply) : N :=
  match reply with
  | NetworkFailure ms _ => ms
  | HttpReply ms _ => ms
  end.

(** The world after the network has answered [req]. *)
Definition exchange (req : Request) (w : World) : World :=
  let reply := net w (served w) in
  {| now := (now w + latency reply)%N; net := net w; served := S (served w);
     trace := trace w ++ [EvFetch req reply] |}.

(** The global [fetch]: the next reply of the network. *)
Definition fetch (req : Request) : M Response :=
  fun w =>
    match net w (served w) with
    | NetworkFailure _ cause => (Throw cause, exchange req w)
    | HttpReply _ r => (Ok r, exchange req w)
    end.

(* ================================================================== *)
(** * lib/request.ts                                                    *)
(* ================================================================== *)

Module Request.

Definition DEFAULT_TIMEOUT_MS : N := 60000.

Definition NETWORK_ERROR := lit "NETWORK_ERROR".
Definition API_ERROR := lit "API_ERROR".

(** [fetchWithTimeout]: whatever makes [fetch] reject, the abort at the
    timeout included, is rethrown as a NETWORK_ERROR. *)
Definition fetchWithTimeout (req : Request) : M Response :=
  tryCatch (fetch req)
    (fun e =>
       let msg := match e with
                  | ThrownValue _ => lit "Request failed"
                  | _ => errorMessage e
                  end in
       throw (SocialPostingError msg (Some NETWORK_ERROR)
                (DetailValue (errorMessage e)))).

(** [JSON.parse(text || "{}")] or a SocialPostingError. *)
Definition parseJson (b : Body) (errorContext : jsstring) : M Json :=
  if nonempty (text b) then
    match parsed b with
    | Some j => ret j
    | None => throw (SocialPostingError (errorContext ++ lit ": invalid JSON") None
                       (DetailText (slice0 200 (text b))))
    end
  else ret (JObj []).

(** Property access [j.k] on a parsed value ([None] for [undefined]). *)
Fixpoint lookup (k : jsstring) (ms : list (jsstring * Json)) : option Json :=
  match ms with
  | [] => None
  | (k', v) :: r => if JS.eqb k k' then Some v else lookup k r
  end.

Definition prop (j : Json) (k : jsstring) : option Json :=
  match j with
  | JObj ms => lookup k ms
  | _ => None
  end.

(** [a ?? b] on JSON values: [null] and [undefined] are nullish. *)
Definition nullish (v : option Json) : bool :=
  match v with None | Some JNull => true | _ => false end.

Definition coalesce (a b : option Json) : option Json :=
  if nullish a then b else a.

(** A member read at a declared type [string]: the string, when the member
    is one. *)
Definition stringProp (j : Json) (k : jsstring) : option jsstring :=
  match prop j k with
  | Some (JStr s) => Some s
  | _ => None
  end.

(** [throwIfNotOk] *)
Definition throwIfNotOk (response : Response) (b : Body) (platformName : jsstring)
  : M unit :=
  if ok response then ret tt
  else
    let default := platformName ++ lit " API error: " ++ ofN (status response) in
    let message :=
      match (if nonempty (text b) then parsed b else None) with
      | Some JNull | None => default
      | Some j =>
          let err := match prop j (lit "error") with
                     | Some e => e
                     | None => JNull
                     end in
          match coalesce (prop err (lit "message"))
                  (coalesce (prop err (lit "error_user_msg"))
                     (prop j (lit "message"))) with
          | Some (JStr s) => if nonempty s then s else default
          | _ => default
          end
      end in
    throw (SocialPostingError message (Some API_ERROR)
             (DetailText (slice0 500 (text b)))).

(** The regex [/\b(429|5\d{2})\b/]: a three-digit run "429" or "5dd" with
    a word boundary on both sides. *)
Definition statusAt (s : jsstring) : bool :=
  match s with
  | a :: b :: c :: rest =>
      ((N.eqb a 52 && N.eqb b 50 && N.eqb c 57)
       || (N.eqb a 53 && is_digit b && is_digit c))
      && match rest with
         | [] => true
         | d :: _ => negb (is_word d)
         end
  | _ => false
  end.

Fixpoint statusScan (prevWord : bool) (s : jsstring) : bool :=
  match s with
  | [] => false
  | c :: r => (negb prevWord && statusAt s) || statusScan (is_word c) r
  end.

Definition mentionsRetryableStatus (d : jsstring) : bool := statusScan false d.

(** The regex [/timeout|ECONNRESET|ETIMEDOUT|ENOTFOUND/i] *)
Definition mentionsTransientFault (m : jsstring) : bool :=
  includes_ci (lit "timeout") m || includes_ci (lit "ECONNRESET") m
  || includes_ci (lit "ETIMEDOUT") m || includes_ci (lit "ENOTFOUND") m.

(** [isRetryableError] *)
Definition isRetryableError (err : JsError) : bool :=
  match err with
  | SocialPostingError m code d =>
      match code with
      | Some c =>
          if JS.eqb c NETWORK_ERROR then true
          else if JS.eqb c API_ERROR
               then match d with
                    | DetailText s =>
                        (nonempty s && mentionsRetryableStatus s)
                        || mentionsTransientFault m
                    | DetailValue r =>
                        mentionsRetryableStatus r || mentionsTransientFault m
                    | NoDetails => mentionsTransientFault m
                    end
               else mentionsTransientFault m
      | None => mentionsTransientFault m
      end
  | PlainError m => mentionsTransientFault m
  | ThrownValue _ => false
  end.

Record RetryOptions := { retries : option Z; retryDelayMs : option Z }.

Definition orElse {A} (o : option A) (d : A) : A :=
  match o with Some a => a | None => d end.

(** The [for] loop of [withRetries]; [remaining] counts the iterations
    still allowed by [attempt <= retries + 1]. *)
Fixpoint retryLoop {T} (fn : M T) (retries : Z) (delayMs : N)
         (remaining : nat) (attempt : Z) (lastErr : JsError) : M (T * Z) :=
  match remaining with
  | O => throw lastErr
  | S k =>
      tryCatch (result <- fn ;; ret (result, attempt))
        (fun e =>
           if (attempt <=? retries)%Z && isRetryableError e
           then sleep delayMs ;;
                retryLoop fn retries delayMs k (attempt + 1)%Z e
           else throw e)
  end.

(** [withRetries(fn, options)] returns [[result, attempt]]. *)
Definition withRetries {T} (fn : M T) (options : RetryOptions) : M (T * Z) :=
  let retries := Z.max 0 (orElse (retries options) 0%Z) in
  let delayMs := Z.to_N (Z.max 0 (orElse (retryDelayMs options) 1000%Z)) in
  retryLoop fn retries delayMs (Z.to_nat (retries + 1)) 1%Z
    (ThrownValue (lit "undefined")).

End Request.

(* ================================================================== *)
(** * types.ts (the parts the platform modules share)                   *)
(* ================================================================== *)

Inductive PlatformCode := f | i | l | t.

Record MetaConfig := {
  pageAccessToken : jsstring;
  pageId : jsstring;
  instagramBusinessAccountId : option jsstring;
  adAccountId : option jsstring
}.

Record LinkedInConfig := {
  li_accessToken : jsstring;
  personUrn : option jsstring;
  organizationUrn : option jsstring
}.

Record ThreadsConfig := {
  userId : jsstring;
  th_accessToken : jsstring
}.

Record SocialPostingConfig := {
  meta : option MetaConfig;
  linkedin : option LinkedInConfig;
  threads : option ThreadsConfig
}.

(** [InstagramPostResult], [MetaPostResult], [ThreadsPostResult] and
    [LinkedInPostResult] are one and the same shape. *)
Record PostResult := { postId : jsstring; permalink : option jsstring }.

(** [new SocialPostingError(message)] and
    [new SocialPostingError(message, { details })] *)
Definition spError (message : string) : JsError :=
  SocialPostingError (lit message) None NoDetails.

Definition spErrorWith (message : jsstring) (details : jsstring) : JsError :=
  SocialPostingError message None (DetailText details).

(** [encodeURIComponent(s)] where it is evaluated. *)
Definition encoded (s : jsstring) : M jsstring :=
  match encodeURIComponent s with
  | Some e => ret e
  | None => throw (PlainError (lit "URI malformed"))
  end.

(** A value used where JavaScript tests it for truthiness and then reads it:
    the string, when there is one and it is not empty. *)
Definition present (o : option jsstring) : option jsstring :=
  match o with
  | Some s => if nonempty s then Some s else None
  | None => None
  end.

(** [o?.trim()] *)
Definition trimOpt (o : option jsstring) : option jsstring := option_map trim o.

Definition formPost (u : jsstring) (fields : list (jsstring * FormValue)) : Request :=
  {| method := POST; url := u; query := []; payload := Form fields |}.

Definition getWith (u : jsstring) (q : list (jsstring * jsstring)) : Request :=
  {| method := GET; url := u; query := q; payload := NoPayload |}.

(** [String(Math.min(most, Math.max(1, limit)))] *)
Definition limitText (most limit : Z) : jsstring :=
  ofN (Z.to_N (Z.min most (Z.max 1 limit))).

(** [data[key] ?? []], the member being read at its declared type: an
    array, or absent. *)
Definition itemsOf (data : Json) (key : string) : list Json :=
  match Request.prop data (lit key) with
  | Some (JArr items) => items
  | _ => []
  end.

(** The [TypeError] that reading member [key] of [null] raises. *)
Definition nullRead (key : string) : JsError :=
  PlainError (lit "Cannot read properties of null (reading '" ++ lit key ++ lit "')").

(** [data[key] ?? []] on a parsed body, which may be [null]. *)
Definition listOf (data : Json) (key : string) : M (list Json) :=
  match data with
  | JNull => throw (nullRead key)
  | _ => ret (itemsOf data key)
  end.

(** A member read at a declared type [number]. *)
Definition numProp (j : Json) (k : jsstring) : option Z :=
  match Request.prop j k with
  | Some (JNum z) => Some z
  | _ => None
  end.

(* ================================================================== *)
(** * platforms/instagram.ts                                            *)
(* ================================================================== *)

Module Instagram.
Import Request.

Definition META_BASE := lit "https://graph.facebook.com/v24.0".
Definition POLL_INTERVAL_MS : N := 2000.
Definition POLL_MAX_WAIT_MS : N := 30000.

(** Tests of [Date.now() < deadline] that the polling loop can make: the
    clock gains at least [POLL_INTERVAL_MS] per iteration, so the test
    fails after at most [POLL_MAX_WAIT_MS / POLL_INTERVAL_MS] of them. *)
Definition POLL_FUEL : nat := S (N.to_nat (POLL_MAX_WAIT_MS / POLL_INTERVAL_MS)).

Definition statusRequest (creationId token : jsstring) : Request :=
  getWith (META_BASE ++ lit "/" ++ creationId)
    [(lit "fields", lit "status_code"); (lit "access_token", token)].

Definition publishRequest (igUserId token creationId : jsstring) : Request :=
  formPost (META_BASE ++ lit "/" ++ igUserId ++ lit "/media_publish")
    [(lit "access_token", Text (token)); (lit "creation_id", Text (creationId))].

Definition createRequest (igUserId token imageUrl content : jsstring) : Request :=
  formPost (META_BASE ++ lit "/" ++ igUserId ++ lit "/media")
    ([(lit "access_token", Text token);
      (lit "image_url", Text imageUrl);
      (lit "media_type", Text (lit "IMAGE"))]
     ++ (if nonempty (trim content) then [(lit "caption", Text (trim content))] else [])).

(** The [while (Date.now() < deadline)] loop of [postToInstagram]. *)
Fixpoint pollContainer (fuel : nat) (creationId token : jsstring) (deadline : N)
  : M unit :=
  match fuel with
  | O => fun w => (Hang, w)
  | S fuel' =>
      t0 <- dateNow ;;
      if (t0 <? deadline)%N then
        statusRes <- fetchWithTimeout (statusRequest creationId token) ;;
        let statusText := body statusRes in
        throwIfNotOk statusRes statusText (lit "Instagram") ;;
        statusData <- parseJson statusText (lit "Instagram") ;;
        let statusCode :=
          orElse (stringProp statusData (lit "status_code")) (lit "UNKNOWN") in
        if JS.eqb statusCode (lit "FINISHED") || JS.eqb statusCode (lit "PUBLISHED")
        then ret tt
        else if JS.eqb statusCode (lit "ERROR") || JS.eqb statusCode (lit "EXPIRED")
        then throw (spErrorWith (lit "Instagram container " ++ statusCode)
                      (slice0 200 (text statusText)))
        else sleep POLL_INTERVAL_MS ;;
             pollContainer fuel' creationId token deadline
      else ret tt
  end.

(** The best-effort permalink lookup that ends [postToInstagram]. *)
Definition fetchPermalink (base id token : jsstring) (field context : string)
  : M (option jsstring) :=
  tryCatch
    (permRes <- fetchWithTimeout
                  (getWith (base ++ lit "/" ++ id)
                     [(lit "fields", lit field); (lit "access_token", token)]) ;;
     if ok permRes then
       permData <- parseJson (body permRes) (lit context) ;;
       ret (present (stringProp permData (lit field)))
     else ret None)
    (fun _ => ret None).

Definition publishContainer (igUserId token creationId : jsstring) : M PostResult :=
  publishRes <- fetchWithTimeout (publishRequest igUserId token creationId) ;;
  let publishText := body publishRes in
  throwIfNotOk publishRes publishText (lit "Instagram") ;;
  publishData <- parseJson publishText (lit "Instagram") ;;
  match present (stringProp publishData (lit "id")) with
  | None => throw (spErrorWith (lit "Instagram did not return media id")
                     (slice0 200 (text publishText)))
  | Some mediaId =>
      sleep 1500 ;;
      link <- fetchPermalink META_BASE mediaId token "permalink" "Instagram permalink" ;;
      ret {| postId := mediaId; permalink := link |}
  end.

(** [postToInstagram(config, { content, imageUrl })] *)
Definition postToInstagram (config : MetaConfig) (content imageUrl : jsstring)
  : M PostResult :=
  if negb (nonempty (trim (pageAccessToken config))) then
    throw (spError "Meta pageAccessToken is required for Instagram")
  else
    match present (trimOpt (instagramBusinessAccountId config)) with
    | None => throw (spError "Meta instagramBusinessAccountId is required for Instagram")
    | Some igUserId =>
        res <- fetchWithTimeout
                 (createRequest igUserId (pageAccessToken config) imageUrl content) ;;
        let text0 := body res in
        throwIfNotOk res text0 (lit "Instagram") ;;
        data <- parseJson text0 (lit "Instagram") ;;
        match present (stringProp data (lit "id")) with
        | None => throw (spErrorWith (lit "Instagram did not return container id")
                           (slice0 200 (text text0)))
        | Some creationId =>
            let token := pageAccessToken config in
            t0 <- dateNow ;;
            let deadline := (t0 + POLL_MAX_WAIT_MS)%N in
            pollContainer POLL_FUEL creationId token deadline ;;
            publishContainer igUserId token creationId
        end
    end.

(** [replyToComment(config, commentId, message)] *)
Definition replyToComment (config : MetaConfig) (commentId message : jsstring)
  : M jsstring :=
  if negb (nonempty (trim (pageAccessToken config))) then
    throw (spError "Meta pageAccessToken is required for Instagram")
  else
    res <- fetchWithTimeout
             (formPost (META_BASE ++ lit "/" ++ commentId ++ lit "/replies")
                [(lit "message", Text (message));
                 (lit "access_token", Text (pageAccessToken config))]) ;;
    throwIfNotOk res (body res) (lit "Instagram") ;;
    data <- parseJson (body res) (lit "Instagram") ;;
    match present (stringProp data (lit "id")) with
    | None => throw (spError "Instagram did not return reply id")
    | Some id => ret id
    end.

(** [deletePost]: a synchronous function of type [never]. *)
Definition deletePost (_config : option MetaConfig) (_postId : jsstring) : M unit :=
  throw (spError "Instagram does not support deleting posts via API").

(** [getUserMedia(config, limit)]; the query string is kept structured. *)
Definition getUserMedia (config : MetaConfig) (limit : Z) : M (list Json) :=
  if negb (nonempty (trim (pageAccessToken config))) then
    throw (spError "Meta pageAccessToken is required for Instagram")
  else
    match present (trimOpt (instagramBusinessAccountId config)) with
    | None => throw (spError "Meta instagramBusinessAccountId is required for Instagram")
    | Some igUserId =>
        res <- fetchWithTimeout
                 (getWith (META_BASE ++ lit "/" ++ igUserId ++ lit "/media")
                    [(lit "fields", lit "id,caption,timestamp,permalink,media_type");
                     (lit "limit", limitText 50 limit);
                     (lit "access_token", pageAccessToken config)]) ;;
        throwIfNotOk res (body res) (lit "Instagram") ;;
        data <- parseJson (body res) (lit "Instagram") ;;
        listOf data "data"
    end.

(** [getMediaComments(config, mediaId, limit)] *)
Definition getMediaComments (config : MetaConfig) (mediaId : jsstring) (limit : Z)
  : M (list Json) :=
  if negb (nonempty (trim (pageAccessToken config))) then
    throw (spError "Meta pageAccessToken is required for Instagram")
  else
    res <- fetchWithTimeout
             (getWith (META_BASE ++ lit "/" ++ mediaId ++ lit "/comments")
                [(lit "fields", lit "id,text,username,timestamp,like_count");
                 (lit "limit", limitText 100 limit);
                 (lit "access_token", pageAccessToken config)]) ;;
    throwIfNotOk res (body res) (lit "Instagram") ;;
    data <- parseJson (body res) (lit "Instagram") ;;
    listOf data "data".

End Instagram.

(* ================================================================== *)
(** * platforms/threads.ts                                              *)
(* ================================================================== *)

Module Threads.
Import Request.

Definition THREADS_BASE := lit "https://graph.threads.net/v1.0".
Definition THREADS_TEXT_MAX_LENGTH : nat := 500.

Record ThreadsPostParams := {
  content : jsstring;
  imageUrl : option jsstring;
  altText : option jsstring;
  linkAttachment : option jsstring
}.

Definition optionalField (name : string) (v : option jsstring)
  : list (jsstring * FormValue) :=
  match present (trimOpt v) with
  | Some s => [(lit name, Text s)]
  | None => []
  end.

Definition publishRequest (config : ThreadsConfig) (containerId : jsstring) : Request :=
  formPost (THREADS_BASE ++ lit "/" ++ userId config ++ lit "/threads_publish")
    [(lit "access_token", Text (th_accessToken config)); (lit "creation_id", Text (containerId))].

(** [postToThreads(config, params)] *)
Definition postToThreads (config : ThreadsConfig) (params : ThreadsPostParams)
  : M PostResult :=
  if negb (nonempty (trim (userId config))) then
    throw (spError "Threads userId is required")
  else if negb (nonempty (trim (th_accessToken config))) then
    throw (spError "Threads accessToken is required")
  else
    let text0 := trim (content params) in
    let image := present (trimOpt (imageUrl params)) in
    if negb (nonempty text0) && negb (truthy image) then
      throw (spError "Threads post requires content or image")
    else if (THREADS_TEXT_MAX_LENGTH <? List.length text0)%nat then
      throw (SocialPostingError
               (lit "Threads post text cannot exceed "
                  ++ ofN (N.of_nat THREADS_TEXT_MAX_LENGTH) ++ lit " characters")
               None NoDetails)
    else
      let isImage := truthy image in
      let form : list (jsstring * FormValue) :=
        [(lit "access_token", Text (th_accessToken config));
         (lit "media_type", Text (if isImage then lit "IMAGE" else lit "TEXT"))]
        ++ (if nonempty text0 then [(lit "text", Text (text0))] else [])
        ++ optionalField "image_url" (imageUrl params)
        ++ optionalField "alt_text" (altText params)
        ++ optionalField "link_attachment" (linkAttachment params)
        ++ (if isImage then [] else [(lit "auto_publish_text", Text (lit "true"))]) in
      res <- fetchWithTimeout
               (formPost (THREADS_BASE ++ lit "/" ++ userId config ++ lit "/threads") form) ;;
      let responseText := body res in
      throwIfNotOk res responseText (lit "Threads") ;;
      data <- parseJson responseText (lit "Threads") ;;
      let created := present (stringProp data (lit "id")) in
      containerId <-
        match created with
        | Some creationId =>
            if isImage then
              publishRes <- fetchWithTimeout (publishRequest config creationId) ;;
              let publishText := body publishRes in
              throwIfNotOk publishRes publishText (lit "Threads") ;;
              publishData <- parseJson publishText (lit "Threads") ;;
              match present (stringProp publishData (lit "id")) with
              | Some published => ret (Some published)
              | None => ret (Some creationId)
              end
            else ret created
        | None => ret None
        end ;;
      match containerId with
      | None => throw (spErrorWith (lit "Threads did not return media id")
                         (slice0 200 (text responseText)))
      | Some id =>
          link <- Instagram.fetchPermalink THREADS_BASE id (th_accessToken config)
                    "permalink" "Threads permalink" ;;
          ret {| postId := id; permalink := link |}
      end.

(** [replyToPost(config, postId, message)] *)
Definition replyToPost (config : ThreadsConfig) (postId message : jsstring)
  : M jsstring :=
  if negb (nonempty (trim (userId config)))
     || negb (nonempty (trim (th_accessToken config))) then
    throw (spError "Threads userId and accessToken are required")
  else
    let text0 := trim message in
    if (THREADS_TEXT_MAX_LENGTH <? List.length text0)%nat then
      throw (SocialPostingError
               (lit "Threads reply cannot exceed "
                  ++ ofN (N.of_nat THREADS_TEXT_MAX_LENGTH) ++ lit " characters")
               None NoDetails)
    else
      res <- fetchWithTimeout
               (formPost (THREADS_BASE ++ lit "/" ++ userId config ++ lit "/threads")
                  [(lit "access_token", Text (th_accessToken config));
                   (lit "media_type", Text (lit "TEXT"));
                   (lit "text", Text (text0));
                   (lit "reply_to_id", Text (postId));
                   (lit "auto_publish_text", Text (lit "true"))]) ;;
      throwIfNotOk res (body res) (lit "Threads") ;;
      data <- parseJson (body res) (lit "Threads") ;;
      match present (stringProp data (lit "id")) with
      | None => throw (spError "Threads did not return reply id")
      | Some id => ret id
      end.

(** [deletePost(config, postId)] *)
Definition deletePost (config : ThreadsConfig) (postId : jsstring) : M unit :=
  if negb (nonempty (trim (th_accessToken config))) then
    throw (spError "Threads accessToken is required")
  else
    e <- encoded (th_accessToken config) ;;
    res <- fetchWithTimeout
             {| method := DELETE;
                url := THREADS_BASE ++ lit "/" ++ postId ++ lit "?access_token=" ++ e;
                query := []; payload := NoPayload |} ;;
    throwIfNotOk res (body res) (lit "Threads").

(** [getUserThreads(config, limit)] *)
Definition getUserThreads (config : ThreadsConfig) (limit : Z) : M (list Json) :=
  if negb (nonempty (trim (userId config)))
     || negb (nonempty (trim (th_accessToken config))) then
    throw (spError "Threads userId and accessToken are required")
  else
    res <- fetchWithTimeout
             (getWith (THREADS_BASE ++ lit "/" ++ userId config ++ lit "/threads")
                [(lit "fields", lit "id,text,timestamp,permalink,media_type,username");
                 (lit "limit", limitText 50 limit);
                 (lit "access_token", th_accessToken config)]) ;;
    throwIfNotOk res (body res) (lit "Threads") ;;
    data <- parseJson (body res) (lit "Threads") ;;
    listOf data "data".

(** [getReplies(config, limit)] *)
Definition getReplies (config : ThreadsConfig) (limit : Z) : M (list Json) :=
  if negb (nonempty (trim (userId config)))
     || negb (nonempty (trim (th_accessToken config))) then
    throw (spError "Threads userId and accessToken are required")
  else
    res <- fetchWithTimeout
             (getWith (THREADS_BASE ++ lit "/" ++ userId config ++ lit "/replies")
                [(lit "fields", lit "id,text,timestamp,username,replied_to");
                 (lit "limit", limitText 100 limit);
                 (lit "access_token", th_accessToken config)]) ;;
    throwIfNotOk res (body res) (lit "Threads") ;;
    data <- parseJson (body res) (lit "Threads") ;;
    listOf data "data".

(** [getRepliesForPost(config, postId, limit)] *)
Definition getRepliesForPost (config : ThreadsConfig) (postId : jsstring) (limit : Z)
  : M (list Json) :=
  if negb (nonempty (trim (th_accessToken config))) then
    throw (spError "Threads accessToken is required")
  else
    res <- fetchWithTimeout
             (getWith (THREADS_BASE ++ lit "/" ++ postId ++ lit "/replies")
                [(lit "fields", lit "id,text,timestamp,username");
                 (lit "limit", limitText 100 limit);
                 (lit "access_token", th_accessToken config)]) ;;
    if N.eqb (status res) 404 || N.eqb (status res) 400 then ret []
    else
      throwIfNotOk res (body res) (lit "Threads") ;;
      data <- parseJson (body res) (lit "Threads") ;;
      listOf data "data".

End Threads.


(* ================================================================== *)
(** * platforms/meta.ts                                                 *)
(* ================================================================== *)

Module Meta.
Import Request.

Definition META_BASE := lit "https://graph.facebook.com/v24.0".

Inductive AdStatus := ACTIVE | PAUSED.

Definition statusText (s : AdStatus) : jsstring :=
  match s with ACTIVE => lit "ACTIVE" | PAUSED => lit "PAUSED" end.

(** [String(n)] for an integer. *)
Definition ofZ (z : Z) : jsstring :=
  if (z <? 0)%Z then lit "-" ++ ofN (Z.to_N (- z)) else ofN (Z.to_N z).

(** ** [toMetaTargetingSpec] *)

(** The caller's targeting description (types.ts); the entries of the
    location lists are the objects that the caller wrote. *)
Record Targeting := {
  ageMin : option Z;
  ageMax : option Z;
  genders : option (list Z);
  countries : option (list jsstring);
  regions : option (list Json);
  cities : option (list Json);
  zips : option (list Json);
  customLocations : option (list Json);
  interests : option (list Json);
  behaviors : option (list Json);
  publisherPlatforms : option (list jsstring)
}.

Definition MetaTargeting := Targeting.

(** [list?.length] as a condition *)
Definition filled {A} (o : option (list A)) : bool :=
  match o with
  | Some (_ :: _) => true
  | _ => false
  end.

(** An object literal [{ k1: x.k1, k2: x.k2, ... }] as [JSON.stringify]
    shows it: the members that are defined. [None] stands for the TypeError
    that reading a member of [null] raises. *)
Definition pick (keys : list string) (x : Json) : option Json :=
  match x with
  | JNull => None
  | _ =>
      Some (JObj (flat_map (fun k => match prop x (lit k) with
                                     | Some v => [(lit k, v)]
                                     | None => []
                                     end) keys))
  end.

Fixpoint pickAll (keys : list string) (xs : list Json) : option (list Json) :=
  match xs with
  | [] => Some []
  | x :: rest =>
      match pick keys x, pickAll keys rest with
      | Some y, Some ys => Some (y :: ys)
      | _, _ => None
      end
  end.

(** A member of an object literal whose value may be [undefined]. *)
Definition optionalMember (key : string) (v : option Json) : list (jsstring * Json) :=
  match v with
  | Some j => [(lit key, j)]
  | None => []
  end.

(** [toMetaTargetingSpec(t)], as [JSON.stringify] shows the result. *)
Definition toMetaTargetingSpec (t : Targeting) : option Json :=
  let mapped (keys : list string) (o : option (list Json)) : option (list Json) :=
    if filled o then pickAll keys (orElse o []) else Some [] in
  match mapped ["key"; "radius"; "distance_unit"]%string (cities t),
        mapped ["latitude"; "longitude"; "address_string"; "radius";
                "distance_unit"]%string (customLocations t) with
  | Some cityList, Some locationList =>
      let geo :=
        (if filled (countries t)
         then [(lit "countries", JArr (map JStr (orElse (countries t) [])))] else [])
        ++ (if filled (regions t)
            then [(lit "regions", JArr (orElse (regions t) []))] else [])
        ++ (if filled (cities t) then [(lit "cities", JArr cityList)] else [])
        ++ (if filled (zips t) then [(lit "zips", JArr (orElse (zips t) []))] else [])
        ++ (if filled (customLocations t)
            then [(lit "custom_locations", JArr locationList)] else []) in
      let geo :=
        match geo with
        | [] => [(lit "countries", JArr [JStr (lit "US")])]
        | _ => geo
        end in
      Some (JObj (optionalMember "age_min" (option_map JNum (ageMin t))
                  ++ optionalMember "age_max" (option_map JNum (ageMax t))
                  ++ optionalMember "genders"
                       (option_map (fun g => JArr (map JNum g)) (genders t))
                  ++ [(lit "geo_locations", JObj geo)]
                  ++ optionalMember "interests" (option_map JArr (interests t))
                  ++ optionalMember "behaviors" (option_map JArr (behaviors t))
                  ++ [(lit "publisher_platforms",
                        JArr (map JStr (orElse (publisherPlatforms t)
                                          [lit "facebook"; lit "instagram"])));
                      (lit "facebook_positions", JArr [JStr (lit "feed")])]))
  | _, _ => None
  end.

(** [const targeting = toMetaTargetingSpec(params.targeting)] as a
    statement: reading [c.key] of a [null] city, or [loc.latitude] of a
    [null] location, raises a TypeError. *)
Definition targetingSpec (t : Targeting) : M Json :=
  match toMetaTargetingSpec t with
  | Some spec => ret spec
  | None =>
      if filled (cities t) && existsb (fun c => match c with JNull => true | _ => false end)
                                (orElse (cities t) [])
      then throw (nullRead "key")
      else throw (nullRead "latitude")
  end.

Record MetaPostParams := {
  content : jsstring;
  imageUrl : jsstring;
  targeting : option MetaTargeting;
  createAd : option bool;
  dailyBudget : option Z;
  campaignName : option jsstring;
  adSetName : option jsstring
}.

Record AdParams := {
  ad_content : jsstring;
  ad_imageUrl : jsstring;
  ad_targeting : MetaTargeting;
  ad_dailyBudget : Z;
  ad_campaignName : option jsstring;
  ad_adSetName : option jsstring;
  startImmediately : option bool
}.

Record AdResources := {
  campaignId : jsstring;
  adSetId : jsstring;
  adId : jsstring;
  adStatus : AdStatus
}.

(** The address of an edge of the ad account. *)
Definition edgeUrl (accountId : jsstring) (edge : string) : jsstring :=
  META_BASE ++ lit "/" ++ accountId ++ lit "/" ++ lit edge.

(** One stage of the pipeline: post a form to an edge of the ad account and
    read the [id] of what was created. *)
Definition createResource (accountId : jsstring) (edge : string)
           (fields : list (jsstring * FormValue)) (missing : string) : M jsstring :=
  res <- fetchWithTimeout (formPost (edgeUrl accountId edge) fields) ;;
  throwIfNotOk res (body res) (lit "Meta") ;;
  data <- parseJson (body res) (lit "Meta") ;;
  match present (stringProp data (lit "id")) with
  | None => throw (spError missing)
  | Some id => ret id
  end.

(** [firstKey ? data.images[firstKey].hash : ""] *)
Definition firstImageHash (data : Json) : option jsstring :=
  match prop data (lit "images") with
  | Some (JObj ((firstKey, image) :: _)) =>
      if nonempty firstKey then stringProp image (lit "hash") else None
  | _ => None
  end.

(** [uploadMetaAdImage]: the hash of the first image of the reply. *)
Definition uploadMetaAdImage (accountId accessToken imageUrl : jsstring) : M jsstring :=
  res <- fetchWithTimeout
           (formPost (edgeUrl accountId "adimages")
              [(lit "url", Text imageUrl); (lit "access_token", Text accessToken)]) ;;
  throwIfNotOk res (body res) (lit "Meta") ;;
  data <- parseJson (body res) (lit "Meta") ;;
  match present (firstImageHash data) with
  | None => throw (spError "Meta did not return image hash")
  | Some h => ret h
  end.

Definition createMetaCampaign (accountId accessToken name : jsstring)
           (status : AdStatus) : M jsstring :=
  createResource accountId "campaigns"
    [(lit "name", Text name);
     (lit "objective", Text (lit "OUTCOME_ENGAGEMENT"));
     (lit "status", Text (statusText status));
     (lit "access_token", Text accessToken)]
    "Meta did not return campaign id".

Definition createMetaAdSet (accountId accessToken campaign name : jsstring)
           (budget : Z) (spec : Json) (page : jsstring)
           (status : AdStatus) : M jsstring :=
  createResource accountId "adsets"
    [(lit "campaign_id", Text campaign);
     (lit "name", Text name);
     (lit "daily_budget", Text (ofZ budget));
     (lit "targeting", Stringified spec);
     (lit "promoted_object", Stringified (JObj [(lit "page_id", JStr page)]));
     (lit "status", Text (statusText status));
     (lit "billing_event", Text (lit "IMPRESSIONS"));
     (lit "optimization_goal", Text (lit "REACH"));
     (lit "access_token", Text accessToken)]
    "Meta did not return ad set id".

Definition createMetaAdCreative (accountId accessToken page imageHash message : jsstring)
  : M jsstring :=
  createResource accountId "adcreatives"
    [(lit "name", Text (lit "Creative " ++ slice0 50 message));
     (lit "object_story_spec",
       Stringified
         (JObj [(lit "page_id", JStr page);
                (lit "photo_data",
                  JObj [(lit "image_hash", JStr imageHash);
                        (lit "caption", JStr message)])]));
     (lit "access_token", Text accessToken)]
    "Meta did not return creative id".

Definition adRecordForm (accessToken adSet creative name : jsstring) (status : AdStatus)
  : list (jsstring * FormValue) :=
  [(lit "adset_id", Text adSet);
   (lit "creative", Stringified (JObj [(lit "creative_id", JStr creative)]));
   (lit "name", Text name);
   (lit "status", Text (statusText status));
   (lit "access_token", Text accessToken)].

Definition createMetaAdRecord (accountId accessToken adSet creative name : jsstring)
           (status : AdStatus) : M unit :=
  res <- fetchWithTimeout
           (formPost (edgeUrl accountId "ads")
              (adRecordForm accessToken adSet creative name status)) ;;
  throwIfNotOk res (body res) (lit "Meta").

Definition createMetaAdRecordAndReturnId
           (accountId accessToken adSet creative name : jsstring) (status : AdStatus)
  : M jsstring :=
  createResource accountId "ads"
    (adRecordForm accessToken adSet creative name status)
    "Meta did not return ad id".

(** [id.startsWith("act_") ? id : `act_${id}`] *)
Definition accountOf (adAccount : jsstring) : jsstring :=
  if startsWith (lit "act_") adAccount then adAccount else lit "act_" ++ adAccount.

(** [name ?? `${prefix} ${Date.now()}`] *)
Definition nameOr (name : option jsstring) (prefix : string) : M jsstring :=
  match name with
  | Some n => ret n
  | None => stamp <- dateNow ;; ret (lit prefix ++ lit " " ++ ofN stamp)
  end.

(** [createMetaAd]: the pipeline as [postToMeta] runs it after a post. *)
Definition createMetaAd (config : MetaConfig) (page imageUrl message : jsstring)
           (targeting : MetaTargeting) (budget : Z)
           (campaignName adSetName : option jsstring) (status : option AdStatus)
  : M unit :=
  match adAccountId config with
  | None => throw (PlainError (lit "Cannot read properties of undefined (reading 'startsWith')"))
  | Some adAccount =>
      let accountId := accountOf adAccount in
      let token := pageAccessToken config in
      let status := orElse status PAUSED in
      imageHash <- uploadMetaAdImage accountId token imageUrl ;;
      campaignName <- nameOr campaignName "Campaign" ;;
      adSetName <- nameOr adSetName "AdSet" ;;
      campaign <- createMetaCampaign accountId token campaignName status ;;
      spec <- targetingSpec targeting ;;
      adSet <- createMetaAdSet accountId token campaign adSetName budget spec page status ;;
      creative <- createMetaAdCreative accountId token page imageHash message ;;
      createMetaAdRecord accountId token adSet creative adSetName status
  end.

(** [runMetaAds(config, params)] *)
Definition runMetaAds (config : MetaConfig) (params : AdParams) : M AdResources :=
  match present (trimOpt (adAccountId config)), adAccountId config with
  | Some _, Some adAccount =>
      let accountId := accountOf adAccount in
      let token := pageAccessToken config in
      if negb (nonempty (trim token)) then
        throw (spError "Meta pageAccessToken is required")
      else
        let status := match startImmediately params with
                      | Some true => ACTIVE
                      | _ => PAUSED
                      end in
        imageHash <- uploadMetaAdImage accountId token (ad_imageUrl params) ;;
        campaignName <- nameOr (ad_campaignName params) "Campaign" ;;
        adSetName <- nameOr (ad_adSetName params) "AdSet" ;;
        campaign <- createMetaCampaign accountId token campaignName status ;;
        spec <- targetingSpec (ad_targeting params) ;;
        adSet <- createMetaAdSet accountId token campaign adSetName
                   (ad_dailyBudget params) spec (pageId config) status ;;
        creative <- createMetaAdCreative accountId token (pageId config) imageHash
                      (ad_content params) ;;
        ad <- createMetaAdRecordAndReturnId accountId token adSet creative adSetName
                status ;;
        ret {| campaignId := campaign; adSetId := adSet; adId := ad;
               adStatus := status |}
  | _, _ => throw (spError "Meta adAccountId is required for runMetaAds")
  end.

(** [replyToComment(config, commentId, message)] *)
Definition replyToComment (config : MetaConfig) (commentId message : jsstring)
  : M jsstring :=
  if negb (nonempty (trim (pageAccessToken config))) then
    throw (spError "Meta pageAccessToken is required")
  else
    res <- fetchWithTimeout
             (formPost (META_BASE ++ lit "/" ++ commentId ++ lit "/comments")
                [(lit "message", Text message);
                 (lit "access_token", Text (pageAccessToken config))]) ;;
    throwIfNotOk res (body res) (lit "Meta") ;;
    data <- parseJson (body res) (lit "Meta") ;;
    match present (stringProp data (lit "id")) with
    | None => throw (spError "Meta did not return reply id")
    | Some id => ret id
    end.

(** [deletePost(config, postId)] *)
Definition deletePost (config : MetaConfig) (postId : jsstring) : M unit :=
  if negb (nonempty (trim (pageAccessToken config))) then
    throw (spError "Meta pageAccessToken is required")
  else
    e <- encoded (pageAccessToken config) ;;
    res <- fetchWithTimeout
             {| method := DELETE;
                url := META_BASE ++ lit "/" ++ postId ++ lit "?access_token=" ++ e;
                query := []; payload := NoPayload |} ;;
    throwIfNotOk res (body res) (lit "Meta").

(** [postToMeta(config, params)] *)
Definition postToMeta (config : MetaConfig) (params : MetaPostParams) : M PostResult :=
  if negb (nonempty (trim (pageAccessToken config))) then
    throw (spError "Meta pageAccessToken is required")
  else if negb (nonempty (trim (pageId config))) then
    throw (spError "Meta pageId is required")
  else
    res <- fetchWithTimeout
             (formPost (META_BASE ++ lit "/" ++ pageId config ++ lit "/photos")
                [(lit "url", Text (imageUrl params));
                 (lit "caption", Text (content params));
                 (lit "access_token", Text (pageAccessToken config))]) ;;
    throwIfNotOk res (body res) (lit "Meta") ;;
    data <- parseJson (body res) (lit "Meta") ;;
    let posted :=
      match coalesce (prop data (lit "post_id")) (prop data (lit "id")) with
      | Some (JStr s) => present (Some s)
      | _ => None
      end in
    match posted with
    | None => throw (spErrorWith (lit "Meta did not return post id")
                       (slice0 200 (text (body res))))
    | Some id =>
        let constructed :=
          if nonempty (pageId config)
          then Some (lit "https://www.facebook.com/" ++ pageId config
                       ++ lit "/posts/" ++ id)
          else None in
        looked <- Instagram.fetchPermalink META_BASE id (pageAccessToken config)
                    "permalink_url" "Meta permalink" ;;
        let link := match looked with Some p => Some p | None => constructed end in
        match createAd params, targeting params, dailyBudget params,
              present (adAccountId config) with
        | Some true, Some described, Some budget, Some _ =>
            createMetaAd config (pageId config) (imageUrl params) (content params)
              described budget (campaignName params) (adSetName params) (Some PAUSED)
        | _, _, _, _ => ret tt
        end ;;
        ret {| postId := id; permalink := link |}
    end.

(** The regex
    [/does not exist|cannot be loaded due to missing permissions|Unsupported get request|does not support this operation|#100/i] *)
Definition suggestsPublishedPosts (msg : jsstring) : bool :=
  includes_ci (lit "does not exist") msg
  || includes_ci (lit "cannot be loaded due to missing permissions") msg
  || includes_ci (lit "Unsupported get request") msg
  || includes_ci (lit "does not support this operation") msg
  || includes_ci (lit "#100") msg.

(** The request of [tryEndpoint(path)] in [getPageRecentPosts]. *)
Definition pagePostsRequest (config : MetaConfig) (limit : Z) (path : string) : Request :=
  getWith (META_BASE ++ lit "/" ++ pageId config ++ lit "/" ++ lit path)
    [(lit "fields", lit "id,message,created_time,permalink_url");
     (lit "limit", limitText 100 limit);
     (lit "access_token", pageAccessToken config)].

(** [getPageRecentPosts(config, limit)]: [/feed], and [/published_posts]
    when the failure of [/feed] reads like a missing edge or permission. *)
Definition getPageRecentPosts (config : MetaConfig) (limit : Z) : M (list Json) :=
  if negb (nonempty (trim (pageAccessToken config)))
     || negb (nonempty (trim (pageId config))) then
    throw (spError "Meta pageAccessToken and pageId are required")
  else
    let tryEndpoint (path : string) : M (list Json) :=
      res <- fetchWithTimeout (pagePostsRequest config limit path) ;;
      throwIfNotOk res (body res) (lit "Meta") ;;
      data <- parseJson (body res) (lit "Meta") ;;
      listOf data "data" in
    tryCatch (tryEndpoint "feed"%string)
      (fun err =>
         if negb (suggestsPublishedPosts (errorMessage err)) then throw err
         else tryCatch (tryEndpoint "published_posts"%string) (fun _ => throw err)).

(** [getPostComments(config, postId, limit)] *)
Definition getPostComments (config : MetaConfig) (postId : jsstring) (limit : Z)
  : M (list Json) :=
  if negb (nonempty (trim (pageAccessToken config))) then
    throw (spError "Meta pageAccessToken is required")
  else
    res <- fetchWithTimeout
             (getWith (META_BASE ++ lit "/" ++ postId ++ lit "/comments")
                [(lit "fields", lit "id,message,from,created_time,comment_count");
                 (lit "limit", limitText 100 limit);
                 (lit "access_token", pageAccessToken config)]) ;;
    throwIfNotOk res (body res) (lit "Meta") ;;
    data <- parseJson (body res) (lit "Meta") ;;
    listOf data "data".

End Meta.

(* ================================================================== *)
(** * platforms/linkedin.ts                                             *)
(* ================================================================== *)

Module LinkedIn.
Import Request.

Definition LINKEDIN_BASE := lit "https://api.linkedin.com/v2".

(** [a ?? b] on optional strings. *)
Definition orOpt (a b : option jsstring) : option jsstring :=
  match a with Some _ => a | None => b end.

(** [response.headers.get(name)], the names being held in lower case. *)
Fixpoint header (name : jsstring) (hs : list (jsstring * jsstring)) : option jsstring :=
  match hs with
  | [] => None
  | (k, v) :: r => if JS.eqb k name then Some v else header name r
  end.

(** ** The two patterns that read a post URN off a [location] header *)

Fixpoint dropPrefix (p s : jsstring) : option jsstring :=
  match p, s with
  | [], _ => Some s
  | x :: p', y :: s' => if N.eqb x y then dropPrefix p' s' else None
  | _ :: _, [] => None
  end.

Fixpoint takeWhile (keep : N -> bool) (s : jsstring) : jsstring :=
  match s with
  | c :: r => if keep c then c :: takeWhile keep r else []
  | [] => []
  end.

Fixpoint dropWhile (keep : N -> bool) (s : jsstring) : jsstring :=
  match s with
  | c :: r => if keep c then dropWhile keep r else s
  | [] => []
  end.

(** [/ugcPosts\/(urn:li:[^/]+)/] *)
Fixpoint matchUgcPost (s : jsstring) : option jsstring :=
  let here :=
    match dropPrefix (lit "ugcPosts/urn:li:") s with
    | Some rest =>
        let run := takeWhile (fun c => negb (N.eqb c 47)) rest in
        if nonempty run then Some (lit "urn:li:" ++ run) else None
    | None => None
    end in
  match here, s with
  | Some m, _ => Some m
  | None, _ :: r => matchUgcPost r
  | None, [] => None
  end.

(** [/(urn:li:\w+:\d+)/] *)
Fixpoint matchUrn (s : jsstring) : option jsstring :=
  let here :=
    match dropPrefix (lit "urn:li:") s with
    | Some rest =>
        let kind := takeWhile is_word rest in
        match dropWhile is_word rest with
        | 58%N :: after =>
            let digits := takeWhile is_digit after in
            if nonempty kind && nonempty digits
            then Some (lit "urn:li:" ++ kind ++ lit ":" ++ digits)
            else None
        | _ => None
        end
    | None => None
    end in
  match here, s with
  | Some m, _ => Some m
  | None, _ :: r => matchUrn r
  | None, [] => None
  end.

(** [linkedInImageFromUrl]: register an upload, fetch the image, upload it. *)
Definition linkedInImageFromUrl (accessToken ownerUrn imageUrl : jsstring) : M jsstring :=
  let registerBody :=
    JObj [(lit "registerUploadRequest",
            JObj [(lit "owner", JStr ownerUrn);
                  (lit "recipes",
                    JArr [JStr (lit "urn:li:digitalmediaRecipe:feedshare-image")]);
                  (lit "serviceRelationships",
                    JArr [JObj [(lit "relationshipType", JStr (lit "OWNER"));
                                (lit "identifier",
                                  JStr (lit "urn:li:userGeneratedContent"))]])])] in
  regRes <- fetchWithTimeout
              {| method := POST;
                 url := LINKEDIN_BASE ++ lit "/assets?action=registerUpload";
                 query := []; payload := JsonBody registerBody |} ;;
  throwIfNotOk regRes (body regRes) (lit "LinkedIn") ;;
  regData <- parseJson (body regRes) (lit "LinkedIn") ;;
  let value := orElse (prop regData (lit "value")) JNull in
  let mechanism := orElse (prop value (lit "uploadMechanism")) JNull in
  let request :=
    orElse (prop mechanism
              (lit "com.linkedin.digitalmedia.uploading.MediaUploadHttpRequest"))
           JNull in
  match present (stringProp value (lit "asset")),
        present (stringProp request (lit "uploadUrl")) with
  | Some asset, Some uploadUrl =>
      imageRes <- fetch (getWith imageUrl []) ;;
      if negb (ok imageRes) then
        throw (spErrorWith (lit "Failed to fetch image from URL: " ++ ofN (status imageRes))
                 imageUrl)
      else
        putRes <- fetchWithTimeout
                    {| method := PUT; url := uploadUrl; query := [];
                       payload := Binary |} ;;
        if negb (ok putRes) then
          throw (spErrorWith (lit "LinkedIn image upload failed: " ++ ofN (status putRes))
                   (slice0 300 (text (body putRes))))
        else ret asset
  | _, _ =>
      throw (spErrorWith (lit "LinkedIn registerUpload did not return asset or uploadUrl")
               (slice0 300 (text (body regRes))))
  end.

(** [postToLinkedIn(config, { content, imageUrl, visibility })] *)
Definition postToLinkedIn (config : LinkedInConfig) (content : jsstring)
           (imageUrl visibility : option jsstring) : M PostResult :=
  if negb (nonempty (trim (li_accessToken config))) then
    throw (spError "LinkedIn accessToken is required")
  else
    match present (orOpt (trimOpt (personUrn config)) (trimOpt (organizationUrn config))) with
    | None => throw (spError "LinkedIn personUrn or organizationUrn is required")
    | Some authorUrn =>
        imageAssetUrn <-
          match imageUrl with
          | Some u =>
              if nonempty (trim u) then
                asset <- linkedInImageFromUrl (li_accessToken config) authorUrn u ;;
                ret (Some asset)
              else ret None
          | None => ret None
          end ;;
        let shareContent :=
          [(lit "shareCommentary", JObj [(lit "text", JStr content)]);
           (lit "shareMediaCategory",
             JStr (if truthy imageAssetUrn then lit "IMAGE" else lit "NONE"))]
          ++ match present imageAssetUrn with
             | Some asset =>
                 [(lit "media",
                    JArr [JObj [(lit "media", JStr asset);
                                (lit "status", JStr (lit "READY"));
                                (lit "title",
                                  JObj [(lit "attributes", JArr []);
                                        (lit "text", JStr [])])]])]
             | None => []
             end in
        let post :=
          JObj [(lit "author", JStr authorUrn);
                (lit "lifecycleState", JStr (lit "PUBLISHED"));
                (lit "specificContent",
                  JObj [(lit "com.linkedin.ugc.ShareContent", JObj shareContent)]);
                (lit "visibility",
                  JObj [(lit "com.linkedin.ugc.MemberNetworkVisibility",
                          JStr (orElse visibility (lit "PUBLIC")))])] in
        res <- fetchWithTimeout
                 {| method := POST; url := LINKEDIN_BASE ++ lit "/ugcPosts";
                    query := []; payload := JsonBody post |} ;;
        throwIfNotOk res (body res) (lit "LinkedIn") ;;
        fromBody <- tryCatch
                      (data <- parseJson (body res) (lit "LinkedIn") ;;
                       ret (present (stringProp data (lit "id"))))
                      (fun _ => ret None) ;;
        let fromHeader :=
          match fromBody with
          | Some id => Some id
          | None => present (orOpt (header (lit "x-restli-id") (headers res))
                                   (header (lit "id") (headers res)))
          end in
        let found :=
          match fromHeader, present (header (lit "location") (headers res)) with
          | Some id, _ => Some id
          | None, Some location =>
              match matchUgcPost location with
              | Some m => Some m
              | None => matchUrn location
              end
          | None, None => None
          end in
        match found with
        | None => throw (spErrorWith (lit "LinkedIn did not return post id")
                           (slice0 200 (text (body res))))
        | Some id =>
            if startsWith (lit "urn:") id then
              e <- encoded id ;;
              ret {| postId := id;
                     permalink := Some (lit "https://www.linkedin.com/feed/update/" ++ e) |}
            else ret {| postId := id; permalink := None |}
        end
    end.

(** [replyToComment(config, postId, message, parentCommentId)] *)
Definition replyToComment (config : LinkedInConfig) (postId message : jsstring)
           (parentCommentId : option jsstring) : M jsstring :=
  if negb (nonempty (trim (li_accessToken config))) then
    throw (spError "LinkedIn accessToken is required")
  else
    let comment :=
      JObj (match orOpt (personUrn config) (organizationUrn config) with
            | Some actor => [(lit "actor", JStr actor)]
            | None => []
            end
            ++ [(lit "message", JObj [(lit "text", JStr message)]);
                (lit "object", JStr postId)]
            ++ match present parentCommentId with
               | Some parent => [(lit "parentComment", JStr parent)]
               | None => []
               end) in
    e <- encoded postId ;;
    res <- fetchWithTimeout
             {| method := POST;
                url := LINKEDIN_BASE ++ lit "/socialActions/" ++ e ++ lit "/comments";
                query := []; payload := JsonBody comment |} ;;
    throwIfNotOk res (body res) (lit "LinkedIn") ;;
    match present (orOpt (header (lit "x-restli-id") (headers res))
                         (header (lit "id") (headers res))) with
    | None => throw (spError "LinkedIn did not return comment id")
    | Some id => ret id
    end.

(** [deletePost(config, postId)] *)
Definition deletePost (config : LinkedInConfig) (postId : jsstring) : M unit :=
  if negb (nonempty (trim (li_accessToken config))) then
    throw (spError "LinkedIn accessToken is required")
  else
    e <- encoded postId ;;
    res <- fetchWithTimeout
             {| method := DELETE; url := LINKEDIN_BASE ++ lit "/ugcPosts/" ++ e;
                query := []; payload := NoPayload |} ;;
    throwIfNotOk res (body res) (lit "LinkedIn").

Definition LINKEDIN_REST_BASE := lit "https://api.linkedin.com/rest".

(** [String(Math.min(100, Math.max(1, limit)))], as a template literal
    writes the number. *)
Definition countText (limit : Z) : jsstring := limitText 100 limit.

(** An element of [getRecentPosts]: the four members copied off the reply. *)
Record LinkedInPostItem := {
  lp_id : option jsstring;
  commentary : option jsstring;
  lp_createdAt : option Z;
  lp_permalink : option jsstring
}.

(** [elements.map((el) => ({ id: el.id, ... }))] *)
Fixpoint postItems (elements : list Json) : M (list LinkedInPostItem) :=
  match elements with
  | [] => ret []
  | JNull :: _ => throw (nullRead "id")
  | el :: rest =>
      items <- postItems rest ;;
      ret ({| lp_id := stringProp el (lit "id");
              commentary := stringProp el (lit "commentary");
              lp_createdAt := numProp el (lit "createdAt");
              lp_permalink := stringProp el (lit "permalink") |} :: items)
  end.

(** [getRecentPosts(config, limit)] *)
Definition getRecentPosts (config : LinkedInConfig) (limit : Z)
  : M (list LinkedInPostItem) :=
  if negb (nonempty (trim (li_accessToken config))) then
    throw (spError "LinkedIn accessToken is required")
  else
    match present (orOpt (trimOpt (personUrn config)) (trimOpt (organizationUrn config))) with
    | None => throw (spError "LinkedIn personUrn or organizationUrn is required")
    | Some authorUrn =>
        e <- encoded authorUrn ;;
        res <- fetchWithTimeout
                 (getWith (LINKEDIN_REST_BASE ++ lit "/posts?author=" ++ e
                             ++ lit "&count=" ++ countText limit) []) ;;
        if N.eqb (status res) 404 then ret []
        else
          throwIfNotOk res (body res) (lit "LinkedIn") ;;
          data <- parseJson (body res) (lit "LinkedIn") ;;
          elements <- listOf data "elements" ;;
          postItems elements
    end.

(** An element of [getPostComments]. *)
Record LinkedInComment := {
  lc_id : option jsstring;
  lc_message : option jsstring;
  actor : option jsstring;
  lc_createdAt : option Z
}.

(** [typeof el.message === "object" && el.message?.text != null
     ? el.message.text : undefined] *)
Definition messageText (el : Json) : option jsstring :=
  match prop el (lit "message") with
  | Some (JObj members) =>
      match lookup (lit "text") members with
      | Some (JStr s) => Some s
      | _ => None
      end
  | _ => None
  end.

Fixpoint commentItems (elements : list Json) : M (list LinkedInComment) :=
  match elements with
  | [] => ret []
  | JNull :: _ => throw (nullRead "id")
  | el :: rest =>
      items <- commentItems rest ;;
      ret ({| lc_id := stringProp el (lit "id");
              lc_message := messageText el;
              actor := stringProp el (lit "actor");
              lc_createdAt := numProp el (lit "createdAt") |} :: items)
  end.

(** [getPostComments(config, postId, limit)] *)
Definition getPostComments (config : LinkedInConfig) (postId : jsstring) (limit : Z)
  : M (list LinkedInComment) :=
  if negb (nonempty (trim (li_accessToken config))) then
    throw (spError "LinkedIn accessToken is required")
  else
    e <- encoded postId ;;
    res <- fetchWithTimeout
             (getWith (LINKEDIN_BASE ++ lit "/socialActions/" ++ e
                         ++ lit "/comments?count=" ++ countText limit) []) ;;
    throwIfNotOk res (body res) (lit "LinkedIn") ;;
    data <- parseJson (body res) (lit "LinkedIn") ;;
    elements <- listOf data "elements" ;;
    commentItems elements.

End LinkedIn.

(* ================================================================== *)
(** * utils.ts                                                          *)
(* ================================================================== *)

Module Utils.

(** [string[] | string] *)
Inductive Hashtags :=
| TagList (tags : list jsstring)
| TagText (s : jsstring).

(** [t.replace(/^#/, "")] *)
Definition stripHash (s : jsstring) : jsstring :=
  match s with
  | 35%N :: r => r
  | _ => s
  end.

Definition isSeparator (c : N) : bool := is_space c || N.eqb c 44.

(** [s.split(/[\s,]+/)]; [cur] is the piece being read, backwards. *)
Fixpoint splitOn (sep : N -> bool) (s cur : jsstring) (inSep : bool) : list jsstring :=
  match s with
  | [] => [rev cur]
  | c :: r =>
      if sep c then
        if inSep then splitOn sep r cur true
        else rev cur :: splitOn sep r [] true
      else splitOn sep r (c :: cur) false
  end.

Definition normalizeHashtags (hashtags : option Hashtags) : list jsstring :=
  match hashtags with
  | None => []
  | Some (TagList tags) =>
      filter nonempty
        (map (fun tag => if nonempty (trim tag) then stripHash (trim tag) else []) tags)
  | Some (TagText s) =>
      filter nonempty
        (map (fun tag => stripHash (trim tag)) (splitOn isSeparator s [] false))
  end.

Definition appendHashtags (content : jsstring) (hashtags : option Hashtags) : jsstring :=
  match normalizeHashtags hashtags with
  | [] => content
  | parts =>
      let formatted :=
        join (lit " ")
          (map (fun p => if startsWith (lit "#") p then p else lit "#" ++ p) parts) in
      trim (content ++ [10%N] ++ formatted)
  end.

(** [text.replace(/\r\n/g, "\n")] and [text.replace(/\r/g, "\n")] *)
Fixpoint replaceCRLF (s : jsstring) : jsstring :=
  match s with
  | 13%N :: 10%N :: r => 10%N :: replaceCRLF r
  | c :: r => c :: replaceCRLF r
  | [] => []
  end.

Definition replaceCR (s : jsstring) : jsstring :=
  map (fun c => if N.eqb c 13 then 10%N else c) s.

Definition sanitizeContent (text : jsstring) : jsstring :=
  trim (replaceCR (replaceCRLF (filter (fun c => negb (N.eqb c 65533)) text))).

Definition CODE_TO_PLATFORM_LABEL (code : PlatformCode) : jsstring :=
  match code with
  | f => lit "Facebook"
  | i => lit "Instagram"
  | l => lit "LinkedIn"
  | t => lit "Threads"
  end.

End Utils.

(* ================================================================== *)
(** * client.ts                                                         *)
(* ================================================================== *)

Module Client.
Import Request Utils.

(** ** Data of types.ts that the client produces and consumes *)

Record PlatformResult := {
  pr_platform : jsstring;
  pr_code : PlatformCode;
  pr_postId : option jsstring;
  pr_error : option jsstring;
  pr_content : option jsstring;
  pr_permalink : option jsstring;
  pr_postedAt : option N;           (* the clock reading behind the ISO string *)
  pr_attempt : option Z
}.

Record Failure := { f_platform : jsstring; f_error : jsstring }.

Inductive BatchStatus := StatusFull | StatusPartial | StatusFailed.

Record CrossPostResult := {
  platformResults : list PlatformResult;
  failed : list Failure;
  batchStatus : BatchStatus;
  maxAttempt : option Z
}.

Inductive PostAs := AsPerson | AsOrganization.

Definition postAsText (p : PostAs) : jsstring :=
  match p with AsPerson => lit "person" | AsOrganization => lit "organization" end.

Record CrossPostParams := {
  postOn : list PlatformCode;
  content : jsstring;
  imageUrl : option jsstring;
  imageBuffer : option (list N);
  hashtags : option Hashtags;
  platformContent : PlatformCode -> option jsstring;
  contentSuffix : option jsstring;
  targeting : option Meta.MetaTargeting;
  createAd : option bool;
  dailyBudget : option Z;
  campaignName : option jsstring;
  adSetName : option jsstring;
  threadsUserId : option jsstring;
  threadsAccessToken : option jsstring;
  altText : option jsstring;
  linkAttachment : option jsstring;
  retries : option Z;
  retryDelayMs : option Z;
  linkedinPostAs : option PostAs
}.

Record CrossPostProgressCallbacks := {
  onPlatformStart : option (jsstring -> PlatformCode -> Closure unit);
  onPlatformDone : option (jsstring -> PlatformCode -> PlatformResult -> Closure unit)
}.

Record SocialPostingClientOptions := {
  uploadImage : option (list N -> jsstring -> Closure jsstring);
  contentAdapter : option (jsstring -> jsstring -> PlatformCode -> Closure (option jsstring));
  o_contentSuffix : option jsstring;
  progress : option CrossPostProgressCallbacks
}.

Record SocialPostingClient := {
  config : SocialPostingConfig;
  options : SocialPostingClientOptions
}.

(** ** crossPost *)

(** The arrays and the counter that the provider loop updates. *)
Record Batch := {
  results : list PlatformResult;
  failures : list Failure;
  highestAttempt : Z
}.

Definition pushResult (pr : PlatformResult) (b : Batch) : Batch :=
  {| results := results b ++ [pr]; failures := failures b;
     highestAttempt := highestAttempt b |}.

Definition pushFailure (label error : jsstring) (b : Batch) : Batch :=
  {| results := results b;
     failures := failures b ++ [{| f_platform := label; f_error := error |}];
     highestAttempt := highestAttempt b |}.

(** [if (attempt > maxAttempt) maxAttempt = attempt] *)
Definition raiseAttempt (attempt : Z) (b : Batch) : Batch :=
  {| results := results b; failures := failures b;
     highestAttempt := if (attempt >? highestAttempt b)%Z then attempt
                       else highestAttempt b |}.

(** [{ platform: label, code, error, content }] *)
Definition errorResult (label : jsstring) (code : PlatformCode)
           (error content : jsstring) : PlatformResult :=
  {| pr_platform := label; pr_code := code; pr_postId := None;
     pr_error := Some error; pr_content := Some content; pr_permalink := None;
     pr_postedAt := None; pr_attempt := None |}.

(** What every [doPost] returns after its adapter has. *)
Definition posted (label : jsstring) (code : PlatformCode) (content : jsstring)
           (result : PostResult) : M PlatformResult :=
  stamp <- dateNow ;;
  ret {| pr_platform := label; pr_code := code; pr_postId := Some (postId result);
         pr_error := None; pr_content := Some content;
         pr_permalink := permalink result; pr_postedAt := Some stamp;
         pr_attempt := None |}.

(** [{ ...pr, attempt }] *)
Definition withAttempt (pr : PlatformResult) (attempt : Z) : PlatformResult :=
  {| pr_platform := pr_platform pr; pr_code := pr_code pr; pr_postId := pr_postId pr;
     pr_error := pr_error pr; pr_content := pr_content pr;
     pr_permalink := pr_permalink pr; pr_postedAt := pr_postedAt pr;
     pr_attempt := Some attempt |}.

(** [this.options.progress?.onPlatformStart?.(label, code)] *)
Definition notifyStart (o : SocialPostingClientOptions) (label : jsstring)
           (code : PlatformCode) : M unit :=
  match progress o with
  | Some {| onPlatformStart := Some hook |} => call "onPlatformStart" (hook label code)
  | _ => ret tt
  end.

(** [this.options.progress?.onPlatformDone?.(label, code, pr)] *)
Definition notifyDone (o : SocialPostingClientOptions) (label : jsstring)
           (code : PlatformCode) (pr : PlatformResult) : M unit :=
  match progress o with
  | Some {| onPlatformDone := Some hook |} => call "onPlatformDone" (hook label code pr)
  | _ => ret tt
  end.

Definition bufferGiven (params : CrossPostParams) : bool :=
  match imageBuffer params with
  | Some (_ :: _) => true
  | _ => false
  end.

(** The image reference is resolved once, before the loop. *)
Definition resolveImage (this : SocialPostingClient) (params : CrossPostParams)
  : M (option jsstring) :=
  let given := trimOpt (imageUrl params) in
  resolved <-
    match imageBuffer params, uploadImage (options this) with
    | Some buffer, Some upload =>
        if negb (truthy given) && bufferGiven params then
          uploaded <- call "uploadImage" (upload buffer (lit "image/png")) ;;
          ret (Some uploaded)
        else ret given
    | _, _ => ret given
    end ;;
  if negb (truthy resolved) && bufferGiven params then
    throw (PlainError (lit ("imageBuffer provided but no uploadImage option; "
                            ++ "pass imageUrl or set uploadImage in options")))
  else ret resolved.

Definition baseContentOf (this : SocialPostingClient) (params : CrossPostParams)
  : jsstring :=
  let suffix := orElse (LinkedIn.orOpt (contentSuffix params) (o_contentSuffix (options this)))
                  [] in
  if nonempty suffix && nonempty (content params)
  then trim (content params ++ [10%N] ++ suffix)
  else content params.

(** The text sent to one provider. *)
Definition prepareContent (this : SocialPostingClient) (params : CrossPostParams)
           (baseContent : jsstring) (code : PlatformCode) : M jsstring :=
  let label := CODE_TO_PLATFORM_LABEL code in
  let chosen := orElse (trimOpt (platformContent params code)) baseContent in
  adapted <-
    match contentAdapter (options this) with
    | Some adapter =>
        if nonempty chosen then
          answer <- call "contentAdapter" (adapter chosen label code) ;;
          ret (orElse (trimOpt answer) chosen)
        else ret chosen
    | None => ret chosen
    end ;;
  ret (sanitizeContent (appendHashtags adapted (hashtags params))).

(** [retries > 0 ? await withRetries(doPost, ...) : [await doPost(), 1]] *)
Definition attemptPost (retries retryDelayMs : Z) (doPost : M PlatformResult)
  : M (PlatformResult * Z) :=
  if (retries >? 0)%Z then
    withRetries doPost {| Request.retries := Some retries;
                          Request.retryDelayMs := Some retryDelayMs |}
  else
    pr <- doPost ;; ret (pr, 1%Z).

(** Push to [failed], push the outcome, tell the hook: the statements before
    each [continue], and the [catch] block. *)
Definition reject (this : SocialPostingClient) (label : jsstring) (code : PlatformCode)
           (content failure error : jsstring) : Proc Batch unit :=
  modify (pushFailure label failure) ;;
  modify (pushResult (errorResult label code error content)) ;;
  lift (notifyDone (options this) label code (errorResult label code error content)).

(** Run [doPost], push the outcome with its attempt number, tell the hook. *)
Definition complete (this : SocialPostingClient) (label : jsstring) (code : PlatformCode)
           (retries retryDelayMs : Z) (doPost : M PlatformResult) : Proc Batch unit :=
  '(pr, attempt) <- lift (attemptPost retries retryDelayMs doPost) ;;
  modify (raiseAttempt attempt) ;;
  modify (pushResult (withAttempt pr attempt)) ;;
  lift (notifyDone (options this) label code (withAttempt pr attempt)).

(** The body of [for (const code of params.postOn)]. *)
Definition platformStep (this : SocialPostingClient) (params : CrossPostParams)
           (image : option jsstring) (baseContent : jsstring)
           (retries retryDelayMs : Z) (code : PlatformCode) : Proc Batch unit :=
  let label := CODE_TO_PLATFORM_LABEL code in
  content <- lift (prepareContent this params baseContent code) ;;
  lift (notifyStart (options this) label code) ;;
  let reject := reject this label code content in
  let complete := complete this label code retries retryDelayMs in
  tryCatch
    (match code with
     | f =>
         match meta (config this) with
         | Some metaConfig =>
             if nonempty (pageAccessToken metaConfig) && nonempty (pageId metaConfig) then
               match present image with
               | Some url =>
                   complete
                     (result <- Meta.postToMeta metaConfig
                                  {| Meta.content := content; Meta.imageUrl := url;
                                     Meta.targeting := targeting params;
                                     Meta.createAd := createAd params;
                                     Meta.dailyBudget := dailyBudget params;
                                     Meta.campaignName := campaignName params;
                                     Meta.adSetName := adSetName params |} ;;
                      posted label code content result)
               | None =>
                   reject (lit "Facebook requires imageUrl (or imageBuffer + uploadImage)")
                          (lit "Facebook requires imageUrl (or imageBuffer + uploadImage)")
               end
             else reject (lit "Meta config missing (pageAccessToken, pageId)")
                         (lit "Meta config missing (pageAccessToken, pageId)")
         | None => reject (lit "Meta config missing (pageAccessToken, pageId)")
                          (lit "Meta config missing (pageAccessToken, pageId)")
         end
     | i =>
         match meta (config this) with
         | Some metaConfig =>
             if nonempty (pageAccessToken metaConfig)
                && truthy (instagramBusinessAccountId metaConfig) then
               match present image with
               | Some url =>
                   complete
                     (result <- Instagram.postToInstagram metaConfig content url ;;
                      posted label code content result)
               | None =>
                   reject (lit "Instagram requires imageUrl (or imageBuffer + uploadImage)")
                          (lit "Instagram requires imageUrl (or imageBuffer + uploadImage)")
               end
             else
               reject (lit "Meta config missing (pageAccessToken, instagramBusinessAccountId)")
                      (lit "Meta config missing (pageAccessToken, instagramBusinessAccountId)")
         | None =>
             reject (lit "Meta config missing (pageAccessToken, instagramBusinessAccountId)")
                    (lit "Meta config missing (pageAccessToken, instagramBusinessAccountId)")
         end
     | l =>
         match linkedin (config this) with
         | Some linkedInConfig =>
             if nonempty (li_accessToken linkedInConfig) then
               let postAs := orElse (linkedinPostAs params) AsPerson in
               let person := trimOpt (personUrn linkedInConfig) in
               let organization := trimOpt (organizationUrn linkedInConfig) in
               let authorUrn :=
                 match postAs with
                 | AsOrganization => LinkedIn.orOpt organization person
                 | AsPerson => LinkedIn.orOpt person organization
                 end in
               match present authorUrn with
               | Some author =>
                   complete
                     (result <- LinkedIn.postToLinkedIn
                                  {| li_accessToken := li_accessToken linkedInConfig;
                                     personUrn :=
                                       match postAs with
                                       | AsPerson => Some author
                                       | AsOrganization => None
                                       end;
                                     organizationUrn :=
                                       match postAs with
                                       | AsOrganization => Some author
                                       | AsPerson => None
                                       end |}
                                  content image None ;;
                      posted label code content result)
               | None =>
                   reject (lit "LinkedIn config missing (personUrn or organizationUrn); linkedinPostAs="
                             ++ postAsText postAs)
                          (lit "LinkedIn config missing (personUrn or organizationUrn)")
               end
             else reject (lit "LinkedIn config missing (accessToken)")
                         (lit "LinkedIn config missing (accessToken)")
         | None => reject (lit "LinkedIn config missing (accessToken)")
                          (lit "LinkedIn config missing (accessToken)")
         end
     | t =>
         let user :=
           LinkedIn.orOpt (trimOpt (threadsUserId params))
             (option_map (fun c => trim (userId c)) (threads (config this))) in
         let token :=
           LinkedIn.orOpt (trimOpt (threadsAccessToken params))
             (option_map (fun c => trim (th_accessToken c)) (threads (config this))) in
         match present user, present token with
         | Some threadsUser, Some threadsToken =>
             complete
               (result <- Threads.postToThreads
                            {| userId := threadsUser; th_accessToken := threadsToken |}
                            {| Threads.content := content; Threads.imageUrl := image;
                               Threads.altText := altText params;
                               Threads.linkAttachment := linkAttachment params |} ;;
                posted label code content result)
         | _, _ =>
             reject (lit "Threads config missing (userId, accessToken) or pass in params")
                    (lit "Threads config missing (userId, accessToken)")
         end
     end)
    (fun err => reject (errorMessage err) (errorMessage err)).

(** [for (const x of xs) body(x)] *)
Fixpoint forEach {S A} (xs : list A) (body : A -> Proc S unit) : Proc S unit :=
  match xs with
  | [] => ret tt
  | x :: rest => body x ;; forEach rest body
  end.

(** [platformResults.filter((r) => r.postId).length] *)
Definition completedCount (rs : list PlatformResult) : nat :=
  List.length (filter (fun r => truthy (pr_postId r)) rs).

Definition statusOf (failedCount completed : nat) : BatchStatus :=
  if Nat.eqb failedCount 0 then StatusFull
  else if Nat.eqb completed 0 then StatusFailed
  else StatusPartial.

(** [crossPost(params)] *)
Definition crossPost (this : SocialPostingClient) (params : CrossPostParams)
  : M CrossPostResult :=
  image <- resolveImage this params ;;
  let baseContent := baseContentOf this params in
  let retries := Z.max 0 (orElse (retries params) 0%Z) in
  let retryDelayMs := Z.max 0 (orElse (retryDelayMs params) 1000%Z) in
  '(_, batch) <- withLocals {| results := []; failures := []; highestAttempt := 1 |}
                   (forEach (postOn params)
                      (platformStep this params image baseContent retries retryDelayMs)) ;;
  ret {| platformResults := results batch;
         failed := failures batch;
         batchStatus := statusOf (List.length (failures batch))
                          (completedCount (results batch));
         maxAttempt := if (highestAttempt batch >? 1)%Z
                       then Some (highestAttempt batch) else None |}.

(** ** replyToComments *)

Record ReplyRequest := {
  channel : PlatformCode;
  message : jsstring;
  commentId : option jsstring;
  rq_postId : option jsstring
}.

Record ReplyResult := {
  rr_channel : jsstring;
  rr_code : PlatformCode;
  rr_commentId : option jsstring;
  rr_replyId : option jsstring
}.

(** An entry of [failed] or of [skipped]. *)
Record ReplyIssue := {
  ri_channel : jsstring;
  ri_code : PlatformCode;
  ri_error : jsstring
}.

Record ReplyToCommentsResult := {
  rp_results : list ReplyResult;
  rp_failed : list ReplyIssue;
  rp_skipped : list ReplyIssue;
  rp_batchStatus : BatchStatus
}.

(** The three arrays that the reply loop pushes to. *)
Record Replies := {
  done : list ReplyResult;
  rejected : list ReplyIssue;
  passedOver : list ReplyIssue
}.

Definition pushDone (r : ReplyResult) (b : Replies) : Replies :=
  {| done := done b ++ [r]; rejected := rejected b; passedOver := passedOver b |}.

Definition pushRejected (x : ReplyIssue) (b : Replies) : Replies :=
  {| done := done b; rejected := rejected b ++ [x]; passedOver := passedOver b |}.

Definition pushSkipped (x : ReplyIssue) (b : Replies) : Replies :=
  {| done := done b; rejected := rejected b; passedOver := passedOver b ++ [x] |}.

(** The body of [for (const req of batch)]. *)
Definition replyStep (this : SocialPostingClient) (req : ReplyRequest)
  : Proc Replies unit :=
  let label := CODE_TO_PLATFORM_LABEL (channel req) in
  let skip (error : jsstring) : Proc Replies unit :=
    modify (pushSkipped {| ri_channel := label; ri_code := channel req;
                           ri_error := error |}) in
  let succeed (target : option jsstring) (replyId : jsstring) : Proc Replies unit :=
    modify (pushDone {| rr_channel := label; rr_code := channel req;
                        rr_commentId := target; rr_replyId := Some replyId |}) in
  tryCatch
    (match channel req with
     | f =>
         match meta (config this), present (commentId req) with
         | Some metaConfig, Some comment =>
             if nonempty (pageAccessToken metaConfig) then
               replyId <- lift (Meta.replyToComment metaConfig comment (message req)) ;;
               succeed (commentId req) replyId
             else skip (lit "Meta config or commentId missing")
         | _, _ => skip (lit "Meta config or commentId missing")
         end
     | i =>
         match meta (config this), present (commentId req) with
         | Some metaConfig, Some comment =>
             if nonempty (pageAccessToken metaConfig) then
               replyId <- lift (Instagram.replyToComment metaConfig comment (message req)) ;;
               succeed (commentId req) replyId
             else skip (lit "Meta Instagram config or commentId missing")
         | _, _ => skip (lit "Meta Instagram config or commentId missing")
         end
     | l =>
         match linkedin (config this), present (rq_postId req) with
         | Some linkedInConfig, Some post =>
             if nonempty (li_accessToken linkedInConfig) then
               replyId <- lift (LinkedIn.replyToComment linkedInConfig post (message req)
                                  (commentId req)) ;;
               succeed (commentId req) replyId
             else skip (lit "LinkedIn config or postId missing")
         | _, _ => skip (lit "LinkedIn config or postId missing")
         end
     | t =>
         match threads (config this), present (rq_postId req) with
         | Some threadsConfig, Some post =>
             if nonempty (userId threadsConfig) && nonempty (th_accessToken threadsConfig)
             then
               replyId <- lift (Threads.replyToPost threadsConfig post (message req)) ;;
               succeed None replyId
             else skip (lit "Threads config or postId missing")
         | _, _ => skip (lit "Threads config or postId missing")
         end
     end)
    (fun err =>
       modify (pushRejected {| ri_channel := label; ri_code := channel req;
                               ri_error := errorMessage err |})).

(** The slices [replies.slice(i, i + batchLimit)] for [i = 0, batchLimit, ...]
    while [i < replies.length]. *)
Definition batches (batchLimit : nat) (replies : list ReplyRequest)
  : list (list ReplyRequest) :=
  map (fun k => firstn batchLimit (skipn (k * batchLimit) replies))
      (seq 0 ((List.length replies + batchLimit - 1) / batchLimit)).

(** The [number] that a caller passes as [batchLimit]: a whole number, or
    [NaN]. (A fraction is not modelled: [slice] truncates its bounds, so the
    rounds of a fractional limit are consecutive batches as well.) *)
Inductive JsNumber := Num (z : Z) | NaN.

(** [Math.min(50, Math.max(1, options?.batchLimit ?? 10))]: a number between
    1 and 50, or [NaN] ([None]), which [Math.max] and [Math.min] hand on. *)
Definition clamped (batchLimit : option JsNumber) : option nat :=
  match batchLimit with
  | Some NaN => None
  | Some (Num z) => Some (Z.to_nat (Z.min 50 (Z.max 1 z)))
  | None => Some (Z.to_nat (Z.min 50 (Z.max 1 10)))
  end.

(** The batches that [for (let i = 0; i < replies.length; i += batchLimit)]
    visits. When the limit is [NaN] and there are replies, the first round
    takes [replies.slice(0, NaN)], which is empty, and [i += NaN] makes
    [i < replies.length] false: the loop ends after that round. *)
Definition rounds (batchLimit : option JsNumber) (replies : list ReplyRequest)
  : list (list ReplyRequest) :=
  match clamped batchLimit with
  | Some limit => batches limit replies
  | None => match replies with [] => [] | _ :: _ => [[]] end
  end.

(** [replyToComments(replies, options)] *)
Definition replyToComments (this : SocialPostingClient) (replies : list ReplyRequest)
           (batchLimit : option JsNumber) : M ReplyToCommentsResult :=
  '(_, out) <- withLocals {| done := []; rejected := []; passedOver := [] |}
                 (forEach (rounds batchLimit replies)
                    (fun batch => forEach batch (replyStep this))) ;;
  ret {| rp_results := done out;
         rp_failed := rejected out;
         rp_skipped := passedOver out;
         rp_batchStatus := statusOf (List.length (rejected out))
                             (List.length (done out)) |}.

(** ** runMetaAds *)

Record RunMetaAdsResult := {
  ads_campaignId : jsstring;
  ads_adSetId : jsstring;
  ads_adId : jsstring;
  ads_status : Meta.AdStatus;
  ads_error : option jsstring
}.

(** [{ campaignId: "", adSetId: "", adId: "", status: "PAUSED", error }] *)
Definition adsFailure (error : jsstring) : RunMetaAdsResult :=
  {| ads_campaignId := []; ads_adSetId := []; ads_adId := [];
     ads_status := Meta.PAUSED; ads_error := Some error |}.

(** [runMetaAds(params)] *)
Definition runMetaAds (this : SocialPostingClient) (params : Meta.AdParams)
  : M RunMetaAdsResult :=
  match meta (config this) with
  | Some metaConfig =>
      if nonempty (pageAccessToken metaConfig) && nonempty (pageId metaConfig) then
        if truthy (trimOpt (adAccountId metaConfig)) then
          tryCatch
            (result <- Meta.runMetaAds metaConfig params ;;
             ret {| ads_campaignId := Meta.campaignId result;
                    ads_adSetId := Meta.adSetId result;
                    ads_adId := Meta.adId result;
                    ads_status := Meta.adStatus result;
                    ads_error := None |})
            (fun err => ret (adsFailure (errorMessage err)))
        else ret (adsFailure (lit "Meta adAccountId is required for runMetaAds"))
      else ret (adsFailure (lit "Meta config missing (pageAccessToken, pageId)"))
  | None => ret (adsFailure (lit "Meta config missing (pageAccessToken, pageId)"))
  end.

(** ** deletePost *)

Record DeletePostResult := { success : bool; del_error : option jsstring }.

Definition deleted : DeletePostResult := {| success := true; del_error := None |}.

Definition notDeleted (error : jsstring) : DeletePostResult :=
  {| success := false; del_error := Some error |}.

(** [deletePost({ channel, postId })]. Each [if (channel === ...)] block
    either returns ([Some]) or falls through to the next ([None]). *)
Definition deletePost (this : SocialPostingClient) (channel : PlatformCode)
           (postId : jsstring) : M DeletePostResult :=
  tryCatch
    (onFacebook <-
       match channel with
       | f =>
           match meta (config this) with
           | Some metaConfig =>
               if nonempty (pageAccessToken metaConfig) then
                 Meta.deletePost metaConfig postId ;; ret (Some deleted)
               else ret (Some (notDeleted (lit "Meta config missing")))
           | None => ret (Some (notDeleted (lit "Meta config missing")))
           end
       | _ => ret None
       end ;;
     match onFacebook with
     | Some answer => ret answer
     | None =>
         onInstagram <-
           match channel with
           | i =>
               tryCatch
                 (Instagram.deletePost (meta (config this)) postId ;; ret None)
                 (fun e => ret (Some (notDeleted (errorMessage e))))
           | _ => ret None
           end ;;
         match onInstagram with
         | Some answer => ret answer
         | None =>
             match channel with
             | l =>
                 match linkedin (config this) with
                 | Some linkedInConfig =>
                     if nonempty (li_accessToken linkedInConfig) then
                       LinkedIn.deletePost linkedInConfig postId ;; ret deleted
                     else ret (notDeleted (lit "LinkedIn config missing"))
                 | None => ret (notDeleted (lit "LinkedIn config missing"))
                 end
             | t =>
                 match threads (config this) with
                 | Some threadsConfig =>
                     if nonempty (th_accessToken threadsConfig) then
                       Threads.deletePost threadsConfig postId ;; ret deleted
                     else ret (notDeleted (lit "Threads config missing"))
                 | None => ret (notDeleted (lit "Threads config missing"))
                 end
             | _ => ret (notDeleted (lit "Unknown channel"))
             end
         end
     end)
    (fun err => ret (notDeleted (errorMessage err))).

(** ** getRecentPosts *)

(** A timestamp: the vendor's text, or what [new Date(ms).toISOString()]
    writes for the clock reading [ms]. *)
Inductive Stamp :=
| AsGiven (s : jsstring)
| IsoOf (ms : Z).

Record Comment := {
  cm_id : option jsstring;
  cm_text : jsstring;
  cm_authorName : option jsstring;
  cm_timestamp : option Stamp;
  cm_replyCount : option Z
}.

Record PostWithComments := {
  pw_code : PlatformCode;
  pw_platform : jsstring;
  pw_postId : option jsstring;
  pw_text : option jsstring;
  pw_timestamp : option Stamp;
  pw_permalink : option jsstring;
  pw_mediaType : option jsstring;
  pw_comments : option (list Comment)
}.

Record ChannelError := {
  ce_platform : jsstring;
  ce_code : PlatformCode;
  ce_error : jsstring
}.

Record GetRecentPostsParams := {
  channels : option (list PlatformCode);
  limitPerChannel : option Z;
  includeComments : option bool;
  commentsLimitPerPost : option Z
}.

Record GetRecentPostsResult := {
  gr_posts : list PostWithComments;
  gr_errors : list ChannelError
}.

(** The two arrays that the channel loop pushes to. *)
Record Recent := {
  found : list PostWithComments;
  problems : list ChannelError
}.

Definition pushPost (post : PostWithComments) (r : Recent) : Recent :=
  {| found := found r ++ [post]; problems := problems r |}.

Definition pushError (label : jsstring) (code : PlatformCode) (error : jsstring)
           (r : Recent) : Recent :=
  {| found := found r;
     problems := problems r ++ [{| ce_platform := label; ce_code := code;
                                   ce_error := error |}] |}.

(** What a template literal writes for an id. *)
Definition idText (id : option jsstring) : jsstring := orElse id (lit "undefined").

(** [v != null ? new Date(v).toISOString() : undefined]; the conversion
    raises a RangeError outside the range of dates. *)
Definition isoOf (createdAt : option Z) : M (option Stamp) :=
  match createdAt with
  | None => ret None
  | Some ms =>
      if (Z.abs ms <=? 8640000000000000)%Z then ret (Some (IsoOf ms))
      else throw (PlainError (lit "Invalid time value"))
  end.

(** [raw.map((c) => ({ id: c.id, ... }))] over the raw comments of a reply. *)
Fixpoint readComments (read : Json -> Comment) (raw : list Json) : M (list Comment) :=
  match raw with
  | [] => ret []
  | JNull :: _ => throw (nullRead "id")
  | c :: rest =>
      comments <- readComments read rest ;;
      ret (read c :: comments)
  end.

Definition facebookComment (c : Json) : Comment :=
  {| cm_id := stringProp c (lit "id");
     cm_text := orElse (stringProp c (lit "message")) [];
     cm_authorName := match prop c (lit "from") with
                      | Some from => stringProp from (lit "name")
                      | None => None
                      end;
     cm_timestamp := option_map AsGiven (stringProp c (lit "created_time"));
     cm_replyCount := None |}.

Definition instagramComment (c : Json) : Comment :=
  {| cm_id := stringProp c (lit "id");
     cm_text := orElse (stringProp c (lit "text")) [];
     cm_authorName := stringProp c (lit "username");
     cm_timestamp := option_map AsGiven (stringProp c (lit "timestamp"));
     cm_replyCount := numProp c (lit "like_count") |}.

Definition threadsComment (c : Json) : Comment :=
  {| cm_id := stringProp c (lit "id");
     cm_text := orElse (stringProp c (lit "text")) [];
     cm_authorName := stringProp c (lit "username");
     cm_timestamp := option_map AsGiven (stringProp c (lit "timestamp"));
     cm_replyCount := None |}.

Fixpoint linkedInComments (raw : list LinkedIn.LinkedInComment) : M (list Comment) :=
  match raw with
  | [] => ret []
  | c :: rest =>
      stamp <- isoOf (LinkedIn.lc_createdAt c) ;;
      comments <- linkedInComments rest ;;
      ret ({| cm_id := LinkedIn.lc_id c;
              cm_text := orElse (LinkedIn.lc_message c) [];
              cm_authorName := LinkedIn.actor c;
              cm_timestamp := stamp;
              cm_replyCount := None |} :: comments)
  end.

(** The comments of one post: absent unless they were asked for. *)
Definition commentsWhen (includeComments : bool) (fetchComments : M (list Comment))
  : M (option (list Comment)) :=
  if includeComments then comments <- fetchComments ;; ret (Some comments)
  else ret None.

(** [try { comments = ... } catch { comments = [] }] *)
Definition orNoComments (fetchComments : M (list Comment)) : M (list Comment) :=
  tryCatch fetchComments (fun _ => ret []).

(** The body of [for (const code of channels)]. *)
Definition recentStep (this : SocialPostingClient) (limitPerChannel : Z)
           (includeComments : bool) (commentsLimitPerPost : Z) (code : PlatformCode)
  : Proc Recent unit :=
  let label := CODE_TO_PLATFORM_LABEL code in
  tryCatch
    (match code with
     | f =>
         match meta (config this) with
         | Some metaConfig =>
             if nonempty (pageAccessToken metaConfig) && nonempty (pageId metaConfig)
             then
               raw <- lift (Meta.getPageRecentPosts metaConfig limitPerChannel) ;;
               forEach raw
                 (fun p =>
                    match p with
                    | JNull => throw (nullRead "id")
                    | _ =>
                        let postId := stringProp p (lit "id") in
                        comments <-
                          lift (commentsWhen includeComments
                                  (rawComments <-
                                     Meta.getPostComments metaConfig (idText postId)
                                       commentsLimitPerPost ;;
                                   readComments facebookComment rawComments)) ;;
                        modify (pushPost
                                  {| pw_code := code; pw_platform := label;
                                     pw_postId := postId;
                                     pw_text := stringProp p (lit "message");
                                     pw_timestamp :=
                                       option_map AsGiven
                                         (stringProp p (lit "created_time"));
                                     pw_permalink := stringProp p (lit "permalink_url");
                                     pw_mediaType := None;
                                     pw_comments := comments |})
                    end)
             else modify (pushError label code (lit "Meta config missing"))
         | None => modify (pushError label code (lit "Meta config missing"))
         end
     | i =>
         match meta (config this) with
         | Some metaConfig =>
             if nonempty (pageAccessToken metaConfig)
                && truthy (instagramBusinessAccountId metaConfig)
             then
               raw <- lift (Instagram.getUserMedia metaConfig limitPerChannel) ;;
               forEach raw
                 (fun p =>
                    match p with
                    | JNull => throw (nullRead "id")
                    | _ =>
                        comments <-
                          lift (commentsWhen includeComments
                                  (rawComments <-
                                     Instagram.getMediaComments metaConfig
                                       (idText (stringProp p (lit "id")))
                                       commentsLimitPerPost ;;
                                   readComments instagramComment rawComments)) ;;
                        modify (pushPost
                                  {| pw_code := code; pw_platform := label;
                                     pw_postId := stringProp p (lit "id");
                                     pw_text := stringProp p (lit "caption");
                                     pw_timestamp :=
                                       option_map AsGiven (stringProp p (lit "timestamp"));
                                     pw_permalink := stringProp p (lit "permalink");
                                     pw_mediaType := stringProp p (lit "media_type");
                                     pw_comments := comments |})
                    end)
             else modify (pushError label code (lit "Meta Instagram config missing"))
         | None => modify (pushError label code (lit "Meta Instagram config missing"))
         end
     | l =>
         match linkedin (config this) with
         | Some linkedInConfig =>
             if nonempty (li_accessToken linkedInConfig) then
               raw <- lift (LinkedIn.getRecentPosts linkedInConfig limitPerChannel) ;;
               forEach raw
                 (fun p =>
                    comments <-
                      lift (commentsWhen includeComments
                              (orNoComments
                                 (rawComments <-
                                    LinkedIn.getPostComments linkedInConfig
                                      (idText (LinkedIn.lp_id p)) commentsLimitPerPost ;;
                                  linkedInComments rawComments))) ;;
                    stamp <- lift (isoOf (LinkedIn.lp_createdAt p)) ;;
                    modify (pushPost
                              {| pw_code := code; pw_platform := label;
                                 pw_postId := LinkedIn.lp_id p;
                                 pw_text := LinkedIn.commentary p;
                                 pw_timestamp := stamp;
                                 pw_permalink := LinkedIn.lp_permalink p;
                                 pw_mediaType := None;
                                 pw_comments := comments |}))
             else modify (pushError label code (lit "LinkedIn config missing"))
         | None => modify (pushError label code (lit "LinkedIn config missing"))
         end
     | t =>
         match threads (config this) with
         | Some threadsConfig =>
             if nonempty (userId threadsConfig) && nonempty (th_accessToken threadsConfig)
             then
               raw <- lift (Threads.getUserThreads threadsConfig limitPerChannel) ;;
               forEach raw
                 (fun p =>
                    match p with
                    | JNull => throw (nullRead "id")
                    | _ =>
                        comments <-
                          lift (commentsWhen includeComments
                                  (orNoComments
                                     (rawReplies <-
                                        Threads.getRepliesForPost threadsConfig
                                          (idText (stringProp p (lit "id")))
                                          commentsLimitPerPost ;;
                                      readComments threadsComment rawReplies))) ;;
                        modify (pushPost
                                  {| pw_code := code; pw_platform := label;
                                     pw_postId := stringProp p (lit "id");
                                     pw_text := stringProp p (lit "text");
                                     pw_timestamp :=
                                       option_map AsGiven (stringProp p (lit "timestamp"));
                                     pw_permalink := stringProp p (lit "permalink");
                                     pw_mediaType := stringProp p (lit "media_type");
                                     pw_comments := comments |})
                    end)
             else modify (pushError label code (lit "Threads config missing"))
         | None => modify (pushError label code (lit "Threads config missing"))
         end
     end)
    (fun err => modify (pushError label code (errorMessage err))).

(** [getRecentPosts(params)] *)
Definition getRecentPosts (this : SocialPostingClient) (params : GetRecentPostsParams)
  : M GetRecentPostsResult :=
  let limitPerChannel := Z.min 100 (Z.max 1 (orElse (limitPerChannel params) 5%Z)) in
  let includeComments := orElse (includeComments params) false in
  let commentsLimitPerPost :=
    Z.min 100 (Z.max 1 (orElse (commentsLimitPerPost params) 20%Z)) in
  '(_, out) <- withLocals {| found := []; problems := [] |}
                 (forEach (orElse (channels params) [])
                    (recentStep this limitPerChannel includeComments
                       commentsLimitPerPost)) ;;
  ret {| gr_posts := found out; gr_errors := problems out |}.

End Client.

(* ================================================================== *)
(** * Scenarios: configurations and scripted networks                   *)
(* ================================================================== *)

Module Scenario.

(** [JSON.stringify] for values whose strings need no escaping. *)
Fixpoint stringify (j : Json) : jsstring :=
  match j with
  | JNull => lit "null"
  | JBool b => if b then lit "true" else lit "false"
  | JNum z => Meta.ofZ z
  | JStr s => [34%N] ++ s ++ [34%N]
  | JArr items => lit "[" ++ join (lit ",") (map stringify items) ++ lit "]"
  | JObj members =>
      lit "{"
      ++ join (lit ",")
           (map (fun m => [34%N] ++ fst m ++ [34%N] ++ lit ":" ++ stringify (snd m))
                members)
      ++ lit "}"
  end.

(** A string member of an object. *)
Definition member (name value : string) : jsstring * Json :=
  (lit name, JStr (lit value)).
Arguments member (name value)%_string.

(** A reply with status [code] and the JSON body [j], after [ms]. *)
Definition answers (ms code : N) (j : Json) : Reply :=
  HttpReply ms {| status := code;
                  body := {| text := stringify j; parsed := Some j |};
                  headers := [] |}.

Definition unreachable : Reply := NetworkFailure 0 (PlainError (lit "fetch failed")).

(** A world that starts at time [1000] and gives the scripted replies, the
    network being unreachable after them. *)
Definition scripted (replies : list Reply) : World :=
  {| now := 1000; net := fun k => nth k replies unreachable; served := 0;
     trace := [] |}.

Definition metaConfig : MetaConfig :=
  {| pageAccessToken := lit "page-token"; pageId := lit "1001";
     instagramBusinessAccountId := Some (lit "17841400000000000");
     adAccountId := Some (lit "act_42") |}.

Definition threadsConfig : ThreadsConfig :=
  {| userId := lit "2002"; th_accessToken := lit "threads-token" |}.

Definition linkedInConfig : LinkedInConfig :=
  {| li_accessToken := lit "linkedin-token";
     personUrn := Some (lit "urn:li:person:abc");
     organizationUrn := None |}.

Definition allConfigured : SocialPostingConfig :=
  {| meta := Some metaConfig; linkedin := Some linkedInConfig;
     threads := Some threadsConfig |}.

Definition imageUrl : jsstring := lit "https://example.com/picture.png".

(** The container is created; it is seen PENDING twice, then FINISHED; the
    publish call returns the media id; the permalink is looked up. *)
Definition finishesOnThirdPoll : World :=
  scripted [answers 120 200 (JObj [member "id" "container-1"]);
            answers 80 200 (JObj [member "status_code" "PENDING"]);
            answers 80 200 (JObj [member "status_code" "PENDING"]);
            answers 80 200 (JObj [member "status_code" "FINISHED"]);
            answers 150 200 (JObj [member "id" "media-9"]);
            answers 60 200 (JObj [member "permalink" "https://www.instagram.com/p/abc/"])].

(** The container is created; it is seen PENDING, then ERROR. *)
Definition failsOnSecondPoll : World :=
  scripted [answers 120 200 (JObj [member "id" "container-1"]);
            answers 80 200 (JObj [member "status_code" "PENDING"]);
            answers 80 200 (JObj [member "status_code" "ERROR"])].

(** Threads with an image: the container is created, the publish call
returns the id of the published thread, the permalink is looked up. *)
Definition threadsPublishes : World :=
scripted [answers 100 200 (JObj [member "id" "container-7"]);
          answers 100 200 (JObj [member "id" "thread-8"]);
          answers 60 200 (JObj [member "permalink" "https://www.threads.net/t/xyz"])].

(** The same, but the publish call answers 200 with an empty object. *)
Definition threadsPublishWithoutId : World :=
scripted [answers 100 200 (JObj [member "id" "container-7"]);
          answers 100 200 (JObj []);
          answers 60 200 (JObj [member "permalink" "https://www.threads.net/t/xyz"])].

Definition threadsImagePost : Threads.ThreadsPostParams :=
{| Threads.content := lit "hello"; Threads.imageUrl := Some imageUrl;
   Threads.altText := None; Threads.linkAttachment := None |}.

Definition noOptions : Client.SocialPostingClientOptions :=
{| Client.uploadImage := None; Client.contentAdapter := None;
   Client.o_contentSuffix := None; Client.progress := None |}.

(** A client with every provider configured and no options. *)
Definition plainClient : Client.SocialPostingClient :=
{| Client.config := allConfigured; Client.options := noOptions |}.

(** [{ countries: ["US"] }] *)
Definition inTheUS : Meta.Targeting :=
{| Meta.ageMin := None; Meta.ageMax := None; Meta.genders := None;
   Meta.countries := Some [lit "US"]; Meta.regions := None; Meta.cities := None;
   Meta.zips := None; Meta.customLocations := None; Meta.interests := None;
   Meta.behaviors := None; Meta.publisherPlatforms := None |}.

Definition adParams : Meta.AdParams :=
{| Meta.ad_content := lit "Ad copy"; Meta.ad_imageUrl := imageUrl;
   Meta.ad_targeting := inTheUS;
   Meta.ad_dailyBudget := 500;
   Meta.ad_campaignName := Some (lit "Spring");
   Meta.ad_adSetName := None;
   Meta.startImmediately := Some true |}.

(** The image is uploaded and the campaign is created; the vendor rejects
the ad set. *)
Definition adSetRejected : World :=
scripted [answers 200 200
            (JObj [(lit "images",
                     JObj [(lit "picture.png", JObj [member "hash" "h-123"])])]);
          answers 150 200 (JObj [member "id" "campaign-1"]);
          answers 150 400
            (JObj [(lit "error", JObj [member "message" "Invalid targeting"])])].

(** The same ad, aimed at a list of cities whose one entry is [null]. *)
Definition cityAdParams : Meta.AdParams :=
{| Meta.ad_content := lit "Ad copy"; Meta.ad_imageUrl := imageUrl;
   Meta.ad_targeting :=
     {| Meta.ageMin := None; Meta.ageMax := None; Meta.genders := None;
        Meta.countries := None; Meta.regions := None; Meta.cities := Some [JNull];
        Meta.zips := None; Meta.customLocations := None; Meta.interests := None;
        Meta.behaviors := None; Meta.publisherPlatforms := None |};
   Meta.ad_dailyBudget := 500;
   Meta.ad_campaignName := Some (lit "Spring");
   Meta.ad_adSetName := None;
   Meta.startImmediately := Some true |}.

(** The vendor accepts every stage of the pipeline. *)
Definition adsAccepted : World :=
scripted [answers 200 200
            (JObj [(lit "images",
                     JObj [(lit "picture.png", JObj [member "hash" "h-123"])])]);
          answers 150 200 (JObj [member "id" "campaign-1"]);
          answers 150 200 (JObj [member "id" "adset-1"]);
          answers 150 200 (JObj [member "id" "creative-1"]);
          answers 150 200 (JObj [member "id" "ad-1"])].

(** A text post with the defaults of every optional parameter. *)
Definition textPost (platforms : list PlatformCode) (text : jsstring)
  : Client.CrossPostParams :=
{| Client.postOn := platforms; Client.content := text;
   Client.imageUrl := None; Client.imageBuffer := None; Client.hashtags := None;
   Client.platformContent := fun _ => None; Client.contentSuffix := None;
   Client.targeting := None; Client.createAd := None; Client.dailyBudget := None;
   Client.campaignName := None; Client.adSetName := None;
   Client.threadsUserId := None; Client.threadsAccessToken := None;
   Client.altText := None; Client.linkAttachment := None;
   Client.retries := None; Client.retryDelayMs := None;
   Client.linkedinPostAs := None |}.

(** The same post with image bytes and no image URL. *)
Definition bufferPost (platforms : list PlatformCode) (text : jsstring)
  : Client.CrossPostParams :=
{| Client.postOn := platforms; Client.content := text;
   Client.imageUrl := None; Client.imageBuffer := Some [137; 80; 78; 71]%N;
   Client.hashtags := None;
   Client.platformContent := fun _ => None; Client.contentSuffix := None;
   Client.targeting := None; Client.createAd := None; Client.dailyBudget := None;
   Client.campaignName := None; Client.adSetName := None;
   Client.threadsUserId := None; Client.threadsAccessToken := None;
   Client.altText := None; Client.linkAttachment := None;
   Client.retries := None; Client.retryDelayMs := None;
   Client.linkedinPostAs := None |}.

(** Facebook rejects a deletion, in the words of the Instagram adapter. *)
Definition deletionRejected : World :=
scripted [answers 90 400
            (JObj [(lit "error",
                     JObj [member "message"
                             "Instagram does not support deleting posts via API"])])].

(** A progress-done hook that persists successful outcomes, and fails to. *)
Definition failingStore (label : jsstring) (code : PlatformCode)
           (pr : Client.PlatformResult) : Closure unit :=
fun _ => if truthy (Client.pr_postId pr)
         then Throws (PlainError (lit "database unavailable"))
         else Returns tt.

Definition storingClient : Client.SocialPostingClient :=
{| Client.config := allConfigured;
   Client.options :=
     {| Client.uploadImage := None; Client.contentAdapter := None;
        Client.o_contentSuffix := None;
        Client.progress :=
          Some {| Client.onPlatformStart := None;
                  Client.onPlatformDone := Some failingStore |} |} |}.

(** Threads publishes a text post as thread 123; the permalink is looked up. *)
Definition threadsTextPublished : World :=
scripted [answers 100 200 (JObj [member "id" "123"]);
          answers 60 200 (JObj [member "permalink" "https://www.threads.net/t/123"])].

(** A text of 501 code units. *)
Definition longText : jsstring := repeat 97%N 501.

(** LinkedIn accepts a comment and names it in the [x-restli-id] header. *)
Definition commentAccepted : World :=
scripted [HttpReply 100 {| status := 201;
                           body := {| text := []; parsed := None |};
                           headers := [(lit "x-restli-id", lit "7001")] |}].

(** A reply on LinkedIn that names the post and no comment. *)
Definition replyWithoutComment : Client.ReplyRequest :=
{| Client.channel := l; Client.message := lit "Thanks!";
   Client.commentId := None; Client.rq_postId := Some (lit "urn:li:share:1") |}.

(** What a run returned, [default] standing for a run that did not return. *)
Definition returned {A} (default : A) (r : Result A) : A :=
match r with
| Ok a => a
| _ => default
end.

Definition noBatch : Client.CrossPostResult :=
{| Client.platformResults := []; Client.failed := [];
   Client.batchStatus := Client.StatusFull; Client.maxAttempt := None |}.

(** A client without credentials. *)
Definition bareClient : Client.SocialPostingClient :=
{| Client.config := {| meta := None; linkedin := None; threads := None |};
   Client.options := noOptions |}.

Definition recentOn (codes : list PlatformCode) : Client.GetRecentPostsParams :=
{| Client.channels := Some codes; Client.limitPerChannel := None;
   Client.includeComments := Some true; Client.commentsLimitPerPost := None |}.

(** A photo post on the page, with an ad asked for. *)
Definition photoPost (withAd : bool) : Meta.MetaPostParams :=
{| Meta.content := lit "hello"; Meta.imageUrl := imageUrl;
   Meta.targeting := Some (Meta.ad_targeting adParams);
   Meta.createAd := Some withAd; Meta.dailyBudget := Some 500%Z;
   Meta.campaignName := None; Meta.adSetName := None |}.

(** The photo is published as post 555 and its permalink is found; the
    vendor rejects the image of the ad. *)
Definition photoPublished : World :=
scripted [answers 150 200 (JObj [member "id" "555"]);
          answers 60 200 (JObj [member "permalink_url" "https://www.facebook.com/1001/posts/555"]);
          answers 90 400 (JObj [(lit "error", JObj [member "message" "Invalid image"])])].

(** [/feed] is refused in the words of a missing permission; [/published_posts]
    lists one post. *)
Definition feedRefused : World :=
scripted [answers 90 400
            (JObj [(lit "error",
                     JObj [member "message" "(#100) Unsupported get request"])]);
          answers 90 200 (JObj [(lit "data", JArr [JObj [member "id" "1001_7"]])])].

(** Two posts are listed; every later request fails. *)
Definition twoListed : World :=
scripted [answers 100 200
            (JObj [(lit "data",
                     JArr [JObj [member "id" "11"; member "text" "first"];
                           JObj [member "id" "12"]])])].

(** One post is listed; the lookup of its comments is refused. *)
Definition commentsRefused : World :=
scripted [answers 100 200 (JObj [(lit "data", JArr [JObj [member "id" "1001_7"]])]);
          answers 90 400 (JObj [(lit "error", JObj [member "message" "No permission"])])].

(** The upload is registered; the image is not found at its URL. *)
Definition imageNotFound : World :=
scripted [answers 100 200
            (JObj [(lit "value",
                     JObj [member "asset" "urn:li:digitalmediaAsset:1";
                           (lit "uploadMechanism",
                             JObj [(lit "com.linkedin.digitalmedia.uploading.MediaUploadHttpRequest",
                                     JObj [member "uploadUrl" "https://upload.example.com/1"])])])]);
          answers 40 404 (JObj [])].

(** A LinkedIn configuration whose person URN is blank. *)
Definition blankPerson : LinkedInConfig :=
{| li_accessToken := lit "linkedin-token";
   personUrn := Some (lit "  ");
   organizationUrn := Some (lit "urn:li:organization:5") |}.

(** The vendor does not know the post. *)
Definition postNotFound : World :=
scripted [answers 50 404
            (JObj [(lit "error", JObj [member "message" "Object does not exist"])])].

End Scenario.


(* ================================================================== *)
(** * Observations on traces                                            *)
(* ================================================================== *)

(** How many times the closure [callee] was called in a trace. *)
Fixpoint invocations (callee : string) (tr : list Event) : nat :=
  match tr with
  | [] => 0
  | EvCall c :: r => (if String.eqb c callee then 1 else 0) + invocations callee r
  | _ :: r => invocations callee r
  end.

(** The requests of a trace, in order. *)
Fixpoint requests (tr : list Event) : list Request :=
  match tr with
  | [] => []
  | EvFetch q _ :: r => q :: requests r
  | _ :: r => requests r
  end.

(** The world in which a retried operation is called again: the failed call
    is on the trace and the fixed delay has passed. *)
Definition afterRetry (callee : string) (delayMs : N) (w : World) : World :=
  advance delayMs (record (EvSleep delayMs) (record (EvCall callee) w)).

Definition attemptWorld (callee : string) (delayMs : N) (j : nat) (w : World) : World :=
  Nat.iter j (afterRetry callee delayMs) w.

(** What the adapters read off a reply that they accept: the parsed body of
    a 2xx response ([{}] for an empty body). *)
Definition accepted (reply : Reply) : option Json :=
  match reply with
  | HttpReply _ r =>
      if ok r then
        if nonempty (text (body r)) then parsed (body r) else Some (JObj [])
      else None
  | NetworkFailure _ _ => None
  end.

(** The string member [name] of an accepted reply. *)
Definition field (name : string) (reply : Reply) : option jsstring :=
  match accepted reply with
  | Some j => Request.stringProp j (lit name)
  | None => None
  end.

(** The requests that a run from [w] to [w'] added. *)
Definition newRequests (w w' : World) : list Request :=
  skipn (List.length (requests (trace w))) (requests (trace w')).

Definition replyText (reply : Reply) : jsstring :=
  match reply with
  | HttpReply _ r => text (body r)
  | NetworkFailure _ _ => []
  end.

Definition waited (creationId token : jsstring) (w : World) : World :=
  advance Instagram.POLL_INTERVAL_MS
    (record (EvSleep Instagram.POLL_INTERVAL_MS)
       (exchange (Instagram.statusRequest creationId token) w)).

(** The trace only grows. *)
Definition extends (w w' : World) : Prop := exists evs, trace w' = trace w ++ evs.

(** The image hash that the upload stage reads off a reply. *)
Definition hashOf (reply : Reply) : option jsstring :=
  match accepted reply with
  | Some data => present (Meta.firstImageHash data)
  | None => None
  end.

(** The five edges of the ad account that the pipeline posts to, in order. *)
Definition stageUrls (accountId : jsstring) : list jsstring :=
  map (Meta.edgeUrl accountId)
      ["adimages"; "campaigns"; "adsets"; "adcreatives"; "ads"]%string.

(** What stage [k] of the pipeline, started in [w], reads off its reply: the
    image hash for the upload, the [id] of the resource for the others. *)
Definition stageYield (w : World) (k : nat) : option jsstring :=
  match k with
  | O => hashOf (net w (served w))
  | S _ => present (field "id" (net w (served w + k)))
  end.

(** [m], when it returns, returns a value that satisfies [R]. *)
Definition ensures {A} (m : M A) (R : A -> Prop) : Prop :=
  forall w a w', m w = (Ok a, w') -> R a.

(** [m] always returns. *)
Definition total {A} (m : M A) : Prop :=
  forall w, exists a w', m w = (Ok a, w').

(** [m] returns or throws in every state: it never exhausts its fuel. *)
Definition halts {W A} (m : St W A) : Prop := forall w, fst (m w) <> Hang.

(** Started with the locals [s], in any world, [p] ends with locals that
    satisfy [Q] when it returns and [E] when it throws. *)
Definition wp {S A} (p : Proc S A) (Q : A -> S -> Prop) (E : S -> Prop) (s : S) : Prop :=
  forall w,
    match p (s, w) with
    | (Ok a, (s', _)) => Q a s'
    | (Throw _, (s', _)) => E s'
    | (Hang, _) => True
    end.

Definition hasError (pr : Client.PlatformResult) : bool :=
  match Client.pr_error pr with Some _ => true | None => false end.

(** The status, from the outcome list alone. *)
Definition deriveStatus (rs : list Client.PlatformResult) : Client.BatchStatus :=
  Client.statusOf (List.length (filter hasError rs)) (Client.completedCount rs).

(** Every entry of [failed] goes with an outcome that has an error. *)
Definition failuresMatch (b : Client.Batch) : Prop :=
  List.length (Client.failures b) = List.length (filter hasError (Client.results b)).

(** An outcome for Threads whose text is over the limit has an error and no
    post id. *)
Definition overLimitIsRefused (pr : Client.PlatformResult) : Prop :=
  Client.pr_code pr = t ->
  forall c, Client.pr_content pr = Some c ->
            (Threads.THREADS_TEXT_MAX_LENGTH < List.length (trim c))%nat ->
            Client.pr_error pr <> None /\ Client.pr_postId pr = None.

(** The batch [b'] is [b] with one more outcome, for [code]. *)
Definition appended (code : PlatformCode) (b b' : Client.Batch) : Prop :=
  exists pr, Client.results b' = Client.results b ++ [pr] /\ Client.pr_code pr = code.

(** The credentials and the identifier that [replyToComments] checks before
    it attempts a reply. *)
Definition attemptable (this : Client.SocialPostingClient) (req : Client.ReplyRequest)
  : bool :=
  match Client.channel req with
  | f | i =>
      match meta (Client.config this) with
      | Some metaConfig => nonempty (pageAccessToken metaConfig)
      | None => false
      end && truthy (Client.commentId req)
  | l =>
      match linkedin (Client.config this) with
      | Some linkedInConfig => nonempty (li_accessToken linkedInConfig)
      | None => false
      end && truthy (Client.rq_postId req)
  | t =>
      match threads (Client.config this) with
      | Some threadsConfig =>
          nonempty (userId threadsConfig) && nonempty (th_accessToken threadsConfig)
      | None => false
      end && truthy (Client.rq_postId req)
  end.

(* ================================================================== *)
(** * Observations on texts, outcomes and runs                          *)
(* ================================================================== *)

(** A string with no white space at either end. *)
Definition trimmed (s : jsstring) : Prop :=
  match s with
  | [] => True
  | c :: _ => is_space c = false /\ is_space (last s 0%N) = false
  end.

(** A text as [sanitizeContent] leaves it: no replacement character, no
    carriage return, no white space at either end. *)
Definition cleanText (s : jsstring) : Prop :=
  Forall (fun c => c <> 65533%N /\ c <> 13%N) s /\ trimmed s.

(** An outcome that records a clean text. *)
Definition sanitized (pr : Client.PlatformResult) : Prop :=
  exists c, Client.pr_content pr = Some c /\ cleanText c.

(** An outcome is a success or a failure, never both and never neither. *)
Definition wellFormed (pr : Client.PlatformResult) : Prop :=
  match Client.pr_error pr with
  | Some _ =>
      Client.pr_postId pr = None /\ Client.pr_permalink pr = None
      /\ Client.pr_postedAt pr = None /\ Client.pr_attempt pr = None
  | None =>
      truthy (Client.pr_postId pr) = true
      /\ Client.pr_postedAt pr <> None /\ Client.pr_attempt pr <> None
  end.

(** An outcome that records a failure. *)
Definition failure (pr : Client.PlatformResult) : Prop :=
  Client.pr_postId pr = None /\ Client.pr_error pr <> None.

(** [m] makes no request. *)
Definition silent {A} (m : M A) : Prop :=
  forall w, requests (trace (snd (m w))) = requests (trace w).

(** [p] makes no request and keeps [Inv] on its locals, whether it returns
    or throws. *)
Definition quiet {S A} (Inv : S -> Prop) (p : Proc S A) : Prop :=
  forall s w, Inv s ->
    requests (trace (snd (snd (p (s, w))))) = requests (trace w)
    /\ Inv (fst (snd (p (s, w)))).

(** The requests made so far are never taken back. *)
Definition grows {A} (m : M A) : Prop :=
  forall w, exists made, requests (trace (snd (m w))) = requests (trace w) ++ made.

(** The [n]-th reply from [w] on is a 2xx response. *)
Definition answeredOk (w : World) (n : nat) : Prop :=
  exists ms r, net w (served w + n)%nat = HttpReply ms r /\ ok r = true.

(** What a reader finds in a reply: the [data] of a body that it accepts. *)
Definition listing (reply : Reply) : option (list Json) :=
  match accepted reply with
  | Some JNull | None => None
  | Some data => Some (itemsOf data "data")
  end.

(** A member that the vendor declares as a string: a string, [null], or
    absent. *)
Definition textOrNothing (v : option Json) : bool :=
  match v with
  | None | Some JNull | Some (JStr _) => true
  | Some _ => false
  end.

(** A member that the vendor declares as an array: an array, [null], or
    absent. *)
Definition arrayOrNothing (v : option Json) : bool :=
  match v with
  | None | Some JNull | Some (JArr _) => true
  | Some _ => false
  end.

(** The [images] member of an upload reply as the vendor declares it: a
    record of images, each an object whose [hash] is a string when it has
    one; or [null], or absent. *)
Definition imagesOrNothing (v : option Json) : bool :=
  match v with
  | None | Some JNull => true
  | Some (JObj images) =>
      forallb (fun image => match snd image with
                            | JObj members => textOrNothing (Request.lookup (lit "hash") members)
                            | _ => false
                            end) images
  | Some _ => false
  end.

(** A reply is as the vendors declare it when the body that the adapters
    accept, if any, is not [null] and holds the members that they read at
    the declared types: [id], [post_id], [permalink], [permalink_url] and
    [status_code] as strings, [images] as a record of images and [data] as
    an array. Replies that are not accepted are not constrained. *)
Definition asDeclared (reply : Reply) : bool :=
  match accepted reply with
  | None => true
  | Some JNull => false
  | Some data =>
      forallb (fun key => textOrNothing (Request.prop data (lit key)))
        ["id"; "post_id"; "permalink"; "permalink_url"; "status_code"]%string
      && imagesOrNothing (Request.prop data (lit "images"))
      && arrayOrNothing (Request.prop data (lit "data"))
  end.

(** Every reply of the network is as the vendors declare it. *)
Definition declaredReplies (w : World) : Prop :=
  forall n, asDeclared (net w n) = true.

(** A listed thread as the vendor declares it: not [null], with [id],
    [text] and [permalink] strings when it has them. *)
Definition threadAsDeclared (p : Json) : bool :=
  match p with
  | JNull => false
  | _ =>
      forallb (fun key => match Request.prop p (lit key) with
                          | None | Some (JStr _) => true
                          | Some _ => false
                          end)
        ["id"; "text"; "permalink"]%string
  end.

(** The checks that [crossPost] makes before it calls the adapter of a
    provider, [image] being the image reference that the call resolved. *)
Definition ready (this : Client.SocialPostingClient) (params : Client.CrossPostParams)
           (image : option jsstring) (code : PlatformCode) : bool :=
  match code with
  | f =>
      match meta (Client.config this) with
      | Some metaConfig =>
          nonempty (pageAccessToken metaConfig) && nonempty (pageId metaConfig)
          && truthy image
      | None => false
      end
  | i =>
      match meta (Client.config this) with
      | Some metaConfig =>
          nonempty (pageAccessToken metaConfig)
          && truthy (instagramBusinessAccountId metaConfig)
          && truthy image
      | None => false
      end
  | l =>
      match linkedin (Client.config this) with
      | Some linkedInConfig =>
          nonempty (li_accessToken linkedInConfig)
          && truthy (match Request.orElse (Client.linkedinPostAs params) Client.AsPerson with
                     | Client.AsOrganization =>
                         LinkedIn.orOpt (trimOpt (organizationUrn linkedInConfig))
                           (trimOpt (personUrn linkedInConfig))
                     | Client.AsPerson =>
                         LinkedIn.orOpt (trimOpt (personUrn linkedInConfig))
                           (trimOpt (organizationUrn linkedInConfig))
                     end)
      | None => false
      end
  | t =>
      truthy (LinkedIn.orOpt (trimOpt (Client.threadsUserId params))
                (option_map (fun c => trim (userId c)) (threads (Client.config this))))
      && truthy (LinkedIn.orOpt (trimOpt (Client.threadsAccessToken params))
                   (option_map (fun c => trim (th_accessToken c))
                      (threads (Client.config this))))
  end.

(** The credentials that [getRecentPosts] asks for before it reads a channel. *)
Definition readable (this : Client.SocialPostingClient) (code : PlatformCode) : bool :=
  match code with
  | f =>
      match meta (Client.config this) with
      | Some metaConfig =>
          nonempty (pageAccessToken metaConfig) && nonempty (pageId metaConfig)
      | None => false
      end
  | i =>
      match meta (Client.config this) with
      | Some metaConfig =>
          nonempty (pageAccessToken metaConfig)
          && truthy (instagramBusinessAccountId metaConfig)
      | None => false
      end
  | l =>
      match linkedin (Client.config this) with
      | Some linkedInConfig => nonempty (li_accessToken linkedInConfig)
      | None => false
      end
  | t =>
      match threads (Client.config this) with
      | Some threadsConfig =>
          nonempty (userId threadsConfig) && nonempty (th_accessToken threadsConfig)
      | None => false
      end
  end.

(** What is reported for a channel without credentials. *)
Definition missingConfig (code : PlatformCode) : Client.ChannelError :=
  {| Client.ce_platform := Utils.CODE_TO_PLATFORM_LABEL code;
     Client.ce_code := code;
     Client.ce_error := match code with
                        | f => lit "Meta config missing"
                        | i => lit "Meta Instagram config missing"
                        | l => lit "LinkedIn config missing"
                        | t => lit "Threads config missing"
                        end |}.

(** The caller named a place: one of the location lists has an entry. *)
Definition located (t : Meta.Targeting) : bool :=
  Meta.filled (Meta.countries t) || Meta.filled (Meta.regions t)
  || Meta.filled (Meta.cities t) || Meta.filled (Meta.zips t)
  || Meta.filled (Meta.customLocations t).

Section Runs.
Import Request Client.

(** A batch that holds failures only. *)
Definition failures_only (b : Batch) : Prop :=
  Forall failure (results b) /\ failuresMatch b.

(** One endpoint of [getPageRecentPosts], read on its own. *)
Definition readPagePosts (config : MetaConfig) (limit : Z) (path : string)
  : M (list Json) :=
  res <- fetchWithTimeout (Meta.pagePostsRequest config limit path) ;;
  throwIfNotOk res (body res) (lit "Meta") ;;
  data <- parseJson (body res) (lit "Meta") ;;
  listOf data "data".

(** What a run of the upload shows: one to three requests in the order
    register, fetch, put, each made after a 2xx reply to the one before. *)
Definition uploads (w : World) (run : Result jsstring * World) : Prop :=
  exists k,
    (1 <= k <= 3)%nat
    /\ map method (newRequests w (snd run)) = firstn k [POST; GET; PUT]
    /\ net (snd run) = net w /\ served (snd run) = (served w + k)%nat
    /\ (forall n, (S n < k)%nat -> answeredOk w n)
    /\ (forall asset, fst run = Ok asset -> k = 3%nat /\ answeredOk w 2).

(** What a run of [postToLinkedIn] with an image shows: at most four
    requests in the order register, fetch, put, post, each made after a 2xx
    reply to the one before; a post that is returned had all four, the last
    one answered 2xx as well. *)
Definition publishesAfterUpload (w : World) (run : Result PostResult * World) : Prop :=
  exists k,
    (k <= 4)%nat
    /\ map method (newRequests w (snd run)) = firstn k [POST; GET; PUT; POST]
    /\ (forall n, (S n < k)%nat -> answeredOk w n)
    /\ (forall res, fst run = Ok res -> k = 4%nat /\ answeredOk w 3).
End Runs.

Section Channels.
Import Request Utils Client.

(** What the loop of [getRecentPosts] may add for the channel [code]:
    posts of that channel, with comments exactly when they were asked for,
    and at most one error. *)
Definition channelPost (code : PlatformCode) (includeComments : bool)
           (p : PostWithComments) : Prop :=
  pw_code p = code /\ pw_platform p = CODE_TO_PLATFORM_LABEL code
  /\ (pw_comments p <> None <-> includeComments = true).

Definition channelError (code : PlatformCode) (e : ChannelError) : Prop :=
  ce_code e = code /\ ce_platform e = CODE_TO_PLATFORM_LABEL code.

Definition channelBlock (includeComments : bool) (code : PlatformCode)
           (block : list PostWithComments * list ChannelError) : Prop :=
  Forall (channelPost code includeComments) (fst block)
  /\ Forall (channelError code) (snd block)
  /\ (List.length (snd block) <= 1)%nat.

(** The posts of one channel so far: nothing but posts of the channel has
    been added, and no error. *)
Definition gathering (code : PlatformCode) (inc : bool) (r r' : Recent) : Prop :=
  exists posts, found r' = found r ++ posts /\ problems r' = problems r
                /\ Forall (channelPost code inc) posts.

Definition added (code : PlatformCode) (inc : bool) (r r' : Recent) : Prop :=
  exists block, found r' = found r ++ fst block /\ problems r' = problems r ++ snd block
                /\ channelBlock inc code block.

(** What [getRecentPosts] keeps of a listed thread. *)
Definition shows (inc : bool) (p : Json) (post : PostWithComments) : Prop :=
  pw_code post = t
  /\ pw_postId post = stringProp p (lit "id")
  /\ pw_text post = stringProp p (lit "text")
  /\ pw_permalink post = stringProp p (lit "permalink")
  /\ (pw_comments post <> None <-> inc = true).
End Channels.

(* ================================================================== *)
(** * Properties: running the monad, the network                        *)
(* ================================================================== *)

Section MonadSteps.
Context {W A B : Type}.
Implicit Types (m : St W A) (k : A -> St W B).

Lemma bind_Ok m k w a w1 : m w = (Ok a, w1) -> bind m k w = k a w1.
Proof. intros H; unfold bind; rewrite H; reflexivity. Qed.

Lemma bind_Throw m k w e w1 : m w = (Throw e, w1) -> bind m k w = (Throw e, w1).
Proof. intros H; unfold bind; rewrite H; reflexivity. Qed.

Lemma bind_inv_Ok m k w b w' :
  bind m k w = (Ok b, w') -> exists a w1, m w = (Ok a, w1) /\ k a w1 = (Ok b, w').
Proof.
  unfold bind. destruct (m w) as [[a|e|] w1]; intros H; try discriminate.
  exists a, w1. split; [reflexivity | exact H].
Qed.
End MonadSteps.

Section Network.
Import Request.

Lemma fetchWithTimeout_world req w : snd (fetchWithTimeout req w) = exchange req w.
Proof.
  unfold fetchWithTimeout, tryCatch, fetch.
  destruct (net w (served w)); reflexivity.
Qed.

(** An accepted reply passes [fetchWithTimeout], [throwIfNotOk] and [parseJson]. *)
Lemma accepted_passes reply j :
  accepted reply = Some j ->
  exists ms r, reply = HttpReply ms r /\ ok r = true
               /\ forall ctx, parseJson (body r) ctx = ret j.
Proof.
  destruct reply as [ms cause|ms r]; simpl; [discriminate|].
  destruct (ok r) eqn:Hok; [|discriminate].
  intros H. exists ms, r. split; [reflexivity|]. split; [exact Hok|].
  intros ctx. unfold parseJson.
  destruct (nonempty (text (body r))).
  - rewrite H. reflexivity.
  - injection H as <-. reflexivity.
Qed.

Lemma fetch_accepted req w j :
  accepted (net w (served w)) = Some j ->
  exists r, fetchWithTimeout req w = (Ok r, exchange req w)
            /\ (forall name, throwIfNotOk r (body r) name = ret tt)
            /\ (forall ctx, parseJson (body r) ctx = ret j).
Proof.
  intros H. destruct (accepted_passes H) as (ms & r & Hreply & Hok & Hparse).
  exists r. split; [|split].
  - unfold fetchWithTimeout, tryCatch, fetch. rewrite Hreply. reflexivity.
  - intros name. unfold throwIfNotOk. rewrite Hok. reflexivity.
  - exact Hparse.
Qed.
End Network.

Lemma bind_ret {W A B} (a : A) (k : A -> St W B) w : bind (ret a) k w = k a w.
Proof. reflexivity. Qed.

(* ================================================================== *)
(** * Properties: every operation returns or throws                     *)
(* ================================================================== *)

Section Halting.
Context {W : Type}.

Lemma halts_ret {A} (a : A) : halts (@ret W A a).
Proof. intros w. discriminate. Qed.

Lemma halts_throw {A} (e : JsError) : halts (@throw W A e).
Proof. intros w. discriminate. Qed.

Lemma halts_bind {A B} (m : St W A) (k : A -> St W B) :
halts m -> (forall a, halts (k a)) -> halts (bind m k).
Proof.
intros Hm Hk w. unfold bind. specialize (Hm w).
destruct (m w) as [[a|e|] w1]; cbn [fst] in *;
  [apply Hk | discriminate | congruence].
Qed.

Lemma halts_tryCatch {A} (m : St W A) (h : JsError -> St W A) :
halts m -> (forall e, halts (h e)) -> halts (tryCatch m h).
Proof.
intros Hm Hh w. unfold tryCatch. specialize (Hm w).
destruct (m w) as [[a|e|] w1]; cbn [fst] in *;
  [discriminate | apply Hh | congruence].
Qed.
End Halting.

Lemma halts_lift {S A} (m : M A) : halts m -> halts (@lift S A m).
Proof.
intros Hm [s w]. unfold lift. cbn [fst snd]. specialize (Hm w).
destruct (m w) as [r w1]. exact Hm.
Qed.

Lemma halts_modify {S} (g : S -> S) : halts (modify g).
Proof. intros sw. discriminate. Qed.

Lemma halts_withLocals {S A} (s : S) (p : Proc S A) : halts p -> halts (withLocals s p).
Proof.
intros Hp w. unfold withLocals. specialize (Hp (s, w)).
destruct (p (s, w)) as [[a|e|] [s1 w1]]; cbn [fst] in *;
  [discriminate | discriminate | congruence].
Qed.

Lemma halts_dateNow : halts dateNow.
Proof. intros w. discriminate. Qed.

Lemma halts_sleep ms : halts (sleep ms).
Proof. intros w. discriminate. Qed.

Lemma halts_call {A} name (fn : Closure A) : halts (call name fn).
Proof. intros w. unfold call. destruct (fn w); discriminate. Qed.

Lemma halts_fetch req : halts (fetch req).
Proof. intros w. unfold fetch. destruct (net w (served w)); discriminate. Qed.

Create HintDb halts.
#[local] Hint Resolve halts_ret halts_throw halts_modify halts_dateNow
  halts_sleep halts_call halts_fetch : halts.

Ltac halting :=
  repeat first
    [ solve [auto with halts nocore]
    | lazymatch goal with
      | |- halts (bind _ _) => apply halts_bind; [|intros ?]
      | |- halts (tryCatch _ _) => apply halts_tryCatch; [|intros ?]
      | |- halts (lift _) => apply halts_lift
      | |- halts (withLocals _ _) => apply halts_withLocals
      | |- halts (match ?x with _ => _ end) => destruct x
      | |- halts (let _ := _ in _) => cbv zeta
      end ].

Section Adapters.
Import Request.

Lemma halts_fetchWithTimeout req : halts (fetchWithTimeout req).
Proof. unfold fetchWithTimeout. halting. Qed.

Lemma halts_parseJson b ctx : halts (parseJson b ctx).
Proof. unfold parseJson. halting. Qed.

Lemma halts_throwIfNotOk r b name : halts (throwIfNotOk r b name).
Proof. unfold throwIfNotOk. halting. Qed.

#[local] Hint Resolve halts_fetchWithTimeout halts_parseJson halts_throwIfNotOk : halts.

Lemma halts_encoded s : halts (encoded s).
Proof. unfold encoded. halting. Qed.

Lemma halts_retryLoop {T} (fn : M T) retries delayMs remaining attempt lastErr :
halts fn -> halts (retryLoop fn retries delayMs remaining attempt lastErr).
Proof.
intros Hfn. revert attempt lastErr.
induction remaining as [|k IH]; intros attempt lastErr; cbn [retryLoop]; halting.
Qed.

Lemma halts_withRetries {T} (fn : M T) options : halts fn -> halts (withRetries fn options).
Proof. intros Hfn. unfold withRetries. apply halts_retryLoop. exact Hfn. Qed.

(** The fuel of the polling loop is enough: an iteration that goes round
    again has moved the clock by the polling interval at least. *)
Lemma pollContainer_returns_or_throws creationId token deadline fuel w :
(deadline <= now w + Instagram.POLL_INTERVAL_MS * N.of_nat (pred fuel))%N ->
fuel <> 0%nat ->
fst (Instagram.pollContainer fuel creationId token deadline w) <> Hang.
Proof.
revert w. induction fuel as [|fuel IH]; intros w Hdeadline Hfuel; [congruence|].
cbn [Instagram.pollContainer pred] in *.
unfold bind, dateNow, fetchWithTimeout, tryCatch, fetch, throwIfNotOk, parseJson,
  throw, ret.
destruct (now w <? deadline)%N eqn:Hnow; [|discriminate].
apply N.ltb_lt in Hnow.
assert (Hnext : forall ms w',
          now w' = (now w + ms + Instagram.POLL_INTERVAL_MS)%N ->
          fst (Instagram.pollContainer fuel creationId token deadline w') <> Hang).
{ intros ms w' Hw'. unfold Instagram.POLL_INTERVAL_MS in *.
  apply IH; [rewrite Hw'|]; destruct fuel as [|fuel']; cbn [pred]; lia. }
destruct (net w (served w)) as [ms cause|ms r] eqn:Hreply; [discriminate|].
destruct (ok r); [|discriminate].
destruct (nonempty (text (body r))); [destruct (parsed (body r)); [|discriminate]|];
  (repeat match goal with
          | |- context [if (?a || ?b)%bool then _ else _] =>
              destruct (a || b)%bool; [discriminate|]
          end;
   unfold sleep; apply (Hnext ms); cbn [now advance record exchange];
   rewrite Hreply; reflexivity).
Qed.


Lemma halts_fetchPermalink base id token fld ctx :
halts (Instagram.fetchPermalink base id token fld ctx).
Proof. unfold Instagram.fetchPermalink. halting. Qed.
#[local] Hint Resolve halts_fetchPermalink halts_encoded : halts.

Lemma halts_publishContainer igUserId token creationId :
halts (Instagram.publishContainer igUserId token creationId).
Proof. unfold Instagram.publishContainer. halting. Qed.
#[local] Hint Resolve halts_publishContainer : halts.

Lemma halts_postToInstagram config content imageUrl :
halts (Instagram.postToInstagram config content imageUrl).
Proof.
unfold Instagram.postToInstagram.
destruct (negb _); [halting|]. destruct (present _) as [igUserId|]; [|halting].
apply halts_bind; [halting|intros res]. cbv zeta.
apply halts_bind; [halting|intros []].
apply halts_bind; [halting|intros data].
destruct (present _) as [creationId|]; [|halting].
intros w. cbv zeta. unfold bind at 1. unfold dateNow at 1. unfold bind.
assert (Hpoll := @pollContainer_returns_or_throws creationId (pageAccessToken config)
                   (now w + Instagram.POLL_MAX_WAIT_MS)%N Instagram.POLL_FUEL w).
destruct (Instagram.pollContainer _ _ _ _ w) as [[[]|e|] w1]; cbn [fst] in *.
- apply halts_publishContainer.
- discriminate.
- exfalso. apply Hpoll; [|discriminate|reflexivity].
  vm_compute N.of_nat. unfold Instagram.POLL_MAX_WAIT_MS, Instagram.POLL_INTERVAL_MS. lia.
Qed.
#[local] Hint Resolve halts_postToInstagram halts_withRetries : halts.

Lemma halts_instagram_replyToComment config commentId message :
halts (Instagram.replyToComment config commentId message).
Proof. unfold Instagram.replyToComment. halting. Qed.

Lemma halts_instagram_deletePost config postId :
halts (Instagram.deletePost config postId).
Proof. unfold Instagram.deletePost. halting. Qed.

Lemma halts_postToThreads config params : halts (Threads.postToThreads config params).
Proof. unfold Threads.postToThreads. halting. Qed.

Lemma halts_replyToPost config postId message :
halts (Threads.replyToPost config postId message).
Proof. unfold Threads.replyToPost. halting. Qed.

Lemma halts_threads_deletePost config postId : halts (Threads.deletePost config postId).
Proof. unfold Threads.deletePost. halting. Qed.

Lemma halts_createResource account edge fields missing :
halts (Meta.createResource account edge fields missing).
Proof. unfold Meta.createResource. halting. Qed.

Lemma halts_uploadMetaAdImage account token imageUrl :
halts (Meta.uploadMetaAdImage account token imageUrl).
Proof. unfold Meta.uploadMetaAdImage. halting. Qed.

Lemma halts_nameOr name prefix : halts (Meta.nameOr name prefix).
Proof. unfold Meta.nameOr. halting. Qed.

Lemma halts_targetingSpec t : halts (Meta.targetingSpec t).
Proof. unfold Meta.targetingSpec. halting. Qed.
#[local] Hint Resolve halts_createResource halts_uploadMetaAdImage halts_nameOr
  halts_targetingSpec : halts.

Lemma halts_createMetaAd config page imageUrl message spec budget campaign adSet status :
halts (Meta.createMetaAd config page imageUrl message spec budget campaign adSet status).
Proof.
unfold Meta.createMetaAd, Meta.createMetaCampaign, Meta.createMetaAdSet,
  Meta.createMetaAdCreative, Meta.createMetaAdRecord.
halting.
Qed.

Lemma halts_meta_runMetaAds config params : halts (Meta.runMetaAds config params).
Proof.
unfold Meta.runMetaAds, Meta.createMetaCampaign, Meta.createMetaAdSet,
  Meta.createMetaAdCreative, Meta.createMetaAdRecordAndReturnId.
halting.
Qed.

Lemma halts_meta_replyToComment config commentId message :
halts (Meta.replyToComment config commentId message).
Proof. unfold Meta.replyToComment. halting. Qed.

Lemma halts_meta_deletePost config postId : halts (Meta.deletePost config postId).
Proof. unfold Meta.deletePost. halting. Qed.
#[local] Hint Resolve halts_createMetaAd : halts.

Lemma halts_postToMeta config params : halts (Meta.postToMeta config params).
Proof. unfold Meta.postToMeta. halting. Qed.

Lemma halts_linkedInImageFromUrl token owner imageUrl :
halts (LinkedIn.linkedInImageFromUrl token owner imageUrl).
Proof. unfold LinkedIn.linkedInImageFromUrl. halting. Qed.
#[local] Hint Resolve halts_linkedInImageFromUrl : halts.

Lemma halts_postToLinkedIn config content imageUrl visibility :
halts (LinkedIn.postToLinkedIn config content imageUrl visibility).
Proof. unfold LinkedIn.postToLinkedIn. halting. Qed.

Lemma halts_linkedin_replyToComment config postId message parent :
halts (LinkedIn.replyToComment config postId message parent).
Proof. unfold LinkedIn.replyToComment. halting. Qed.

Lemma halts_linkedin_deletePost config postId : halts (LinkedIn.deletePost config postId).
Proof. unfold LinkedIn.deletePost. halting. Qed.
End Adapters.

#[local] Hint Resolve halts_fetchWithTimeout halts_parseJson halts_throwIfNotOk
  halts_withRetries halts_postToInstagram halts_instagram_replyToComment
  halts_instagram_deletePost
  halts_postToThreads halts_replyToPost halts_threads_deletePost
  halts_meta_runMetaAds halts_meta_replyToComment halts_meta_deletePost
  halts_postToMeta halts_postToLinkedIn halts_linkedin_replyToComment
  halts_linkedin_deletePost : halts.

Section ClientHalts.
Import Request Client.

Lemma halts_forEach {S A} (xs : list A) (body : A -> Proc S unit) :
(forall x, halts (body x)) -> halts (forEach xs body).
Proof. intros Hbody. induction xs as [|x rest IH]; cbn [forEach]; halting. Qed.

Lemma halts_notifyStart o label code : halts (notifyStart o label code).
Proof. unfold notifyStart. halting. Qed.

Lemma halts_notifyDone o label code pr : halts (notifyDone o label code pr).
Proof. unfold notifyDone. halting. Qed.

Lemma halts_resolveImage this params : halts (resolveImage this params).
Proof. unfold resolveImage. halting. Qed.

Lemma halts_prepareContent this params baseContent code :
halts (prepareContent this params baseContent code).
Proof. unfold prepareContent. halting. Qed.

Lemma halts_posted label code content result : halts (posted label code content result).
Proof. unfold posted. halting. Qed.

Lemma halts_attemptPost retries delayMs doPost :
halts doPost -> halts (attemptPost retries delayMs doPost).
Proof. intros Hpost. unfold attemptPost. halting. Qed.
#[local] Hint Resolve halts_notifyStart halts_notifyDone halts_resolveImage
  halts_prepareContent halts_posted halts_attemptPost : halts.

Lemma halts_reject this label code content failure error :
halts (reject this label code content failure error).
Proof. unfold reject. halting. Qed.

Lemma halts_complete this label code retries delayMs doPost :
halts doPost -> halts (complete this label code retries delayMs doPost).
Proof. intros Hpost. unfold complete. halting. Qed.
#[local] Hint Resolve halts_reject halts_complete : halts.

Lemma halts_platformStep this params image baseContent retries delayMs code :
halts (platformStep this params image baseContent retries delayMs code).
Proof.
unfold platformStep. halting;
  (apply halts_complete; halting).
Qed.

(** [crossPost] returns or throws, whatever the network and the closures do. *)
Lemma crossPost_returns_or_throws this params : halts (crossPost this params).
Proof.
unfold crossPost. halting. apply halts_forEach. intros code. apply halts_platformStep.
Qed.

Lemma halts_replyStep this req : halts (replyStep this req).
Proof. unfold replyStep. halting. Qed.

Lemma replyToComments_returns_or_throws this replies batchLimit :
halts (replyToComments this replies batchLimit).
Proof.
unfold replyToComments. halting.
apply halts_forEach. intros batch. apply halts_forEach. intros req. apply halts_replyStep.
Qed.

Lemma runMetaAds_returns_or_throws this params : halts (runMetaAds this params).
Proof. unfold runMetaAds. halting. Qed.

Lemma deletePost_returns_or_throws this channel postId :
halts (deletePost this channel postId).
Proof. unfold deletePost. halting. Qed.
End ClientHalts.


(* ================================================================== *)
(** * Properties: the polling loop of Instagram                         *)
(* ================================================================== *)

Section InstagramPolling.
Import Request Instagram.
Variables (creationId token : jsstring) (deadline : N).

Lemma poll_past_deadline fuel w :
  (deadline <= now w)%N ->
  pollContainer (S fuel) creationId token deadline w = (Ok tt, w).
Proof.
  intros H. cbn [pollContainer]. unfold bind, dateNow.
  apply N.ltb_ge in H. rewrite H. reflexivity.
Qed.

Lemma poll_reads fuel w s :
  (now w < deadline)%N ->
  field "status_code" (net w (served w)) = Some s ->
  pollContainer (S fuel) creationId token deadline w =
  if JS.eqb s (lit "FINISHED") || JS.eqb s (lit "PUBLISHED")
  then (Ok tt, exchange (statusRequest creationId token) w)
  else if JS.eqb s (lit "ERROR") || JS.eqb s (lit "EXPIRED")
  then (Throw (spErrorWith (lit "Instagram container " ++ s)
                 (slice0 200 (replyText (net w (served w))))),
        exchange (statusRequest creationId token) w)
  else pollContainer fuel creationId token deadline (waited creationId token w).
Proof.
  intros Hnow Hfield. unfold field in Hfield.
  destruct (accepted (net w (served w))) as [j|] eqn:Hacc; [|discriminate].
  destruct (accepted_passes Hacc) as (ms & r & Hreply & Hok & Hparse).
  cbn [pollContainer]. unfold bind at 1. unfold dateNow.
  apply N.ltb_lt in Hnow. rewrite Hnow.
  assert (Hf : fetchWithTimeout (statusRequest creationId token) w
               = (Ok r, exchange (statusRequest creationId token) w)).
  { unfold fetchWithTimeout, tryCatch, fetch. rewrite Hreply. reflexivity. }
  rewrite (bind_Ok _ Hf).
  unfold throwIfNotOk. rewrite Hok. rewrite bind_ret.
  rewrite Hparse, bind_ret. rewrite Hfield. cbn [orElse].
  rewrite Hreply. cbn [replyText].
  destruct (JS.eqb s (lit "FINISHED") || JS.eqb s (lit "PUBLISHED")); [reflexivity|].
  destruct (JS.eqb s (lit "ERROR") || JS.eqb s (lit "EXPIRED")); [reflexivity|].
  reflexivity.
Qed.

Lemma poll_pending fuel w :
  (now w < deadline)%N ->
  field "status_code" (net w (served w)) = Some (lit "PENDING") ->
  pollContainer (S fuel) creationId token deadline w =
  pollContainer fuel creationId token deadline (waited creationId token w).
Proof. intros Hnow Hfield. rewrite (poll_reads fuel Hnow Hfield). reflexivity. Qed.

Lemma poll_finished fuel w :
  (now w < deadline)%N ->
  field "status_code" (net w (served w)) = Some (lit "FINISHED") ->
  pollContainer (S fuel) creationId token deadline w =
  (Ok tt, exchange (statusRequest creationId token) w).
Proof. intros Hnow Hfield. rewrite (poll_reads fuel Hnow Hfield). reflexivity. Qed.

Lemma poll_error fuel w :
  (now w < deadline)%N ->
  field "status_code" (net w (served w)) = Some (lit "ERROR") ->
  pollContainer (S fuel) creationId token deadline w =
  (Throw (spErrorWith (lit "Instagram container ERROR")
            (slice0 200 (replyText (net w (served w))))),
   exchange (statusRequest creationId token) w).
Proof. intros Hnow Hfield. rewrite (poll_reads fuel Hnow Hfield). reflexivity. Qed.
End InstagramPolling.

Lemma requests_app tr1 tr2 : requests (tr1 ++ tr2) = requests tr1 ++ requests tr2.
Proof.
  induction tr1 as [|ev tr1 IH]; simpl; [reflexivity|].
  destruct ev; simpl; rewrite IH; reflexivity.
Qed.

Lemma requests_exchange req w :
  requests (trace (exchange req w)) = requests (trace w) ++ [req].
Proof. unfold exchange; simpl. rewrite requests_app. reflexivity. Qed.


Section InstagramPublish.
Import Request Instagram.

Lemma fetchPermalink_requests base id token fld ctx w :
  exists q, method q = GET /\
    requests (trace (snd (fetchPermalink base id token fld ctx w)))
    = requests (trace w) ++ [q].
Proof.
  eexists. split; [|unfold fetchPermalink, tryCatch, bind].
  2:{ match goal with |- context [fetchWithTimeout ?q w] =>
        pose proof (fetchWithTimeout_world q w) as Hw;
        destruct (fetchWithTimeout q w) as [[r|e|] w1] end;
      simpl in Hw; subst w1.
      - destruct (ok r).
        + destruct (parseJson (body r) (lit ctx) _) as [[j|e|] w2] eqn:Hp;
            unfold parseJson in Hp;
            destruct (nonempty (text (body r))); try destruct (parsed (body r));
            unfold ret, throw in Hp; inversion Hp; subst; simpl;
            apply requests_exchange.
        + simpl. apply requests_exchange.
      - simpl. apply requests_exchange.
      - simpl. apply requests_exchange. }
  reflexivity.
Qed.
End InstagramPublish.

Section InstagramPublish2.
Import Request Instagram.

Lemma publishContainer_requests igUserId token creationId w :
  exists rest,
    requests (trace (snd (publishContainer igUserId token creationId w)))
    = requests (trace w) ++ publishRequest igUserId token creationId :: rest
    /\ Forall (fun q => method q = GET) rest.
Proof.
  unfold publishContainer. unfold bind at 1.
  pose proof (fetchWithTimeout_world (publishRequest igUserId token creationId) w) as Hw.
  destruct (fetchWithTimeout (publishRequest igUserId token creationId) w)
    as [[r|e|] w1]; simpl in Hw; subst w1;
    try (exists []; split; [apply requests_exchange | constructor]).
  unfold bind at 1, throwIfNotOk.
  destruct (ok r); unfold ret, throw;
    try (exists []; split; [apply requests_exchange | constructor]).
  unfold bind at 1, parseJson.
  destruct (nonempty (text (body r))); [destruct (parsed (body r)) as [j|]|];
    unfold ret, throw;
    try (exists []; split; [apply requests_exchange | constructor]).
  all: match goal with
       | |- context [present ?x] => destruct (present x) as [mediaId|]
       end;
    try (exists []; split; [apply requests_exchange | constructor]).
  all: unfold bind at 1; unfold sleep; unfold bind at 1;
    match goal with
    | |- context [fetchPermalink ?b ?i ?t ?f ?c ?w0] =>
        destruct (fetchPermalink_requests b i t f c w0) as (q & Hq & Hreq);
        destruct (fetchPermalink b i t f c w0) as [[p|e|] w2]
    end; simpl in Hreq; simpl;
    exists [q]; (split; [|repeat constructor; exact Hq]);
    rewrite Hreq; rewrite !requests_app; simpl;
    rewrite app_nil_r, <- app_assoc; reflexivity.
Qed.
End InstagramPublish2.


(* ================================================================== *)
(** * Properties: the retry policy                                      *)
(* ================================================================== *)

Section RetryPolicy.
Import Request.

Lemma invocations_app callee tr1 tr2 :
  invocations callee (tr1 ++ tr2) = invocations callee tr1 + invocations callee tr2.
Proof.
  induction tr1 as [|ev tr1 IH]; simpl; [reflexivity|].
  destruct ev; simpl; rewrite IH; lia.
Qed.

Lemma invocations_afterRetry callee d w :
  invocations callee (trace (afterRetry callee d w))
  = S (invocations callee (trace w)).
Proof.
  unfold afterRetry, advance, record; simpl.
  rewrite !invocations_app; simpl. rewrite String.eqb_refl. lia.
Qed.

Lemma invocations_attemptWorld callee d j w :
  invocations callee (trace (attemptWorld callee d j w))
  = j + invocations callee (trace w).
Proof.
  unfold attemptWorld. induction j as [|j IH]; [reflexivity|].
  rewrite Nat.iter_succ, invocations_afterRetry, IH. reflexivity.
Qed.

Lemma attemptWorld_S callee d j w :
  attemptWorld callee d (S j) w = attemptWorld callee d j (afterRetry callee d w).
Proof. unfold attemptWorld. apply Nat.iter_succ_r. Qed.

Variable T : Type.
Variable op : Closure T.
Variable retries : Z.
Variable delayMs : N.

Let fn : M T := call "fn" op.

(** The loop, entered for attempt number [attempt] with [remaining]
    iterations left, makes [k] retries and stops at the call number [k]. *)
Lemma retryLoop_runs remaining :
  forall (attempt : Z) (lastErr : JsError) (w : World),
    (Z.of_nat remaining + attempt = retries + 2)%Z ->
    (1 <= remaining)%nat ->
    exists k : nat,
      (k < remaining)%nat /\
      (forall j, (j < k)%nat ->
         exists e, op (attemptWorld "fn" delayMs j w) = Throws e
                   /\ isRetryableError e = true) /\
      snd (retryLoop fn retries delayMs remaining attempt lastErr w)
      = record (EvCall "fn") (attemptWorld "fn" delayMs k w) /\
      match op (attemptWorld "fn" delayMs k w) with
      | Returns v =>
          fst (retryLoop fn retries delayMs remaining attempt lastErr w)
          = Ok (v, (attempt + Z.of_nat k)%Z)
      | Throws e =>
          fst (retryLoop fn retries delayMs remaining attempt lastErr w) = Throw e
          /\ (isRetryableError e = false \/ S k = remaining)
      end.
Proof.
  induction remaining as [|rem IH]; intros attempt lastErr w Hsum Hpos; [lia|].
  simpl. unfold tryCatch, bind.
  destruct (op w) as [v|e] eqn:Hop.
  - assert (Hfn : fn w = (Ok v, record (EvCall "fn") w))
      by (unfold fn, call; rewrite Hop; reflexivity).
    rewrite Hfn.
    exists 0%nat. change (attemptWorld "fn" delayMs 0 w) with w. rewrite Hop.
    split; [lia|]. split; [intros j Hj; lia|].
    unfold ret; simpl. rewrite Z.add_0_r. split; reflexivity.
  - assert (Hfn : fn w = (Throw e, record (EvCall "fn") w))
      by (unfold fn, call; rewrite Hop; reflexivity).
    rewrite Hfn.
    destruct ((attempt <=? retries)%Z && isRetryableError e) eqn:Hretry.
    + apply andb_prop in Hretry. destruct Hretry as [Hle Hre].
      apply Z.leb_le in Hle.
      assert (Hrem : (1 <= rem)%nat) by lia.
      destruct (IH (attempt + 1)%Z e (afterRetry "fn" delayMs w)) as
        (k & Hk & Hprev & Hw & Hres); [lia | exact Hrem |].
      exists (S k). rewrite attemptWorld_S.
      split; [lia|]. split; [|split].
      * intros [|j] Hj.
        -- exists e. simpl. auto.
        -- rewrite attemptWorld_S. apply Hprev. lia.
      * unfold sleep. simpl. exact Hw.
      * unfold sleep. simpl. fold (afterRetry "fn" delayMs w).
        destruct (op (attemptWorld "fn" delayMs k (afterRetry "fn" delayMs w))).
        -- rewrite Hres. f_equal. f_equal. lia.
        -- destruct Hres as [Hr [Hperm|Hlast]]; (split; [exact Hr|]);
             [left; exact Hperm | right; lia].
    + exists 0%nat. change (attemptWorld "fn" delayMs 0 w) with w. rewrite Hop.
      split; [lia|].
      split; [intros j Hj; lia|]. split; [reflexivity|].
      split; [reflexivity|].
      apply andb_false_iff in Hretry. destruct Hretry as [Hle|Hre]; [|auto].
      apply Z.leb_gt in Hle. right. lia.
Qed.

End RetryPolicy.

(** C4. For every operation and every number [n] of retries, [withRetries]
    calls the operation [k + 1] times with [k <= n], so at most [n + 1] times.
    Each of the first [k] calls failed with a retryable error and was followed
    by the fixed delay before the next call. When the last call returns, the
    result carries its 1-based attempt number [k + 1]; when it throws, that
    error is the one propagated, and either it is permanent or the retries are
    used up ([k = n]). A permanent first failure means one call only. *)
Theorem withRetries_policy :
  forall (T : Type) (op : Closure T) (n : nat) (delay : option Z) (w : World),
    let d := Z.to_N (Z.max 0 (Request.orElse delay 1000%Z)) in
    let run := Request.withRetries (call "fn" op)
                 {| Request.retries := Some (Z.of_nat n);
                    Request.retryDelayMs := delay |} w in
    exists k : nat,
      (k <= n)%nat /\
      invocations "fn" (trace (snd run)) = (invocations "fn" (trace w) + S k)%nat /\
      (forall j, (j < k)%nat ->
         exists e, op (attemptWorld "fn" d j w) = Throws e
                   /\ Request.isRetryableError e = true) /\
      snd run = record (EvCall "fn") (attemptWorld "fn" d k w) /\
      match op (attemptWorld "fn" d k w) with
      | Returns v => fst run = Ok (v, Z.of_nat (S k))
      | Throws e =>
          fst run = Throw e /\ (Request.isRetryableError e = false \/ k = n)
      end /\
      (forall e, op w = Throws e -> Request.isRetryableError e = false ->
                 k = 0%nat /\ fst run = Throw e).
Proof.
  intros T op n delay w d run.
  assert (Hmax : Z.max 0 (Z.of_nat n) = Z.of_nat n) by lia.
  assert (Hrem : Z.to_nat (Z.of_nat n + 1) = S n) by lia.
  destruct (@retryLoop_runs T op (Z.of_nat n) d (S n) 1%Z
              (ThrownValue (lit "undefined")) w) as (k & Hk & Hprev & Hw & Hres);
    [lia | lia |].
  assert (Hrun : run = Request.retryLoop (call "fn" op) (Z.of_nat n) d (S n) 1%Z
                         (ThrownValue (lit "undefined")) w).
  { unfold run, Request.withRetries.
    cbn [Request.retries Request.retryDelayMs Request.orElse].
    rewrite Hmax, Hrem. reflexivity. }
  exists k. rewrite Hrun.
  split; [lia|]. split.
  { rewrite Hw. unfold record; simpl. rewrite invocations_app.
    rewrite invocations_attemptWorld. simpl. lia. }
  split; [exact Hprev|]. split; [exact Hw|]. split.
  - destruct (op (attemptWorld "fn" d k w)) as [v|e].
    + rewrite Hres. f_equal. f_equal. lia.
    + destruct Hres as [Hr [Hperm|Hlast]]; (split; [exact Hr|]);
        [left; exact Hperm | right; lia].
  - intros e Hop Hperm.
    destruct k as [|k].
    + split; [reflexivity|].
      change (attemptWorld "fn" d 0 w) with w in Hres. rewrite Hop in Hres.
      apply Hres.
    + destruct (Hprev 0%nat) as (e' & He' & Hre); [lia|].
      change (attemptWorld "fn" d 0 w) with w in He'. rewrite Hop in He'.
      injection He' as <-. rewrite Hperm in Hre. discriminate.
Qed.

(* ================================================================== *)
(** * Properties: the two-phase publish of Instagram                   *)
(* ================================================================== *)

Section TwoPhasePublish.
Import Request Instagram.

(** C5. In [postToInstagram], with a usable configuration and a container
    that was created: when the container is polled PENDING, PENDING, FINISHED
    (the polls falling before the deadline), the requests are the creation,
    three status polls and then one finalize call ([media_publish]), followed
    by GET requests only, so the finalize call is made exactly once, after the
    third poll; when it is polled PENDING, ERROR, the requests stop at the
    second poll, no finalize call is made, and the error thrown has the
    message "Instagram container ERROR". *)
Theorem instagram_polls_then_publishes :
forall (config : MetaConfig) (content imageUrl igUserId creationId : jsstring)
       (w : World),
  let token := pageAccessToken config in
  let create := createRequest igUserId token imageUrl content in
  let poll := statusRequest creationId token in
  let publish := publishRequest igUserId token creationId in
  let reply := fun k => net w (served w + k)%nat in
  let run := postToInstagram config content imageUrl w in
  nonempty (trim token) = true ->
  present (trimOpt (instagramBusinessAccountId config)) = Some igUserId ->
  present (field "id" (reply 0%nat)) = Some creationId ->
  field "status_code" (reply 1%nat) = Some (lit "PENDING") ->
  (latency (reply 1%nat) + POLL_INTERVAL_MS < POLL_MAX_WAIT_MS)%N ->
  (field "status_code" (reply 2%nat) = Some (lit "PENDING") ->
   field "status_code" (reply 3%nat) = Some (lit "FINISHED") ->
   (latency (reply 1%nat) + latency (reply 2%nat) + 2 * POLL_INTERVAL_MS
    < POLL_MAX_WAIT_MS)%N ->
   exists rest,
     requests (trace (snd run))
     = requests (trace w) ++ [create; poll; poll; poll; publish] ++ rest
     /\ Forall (fun q => method q = GET) rest)
  /\
  (field "status_code" (reply 2%nat) = Some (lit "ERROR") ->
   requests (trace (snd run)) = requests (trace w) ++ [create; poll; poll]
   /\ exists details,
        fst run = Throw (SocialPostingError (lit "Instagram container ERROR")
                           None details)).
Proof.
intros config content imageUrl igUserId creationId w token create poll publish
       reply run Htoken Hig Hid H1 Hl1.
unfold reply in *. rewrite Nat.add_0_r in Hid.
replace (served w + 1)%nat with (S (served w)) in * by lia.
assert (Hid' := Hid). unfold field in Hid'.
destruct (accepted (net w (served w))) as [j|] eqn:Hacc; [|discriminate].
destruct (fetch_accepted create Hacc) as (r & Hf & Ht & Hp).
(* the run up to the polling loop *)
assert (Hrun : run =
          bind (pollContainer POLL_FUEL creationId token
                  (now (exchange create w) + POLL_MAX_WAIT_MS)%N)
               (fun _ => publishContainer igUserId token creationId)
               (exchange create w)).
{ unfold run, postToInstagram. fold token. rewrite Htoken. cbn [negb].
  rewrite Hig. fold create. rewrite (bind_Ok _ Hf).
  rewrite Ht, bind_ret, Hp, bind_ret, Hid'. reflexivity. }
set (w1 := exchange create w) in *.
set (deadline := (now w1 + POLL_MAX_WAIT_MS)%N) in *.
assert (Hnow1 : (now w1 < deadline)%N) by (unfold deadline, POLL_MAX_WAIT_MS; lia).
assert (Hpoll1 : pollContainer POLL_FUEL creationId token deadline w1
                 = pollContainer 15 creationId token deadline
                     (waited creationId token w1)).
{ change POLL_FUEL with (S 15). apply poll_pending; [exact Hnow1 | exact H1]. }
set (w2 := waited creationId token w1) in *.
assert (Hnow2 : (now w2 < deadline)%N).
{ unfold w2, waited, deadline, w1. cbn [now advance record exchange served net].
  unfold POLL_INTERVAL_MS, POLL_MAX_WAIT_MS in *. lia. }
assert (Hreq2 : requests (trace w2) = requests (trace w) ++ [create; poll]).
{ unfold w2, waited, advance, record. cbn [trace].
  rewrite requests_app, requests_exchange. unfold w1.
  rewrite requests_exchange. cbn [requests]. rewrite app_nil_r, <- app_assoc.
  reflexivity. }
split.
- intros H2 H3 Hl2.
  replace (served w + 2)%nat with (S (S (served w))) in * by lia.
  replace (served w + 3)%nat with (S (S (S (served w)))) in * by lia.
  assert (Hpoll2 : pollContainer 15 creationId token deadline w2
                   = pollContainer 14 creationId token deadline
                       (waited creationId token w2)).
  { apply poll_pending; [exact Hnow2 | exact H2]. }
  set (w3 := waited creationId token w2) in *.
  assert (Hnow3 : (now w3 < deadline)%N).
  { unfold w3, waited, w2, waited, deadline, w1.
    cbn [now advance record exchange served net].
    unfold POLL_INTERVAL_MS, POLL_MAX_WAIT_MS in *. lia. }
  assert (Hpoll3 : pollContainer 14 creationId token deadline w3
                   = (Ok tt, exchange poll w3)).
  { apply poll_finished; [exact Hnow3 | exact H3]. }
  rewrite Hrun. unfold bind at 1. rewrite Hpoll1, Hpoll2, Hpoll3.
  destruct (publishContainer_requests igUserId token creationId (exchange poll w3))
    as (rest & Hreq & Hget).
  exists rest. split; [|exact Hget].
  rewrite Hreq. fold publish. rewrite requests_exchange.
  unfold w3, waited, advance, record. cbn [trace].
  rewrite requests_app, requests_exchange, Hreq2. cbn [requests].
  rewrite app_nil_r, <- !app_assoc. reflexivity.
- intros H2.
  replace (served w + 2)%nat with (S (S (served w))) in * by lia.
  assert (Hpoll2 := poll_error creationId token (deadline:=deadline) 14 Hnow2 H2).
  assert (Hend : run = (Throw (spErrorWith (lit "Instagram container ERROR")
                                 (slice0 200 (replyText (net w2 (served w2))))),
                        exchange poll w2)).
  { rewrite Hrun. unfold bind at 1. rewrite Hpoll1, Hpoll2. reflexivity. }
  rewrite Hend. cbn [fst snd].
  split.
  + rewrite requests_exchange, Hreq2. rewrite <- app_assoc. reflexivity.
  + eexists. reflexivity.
Qed.
End TwoPhasePublish.

Lemma instagram_polls_then_publishes_witness :
  let config := Scenario.metaConfig in
  let token := pageAccessToken config in
  let create := Instagram.createRequest (lit "17841400000000000") token
                  Scenario.imageUrl (lit "hello") in
  let poll := Instagram.statusRequest (lit "container-1") token in
  let publish := Instagram.publishRequest (lit "17841400000000000") token
                   (lit "container-1") in
  nonempty (trim token) = true /\
  present (field "id" (net Scenario.finishesOnThirdPoll 0)) = Some (lit "container-1") /\
  field "status_code" (net Scenario.finishesOnThirdPoll 3) = Some (lit "FINISHED") /\
  field "status_code" (net Scenario.failsOnSecondPoll 2) = Some (lit "ERROR") /\
  (exists rest,
     requests (trace (snd (Instagram.postToInstagram config (lit "hello")
                             Scenario.imageUrl Scenario.finishesOnThirdPoll)))
     = [] ++ [create; poll; poll; poll; publish] ++ rest
     /\ Forall (fun q => method q = GET) rest) /\
  (requests (trace (snd (Instagram.postToInstagram config (lit "hello")
                           Scenario.imageUrl Scenario.failsOnSecondPoll)))
   = [] ++ [create; poll; poll]
   /\ exists details,
        fst (Instagram.postToInstagram config (lit "hello") Scenario.imageUrl
               Scenario.failsOnSecondPoll)
        = Throw (SocialPostingError (lit "Instagram container ERROR") None details)).
Proof.
  intros config token create poll publish.
  split; [reflexivity|]. split; [reflexivity|]. split; [reflexivity|].
  split; [reflexivity|]. split.
  - apply (proj1 (@instagram_polls_then_publishes config (lit "hello")
                    Scenario.imageUrl (lit "17841400000000000") (lit "container-1")
                    Scenario.finishesOnThirdPoll
                    eq_refl eq_refl eq_refl eq_refl eq_refl));
      reflexivity.
  - apply (proj2 (@instagram_polls_then_publishes config (lit "hello")
                    Scenario.imageUrl (lit "17841400000000000") (lit "container-1")
                    Scenario.failsOnSecondPoll
                    eq_refl eq_refl eq_refl eq_refl eq_refl));
      reflexivity.
Defined.


(* ================================================================== *)
(** * Properties: the id that a two-phase publish records                *)
(* ================================================================== *)

Lemma extends_refl w : extends w w.
Proof. exists []. symmetry. apply app_nil_r. Qed.

Lemma extends_trans w1 w2 w3 : extends w1 w2 -> extends w2 w3 -> extends w1 w3.
Proof.
intros [e1 H1] [e2 H2]. exists (e1 ++ e2). rewrite H2, H1. symmetry. apply app_assoc.
Qed.

Lemma extends_exchange req w : extends w (exchange req w).
Proof. eexists. reflexivity. Qed.

Section Publishing.
Import Request Instagram.

Lemma fetchWithTimeout_Ok req w r w' :
fetchWithTimeout req w = (Ok r, w') ->
w' = exchange req w /\ exists ms, net w (served w) = HttpReply ms r.
Proof.
unfold fetchWithTimeout, tryCatch, fetch.
destruct (net w (served w)) as [ms cause|ms r0]; intros H.
- discriminate.
- injection H as <- <-. split; [reflexivity|]. exists ms. reflexivity.
Qed.

(** What passes [throwIfNotOk] and [parseJson] is the accepted reply. *)
Lemma accepted_of_passed ms r name ctx j w w1 w2 :
throwIfNotOk r (body r) name w = (Ok tt, w1) ->
parseJson (body r) ctx w1 = (Ok j, w2) ->
w1 = w /\ w2 = w /\ accepted (HttpReply ms r) = Some j.
Proof.
unfold throwIfNotOk, parseJson, accepted.
destruct (ok r); unfold ret, throw; intros H1; [|discriminate].
injection H1 as <-.
destruct (nonempty (text (body r))).
- destruct (parsed (body r)); unfold ret, throw; intros H2; [|discriminate].
  injection H2 as <- <-. auto.
- unfold ret. intros H2. injection H2 as <- <-. auto.
Qed.

Lemma fetchPermalink_trace base id token fld ctx w :
trace (snd (fetchPermalink base id token fld ctx w))
= trace w ++ [EvFetch (getWith (base ++ lit "/" ++ id)
                         [(lit "fields", lit fld); (lit "access_token", token)])
                      (net w (served w))].
Proof.
unfold fetchPermalink, tryCatch, bind.
match goal with |- context [fetchWithTimeout ?q w] =>
  pose proof (fetchWithTimeout_world q w) as Hw;
  destruct (fetchWithTimeout q w) as [[r|e|] w1] end;
  simpl in Hw; subst w1; try reflexivity.
destruct (ok r); [|reflexivity].
unfold parseJson.
destruct (nonempty (text (body r))); [destruct (parsed (body r))|]; reflexivity.
Qed.

Lemma fetchPermalink_returns base id token fld ctx w :
exists link, fst (fetchPermalink base id token fld ctx w) = Ok link.
Proof.
unfold fetchPermalink, tryCatch, bind.
match goal with |- context [fetchWithTimeout ?q w] =>
  assert (Hh : fst (fetchWithTimeout q w) <> Hang)
    by (unfold fetchWithTimeout, tryCatch, fetch;
        destruct (net w (served w)); discriminate);
  destruct (fetchWithTimeout q w) as [[r|e|] w1] end;
  try (eexists; reflexivity); [|exfalso; apply Hh; reflexivity].
destruct (ok r); [|eexists; reflexivity].
unfold parseJson.
destruct (nonempty (text (body r))); [destruct (parsed (body r))|];
  eexists; reflexivity.
Qed.

(** A successful finalize call is on the trace, and the id it returned is the
    one recorded. *)
Lemma publishContainer_Ok igUserId token creationId w res w' :
publishContainer igUserId token creationId w = (Ok res, w') ->
exists after,
  trace w' = trace w
             ++ EvFetch (publishRequest igUserId token creationId) (net w (served w))
             :: after
  /\ present (field "id" (net w (served w))) = Some (postId res).
Proof.
unfold publishContainer. intros H.
apply bind_inv_Ok in H. destruct H as (r & w1 & Hf & H).
apply fetchWithTimeout_Ok in Hf. destruct Hf as [-> [ms Hreply]].
apply bind_inv_Ok in H. destruct H as ([] & w2 & Ht & H).
apply bind_inv_Ok in H. destruct H as (j & w3 & Hp & H).
destruct (accepted_of_passed ms Ht Hp) as (-> & -> & Hacc).
unfold field. rewrite Hreply, Hacc.
destruct (present (stringProp j (lit "id"))) as [mediaId|]; [|discriminate].
apply bind_inv_Ok in H. destruct H as ([] & w4 & Hs & H).
unfold sleep in Hs. injection Hs as <-.
apply bind_inv_Ok in H. destruct H as (link & w5 & Hl & H).
unfold ret in H. injection H as <- <-.
pose proof (fetchPermalink_trace META_BASE mediaId token "permalink"
              "Instagram permalink"
              (advance 1500 (record (EvSleep 1500)
                 (exchange (publishRequest igUserId token creationId) w)))) as Ht'.
rewrite Hl in Ht'. cbn [snd] in Ht'.
eexists. split; [|reflexivity].
rewrite Ht'. unfold advance, record, exchange. cbn [trace served net].
rewrite Hreply. rewrite <- !app_assoc. cbn [app]. reflexivity.
Qed.

Lemma pollContainer_extends creationId token deadline fuel :
forall w, extends w (snd (pollContainer fuel creationId token deadline w)).
Proof.
induction fuel as [|fuel IH]; intros w; [apply extends_refl|].
cbn [pollContainer]. unfold bind at 1, dateNow.
destruct (now w <? deadline)%N; [|apply extends_refl].
unfold bind at 1.
pose proof (fetchWithTimeout_world (statusRequest creationId token) w) as Hw.
destruct (fetchWithTimeout (statusRequest creationId token) w) as [[r|e|] w1];
  simpl in Hw; subst w1; try apply extends_exchange.
unfold bind at 1, throwIfNotOk.
destruct (ok r); unfold ret, throw; [|apply extends_exchange].
unfold bind at 1, parseJson.
destruct (nonempty (text (body r))); [destruct (parsed (body r)) as [j|]|];
  unfold ret, throw; try apply extends_exchange.
all: match goal with
     | |- context [if ?c then _ else _] => destruct c
     end; try apply extends_exchange.
all: match goal with
     | |- context [if ?c then _ else _] => destruct c
     end; try apply extends_exchange.
all: unfold bind at 1, sleep;
  eapply extends_trans; [|apply IH];
  eapply extends_trans; [apply extends_exchange|];
  unfold advance, record; cbn [trace]; eexists; reflexivity.
Qed.

End Publishing.

Section RecordedId.
Import Request.

Lemma postToInstagram_Ok config content imageUrl w res w' :
Instagram.postToInstagram config content imageUrl w = (Ok res, w') ->
exists igUserId creationId before reply after,
  present (field "id" (net w (served w))) = Some creationId
  /\ trace w' = trace w ++ before
                ++ EvFetch (Instagram.publishRequest igUserId (pageAccessToken config)
                              creationId) reply :: after
  /\ present (field "id" reply) = Some (postId res).
Proof.
unfold Instagram.postToInstagram.
destruct (negb (nonempty (trim (pageAccessToken config)))); [discriminate|].
destruct (present (trimOpt (instagramBusinessAccountId config))) as [igUserId|];
  [|discriminate].
intros H.
apply bind_inv_Ok in H. destruct H as (r & w1 & Hf & H).
apply fetchWithTimeout_Ok in Hf. destruct Hf as [-> [ms Hreply]].
apply bind_inv_Ok in H. destruct H as ([] & w2 & Ht & H).
apply bind_inv_Ok in H. destruct H as (j & w3 & Hp & H).
destruct (accepted_of_passed ms Ht Hp) as (-> & -> & Hacc).
destruct (present (stringProp j (lit "id"))) as [creationId|] eqn:Hid; [|discriminate].
apply bind_inv_Ok in H. destruct H as (t0 & w4 & Hd & H).
unfold dateNow in Hd. injection Hd as <- <-.
apply bind_inv_Ok in H. destruct H as ([] & w5 & Hpoll & H).
apply publishContainer_Ok in H. destruct H as (after & Htrace & Hpub).
match type of Hpoll with
| Instagram.pollContainer ?fuel ?c ?tok ?d ?w0 = _ =>
    pose proof (pollContainer_extends c tok d fuel w0) as [evs Hevs]
end.
rewrite Hpoll in Hevs. cbn [snd] in Hevs.
exists igUserId, creationId.
exists (EvFetch (Instagram.createRequest igUserId (pageAccessToken config)
                   imageUrl content) (net w (served w)) :: evs).
exists (net w5 (served w5)), after.
split; [unfold field; rewrite Hreply, Hacc; exact Hid|].
split; [|exact Hpub].
rewrite Htrace, Hevs. cbn [exchange trace].
rewrite <- !app_assoc. reflexivity.
Qed.

End RecordedId.

Section RecordedIdThreads.
Import Request.

Lemma postToThreads_Ok config params w res w' :
Threads.postToThreads config params w = (Ok res, w') ->
truthy (present (trimOpt (Threads.imageUrl params))) = true ->
exists creationId before reply after,
  present (field "id" (net w (served w))) = Some creationId
  /\ trace w' = trace w ++ before
                ++ EvFetch (Threads.publishRequest config creationId) reply :: after
  /\ postId res = match present (field "id" reply) with
                  | Some published => published
                  | None => creationId
                  end.
Proof.
unfold Threads.postToThreads. intros H Himage.
destruct (negb (nonempty (trim (userId config)))); [discriminate|].
destruct (negb (nonempty (trim (th_accessToken config)))); [discriminate|].
rewrite Himage in H. rewrite andb_false_r in H.
destruct (Threads.THREADS_TEXT_MAX_LENGTH <? List.length (trim (Threads.content params)))%nat;
  [discriminate|].
apply bind_inv_Ok in H. destruct H as (r & w1 & Hf & H).
apply fetchWithTimeout_Ok in Hf. destruct Hf as [-> [ms Hreply]].
apply bind_inv_Ok in H. destruct H as ([] & w2 & Ht & H).
apply bind_inv_Ok in H. destruct H as (j & w3 & Hp & H).
destruct (accepted_of_passed ms Ht Hp) as (-> & -> & Hacc).
apply bind_inv_Ok in H. destruct H as (containerId & w4 & Hc & H).
destruct (present (stringProp j (lit "id"))) as [creationId|] eqn:Hid.
- apply bind_inv_Ok in Hc. destruct Hc as (pr & w5 & Hpf & Hc).
  apply fetchWithTimeout_Ok in Hpf. destruct Hpf as [-> [pms Hpreply]].
  apply bind_inv_Ok in Hc. destruct Hc as ([] & w6 & Hpt & Hc).
  apply bind_inv_Ok in Hc. destruct Hc as (pj & w7 & Hpp & Hc).
  destruct (accepted_of_passed pms Hpt Hpp) as (-> & -> & Hpacc).
  match type of Hpreply with net ?w0 (served ?w0) = _ =>
    set (wc := w0) in * end.
  assert (Hpub : containerId = Some match present (field "id" (net wc (served wc))) with
                                     | Some published => published
                                     | None => creationId
                                     end /\ w4 = exchange (Threads.publishRequest config creationId) wc).
  { unfold field. rewrite Hpreply, Hpacc.
    destruct (present (stringProp pj (lit "id"))); unfold ret in Hc;
      injection Hc as <- <-; auto. }
  destruct Hpub as [-> ->].
  apply bind_inv_Ok in H. destruct H as (link & w8 & Hl & H).
  unfold ret in H. injection H as <- <-.
  match type of Hl with Instagram.fetchPermalink ?b ?id0 ?tok ?f0 ?c0 ?w0 = _ =>
    pose proof (fetchPermalink_trace b id0 tok f0 c0 w0) as Ht' end.
  rewrite Hl in Ht'. cbn [snd] in Ht'.
  exists creationId.
  match type of Hreply with net w (served w) = _ =>
    match goal with wc0 := exchange ?q w |- _ =>
      exists [EvFetch q (net w (served w))] end end.
  exists (net wc (served wc)). eexists.
  split; [unfold field; rewrite Hreply, Hacc; exact Hid|].
  split; [|reflexivity].
  rewrite Ht'. unfold wc. cbn [exchange trace].
  rewrite <- !app_assoc. reflexivity.
- unfold ret in Hc. injection Hc as <- <-. discriminate.
Qed.

End RecordedIdThreads.


(** The scripted worlds give the replies of their script and then no reply
    at all. *)
Lemma scripted_declared (replies : list Reply) :
forallb asDeclared replies = true -> declaredReplies (Scenario.scripted replies).
Proof.
intros Hall n. unfold Scenario.scripted. cbn [net]. revert n.
induction replies as [|reply rest IH]; intros [|n]; try reflexivity;
  cbn [forallb] in Hall; apply andb_prop in Hall; destruct Hall as [Hreply Hrest].
- exact Hreply.
- exact (IH Hrest n).
Qed.





(* ================================================================== *)
(** * Properties: the ad provisioning pipeline                          *)
(* ================================================================== *)

Section AdPipeline.
Import Request.

(** What a reply lets a stage read, the stage either returns or throws. *)
Lemma stage_reads {A} (read : Json -> option A) (onMissing : Response -> JsError)
      (req : Request) (name ctx : jsstring) (w : World) :
exists e,
  (res <- fetchWithTimeout req ;;
   throwIfNotOk res (body res) name ;;
   data <- parseJson (body res) ctx ;;
   match read data with
   | None => throw (onMissing res)
   | Some a => ret a
   end) w
  = (match accepted (net w (served w)) with
     | Some data => match read data with Some a => Ok a | None => Throw e end
     | None => Throw e
     end, exchange req w).
Proof.
unfold bind, fetchWithTimeout, tryCatch, fetch, accepted, exchange.
destruct (net w (served w)) as [ms cause|ms r];
  [eexists; unfold throw; reflexivity|].
unfold throwIfNotOk. destruct (ok r); [|eexists; unfold throw; reflexivity].
unfold ret, parseJson.
destruct (nonempty (text (body r))).
- destruct (parsed (body r)) as [j|]; [|eexists; unfold throw; reflexivity].
  unfold ret. destruct (read j); [exists (PlainError [])|eexists];
    unfold throw; reflexivity.
- unfold ret. destruct (read (JObj [])); [exists (PlainError [])|eexists];
    unfold throw; reflexivity.
Qed.

Lemma createResource_run account edge fields missing w :
exists e,
  Meta.createResource account edge fields missing w
  = (match present (field "id" (net w (served w))) with
     | Some id => Ok id
     | None => Throw e
     end, exchange (formPost (Meta.edgeUrl account edge) fields) w).
Proof.
unfold Meta.createResource, field.
destruct (stage_reads (fun data => present (stringProp data (lit "id")))
            (fun _ => spError missing)
            (formPost (Meta.edgeUrl account edge) fields) (lit "Meta") (lit "Meta") w)
  as [e He].
exists e. rewrite He.
destruct (accepted (net w (served w))); reflexivity.
Qed.

Lemma uploadMetaAdImage_run account token imageUrl w :
exists e,
  Meta.uploadMetaAdImage account token imageUrl w
  = (match hashOf (net w (served w)) with
     | Some h => Ok h
     | None => Throw e
     end,
     exchange (formPost (Meta.edgeUrl account "adimages")
                 [(lit "url", Text imageUrl); (lit "access_token", Text token)]) w).
Proof.
unfold Meta.uploadMetaAdImage, hashOf.
destruct (stage_reads (fun data => present (Meta.firstImageHash data))
            (fun _ => spError "Meta did not return image hash")
            (formPost (Meta.edgeUrl account "adimages")
               [(lit "url", Text imageUrl); (lit "access_token", Text token)])
            (lit "Meta") (lit "Meta") w)
  as [e He].
exists e. rewrite He.
destruct (accepted (net w (served w))); reflexivity.
Qed.

End AdPipeline.

Section AdPipelineRun.
Import Request.

Lemma nameOr_run name prefix w :
exists n, Meta.nameOr name prefix w = (Ok n, w).
Proof. destruct name; eexists; reflexivity. Qed.

Lemma newRequests_app w w' made :
requests (trace w') = requests (trace w) ++ made -> newRequests w w' = made.
Proof.
intros H. unfold newRequests. rewrite H.
rewrite skipn_app, skipn_all, Nat.sub_diag. reflexivity.
Qed.

Lemma client_runMetaAds_of this params metaConfig adAccount w r w' :
meta (Client.config this) = Some metaConfig ->
nonempty (pageAccessToken metaConfig) && nonempty (pageId metaConfig) = true ->
adAccountId metaConfig = Some adAccount ->
nonempty (trim adAccount) = true ->
Meta.runMetaAds metaConfig params w = (r, w') ->
Client.runMetaAds this params w
= (match r with
   | Ok res => Ok {| Client.ads_campaignId := Meta.campaignId res;
                     Client.ads_adSetId := Meta.adSetId res;
                     Client.ads_adId := Meta.adId res;
                     Client.ads_status := Meta.adStatus res;
                     Client.ads_error := None |}
   | Throw e => Ok (Client.adsFailure (errorMessage e))
   | Hang => Hang
   end, w').
Proof.
intros Hmeta Hcfg Had Htrim Hrun.
unfold Client.runMetaAds. rewrite Hmeta, Hcfg, Had. cbn [trimOpt option_map truthy].
rewrite Htrim. unfold tryCatch, bind. rewrite Hrun.
destruct r; reflexivity.
Qed.

End AdPipelineRun.

Section AdPipelineStages.
Import Request.

Ltac stops_here k :=
  eexists k, _, _, _; split; [reflexivity|]; split;
  [repeat match goal with x := exchange _ _ |- _ => subst x end;
   rewrite ?requests_exchange, <- ?app_assoc; cbn [app]; reflexivity|];
  split; [lia|]; split; [reflexivity|]; split; [repeat constructor|].

Lemma meta_runMetaAds_run cfg params adAccount w :
adAccountId cfg = Some adAccount ->
nonempty (trim adAccount) = true ->
nonempty (trim (pageAccessToken cfg)) = true ->
exists n made r w',
  Meta.runMetaAds cfg params w = (r, w')
  /\ requests (trace w') = requests (trace w) ++ made
  /\ (1 <= n <= 5)%nat
  /\ map url made = firstn n (stageUrls (Meta.accountOf adAccount))
  /\ Forall (fun q => method q = POST) made
  /\ (forall k, (k + 1 < n)%nat -> stageYield w k <> None)
  /\ ((2 < n)%nat -> Meta.toMetaTargetingSpec (Meta.ad_targeting params) <> None)
  /\ match stageYield w (n - 1) with
     | None => exists e, r = Throw e
     | Some ad =>
         match Meta.toMetaTargetingSpec (Meta.ad_targeting params) with
         | None => n = 2%nat /\ exists e, r = Throw e
         | Some _ =>
             n = 5%nat /\
             exists campaign adSet status,
               stageYield w 1 = Some campaign /\ stageYield w 2 = Some adSet /\
               r = Ok {| Meta.campaignId := campaign; Meta.adSetId := adSet;
                         Meta.adId := ad; Meta.adStatus := status |}
         end
     end.
Proof.
intros Had Htrim Htok.
assert (E1 : (served w + 1 = S (served w))%nat) by lia.
assert (E2 : (served w + 2 = S (S (served w)))%nat) by lia.
assert (E3 : (served w + 3 = S (S (S (served w))))%nat) by lia.
assert (E4 : (served w + 4 = S (S (S (S (served w)))))%nat) by lia.
unfold Meta.runMetaAds. rewrite Had. cbn [trimOpt option_map present].
rewrite Htrim, Htok. cbn [negb].
set (account := Meta.accountOf adAccount).
set (token := pageAccessToken cfg).
set (status := match Meta.startImmediately params with
               | Some true => Meta.ACTIVE
               | _ => Meta.PAUSED
               end).
(* stage 1: the image *)
destruct (uploadMetaAdImage_run account token (Meta.ad_imageUrl params) w) as [e1 H1].
destruct (hashOf (net w (served w))) as [hash|] eqn:Y0.
2:{ rewrite (bind_Throw _ H1). stops_here 1%nat.
    split; [intros k Hk; lia|]. split; [intros Hn; lia|].
    cbn [Nat.sub stageYield]. rewrite Y0. eexists; reflexivity. }
rewrite (bind_Ok _ H1).
match goal with |- context [exchange ?q w] => set (w1 := exchange q w) end.
destruct (nameOr_run (Meta.ad_campaignName params) "Campaign" w1) as [cname Hc].
rewrite (bind_Ok _ Hc).
destruct (nameOr_run (Meta.ad_adSetName params) "AdSet" w1) as [sname Hs].
rewrite (bind_Ok _ Hs).
(* stage 2: the campaign *)
unfold Meta.createMetaCampaign.
match goal with |- context [Meta.createResource ?a ?ed ?f ?m] =>
  destruct (createResource_run a ed f m w1) as [e2 H2] end.
assert (N1 : net w1 = net w) by reflexivity.
assert (S1 : served w1 = S (served w)) by reflexivity.
rewrite N1, S1 in H2.
destruct (present (field "id" (net w (S (served w))))) as [campaign|] eqn:Y1.
2:{ rewrite (bind_Throw _ H2). stops_here 2%nat.
    split.
    - intros [|k] Hk; [|lia]. cbn [stageYield]. rewrite Y0. discriminate.
    - split; [intros Hn; lia|].
      cbn [Nat.sub stageYield]. rewrite E1, Y1. eexists; reflexivity. }
rewrite (bind_Ok _ H2).
match goal with |- context [exchange ?q w1] => set (w2 := exchange q w1) end.
(* the targeting *)
assert (Hconv : exists e,
          Meta.targetingSpec (Meta.ad_targeting params) w2
          = (match Meta.toMetaTargetingSpec (Meta.ad_targeting params) with
             | Some spec => Ok spec
             | None => Throw e
             end, w2)).
{ unfold Meta.targetingSpec.
  destruct (Meta.toMetaTargetingSpec (Meta.ad_targeting params));
    [exists (nullRead "key"); reflexivity|].
  match goal with |- context [if ?c then _ else _] => destruct c end;
    eexists; reflexivity. }
destruct Hconv as [e0 Hconv].
destruct (Meta.toMetaTargetingSpec (Meta.ad_targeting params)) as [spec|] eqn:Hspec.
2:{ rewrite (bind_Throw _ Hconv). stops_here 2%nat.
    split.
    - intros [|k] Hk; [|lia]. cbn [stageYield]. rewrite Y0. discriminate.
    - split; [intros Hn; lia|].
      cbn [Nat.sub stageYield]. rewrite E1, Y1.
      split; [reflexivity|eexists; reflexivity]. }
rewrite (bind_Ok _ Hconv).
(* stage 3: the ad set *)
unfold Meta.createMetaAdSet.
match goal with |- context [Meta.createResource ?a ?ed ?f ?m] =>
  destruct (createResource_run a ed f m w2) as [e3 H3] end.
assert (N2 : net w2 = net w) by reflexivity.
assert (S2 : served w2 = S (S (served w))) by reflexivity.
rewrite N2, S2 in H3.
destruct (present (field "id" (net w (S (S (served w)))))) as [adSet|] eqn:Y2.
2:{ rewrite (bind_Throw _ H3). stops_here 3%nat.
    split.
    - intros [|[|k]] Hk; [| |lia]; cbn [stageYield];
        rewrite ?E1, ?Y0, ?Y1; discriminate.
    - split; [discriminate|].
      cbn [Nat.sub stageYield]. rewrite E2, Y2. eexists; reflexivity. }
rewrite (bind_Ok _ H3).
match goal with |- context [exchange ?q w2] => set (w3 := exchange q w2) end.
(* stage 4: the creative *)
unfold Meta.createMetaAdCreative.
match goal with |- context [Meta.createResource ?a ?ed ?f ?m] =>
  destruct (createResource_run a ed f m w3) as [e4 H4] end.
assert (N3 : net w3 = net w) by reflexivity.
assert (S3 : served w3 = S (S (S (served w)))) by reflexivity.
rewrite N3, S3 in H4.
destruct (present (field "id" (net w (S (S (S (served w))))))) as [creative|] eqn:Y3.
2:{ rewrite (bind_Throw _ H4). stops_here 4%nat.
    split.
    - intros [|[|[|k]]] Hk; [| | |lia]; cbn [stageYield];
        rewrite ?E1, ?E2, ?Y0, ?Y1, ?Y2; discriminate.
    - split; [discriminate|].
      cbn [Nat.sub stageYield]. rewrite E3, Y3. eexists; reflexivity. }
rewrite (bind_Ok _ H4).
match goal with |- context [exchange ?q w3] => set (w4 := exchange q w3) end.
(* stage 5: the ad *)
unfold Meta.createMetaAdRecordAndReturnId.
match goal with |- context [Meta.createResource ?a ?ed ?f ?m] =>
  destruct (createResource_run a ed f m w4) as [e5 H5] end.
assert (N4 : net w4 = net w) by reflexivity.
assert (S4 : served w4 = S (S (S (S (served w))))) by reflexivity.
rewrite N4, S4 in H5.
destruct (present (field "id" (net w (S (S (S (S (served w)))))))) as [ad|] eqn:Y4.
2:{ rewrite (bind_Throw _ H5). stops_here 5%nat.
    split.
    - intros [|[|[|[|k]]]] Hk; [| | | |lia]; cbn [stageYield];
        rewrite ?E1, ?E2, ?E3, ?Y0, ?Y1, ?Y2, ?Y3; discriminate.
    - split; [discriminate|].
      cbn [Nat.sub stageYield]. rewrite E4, Y4. eexists; reflexivity. }
rewrite (bind_Ok _ H5). unfold ret.
stops_here 5%nat.
split.
- intros [|[|[|[|k]]]] Hk; [| | | |lia]; cbn [stageYield];
    rewrite ?E1, ?E2, ?E3, ?Y0, ?Y1, ?Y2, ?Y3; discriminate.
- split; [discriminate|].
  cbn [Nat.sub stageYield]. rewrite E4, Y4. split; [reflexivity|].
  exists campaign, adSet, status. rewrite E1, E2, Y1, Y2. auto.
Qed.

End AdPipelineStages.






(** A targeting that cannot be converted stops the run after the campaign:
    the vendor would accept every stage, two requests are made, and the
    result is the message of the TypeError. *)
Lemma unconvertible_targeting_stops_after_the_campaign :
let run := Client.runMetaAds Scenario.plainClient Scenario.cityAdParams
             Scenario.adsAccepted in
Meta.toMetaTargetingSpec (Meta.ad_targeting Scenario.cityAdParams) = None
/\ stageYield Scenario.adsAccepted 1 = Some (lit "campaign-1")
/\ stageYield Scenario.adsAccepted 2 = Some (lit "adset-1")
/\ map url (requests (trace (snd run))) = firstn 2 (stageUrls (lit "act_42"))
/\ fst run
   = Ok (Client.adsFailure (lit "Cannot read properties of null (reading 'key')"))
/\ fst (Client.runMetaAds Scenario.plainClient Scenario.adParams Scenario.adsAccepted)
   = Ok {| Client.ads_campaignId := lit "campaign-1";
           Client.ads_adSetId := lit "adset-1";
           Client.ads_adId := lit "ad-1";
           Client.ads_status := Meta.ACTIVE;
           Client.ads_error := None |}.
Proof. repeat split; reflexivity. Qed.


(* ================================================================== *)
(** * Properties: deletion on a provider that has none                  *)
(* ================================================================== *)

(** C9, as the code has it. [deletePost] on channel [i] never raises and
    makes no vendor call: whatever the client, the post id and the world, it
    returns [{ success: false, error }] with the message of the error that the
    Instagram adapter throws. The result has no field for an error kind. *)
Theorem instagram_delete_is_refused :
forall (this : Client.SocialPostingClient) (postId : jsstring) (w : World),
  Client.deletePost this i postId w
  = (Ok {| Client.success := false;
           Client.del_error :=
             Some (lit "Instagram does not support deleting posts via API") |}, w).
Proof. intros this postId w. reflexivity. Qed.

(** C9 as stated fails: the error that the Instagram adapter throws has no
    code, and the client keeps its message only, so the result of the refused
    deletion is also the result of a Facebook deletion that the vendor
    rejected with these words. *)
Lemma unsupported_delete_has_no_kind :
fst (Instagram.deletePost None (lit "any-id") (Scenario.scripted []))
= Throw (SocialPostingError
           (lit "Instagram does not support deleting posts via API") None NoDetails)
/\ fst (Client.deletePost Scenario.plainClient f (lit "1001_77")
          Scenario.deletionRejected)
   = fst (Client.deletePost Scenario.plainClient i (lit "any-id")
            (Scenario.scripted []))
/\ List.length (requests (trace (snd (Client.deletePost Scenario.plainClient f
                                        (lit "1001_77") Scenario.deletionRejected))))
   = 1%nat.
Proof. repeat split; reflexivity. Qed.

(* ================================================================== *)
(** * Properties: image bytes without an upload capability              *)
(* ================================================================== *)

(** C3, as the code has it. When image bytes are given, no image URL is
    given and the client has no [uploadImage] option, [crossPost] fails as a
    whole: it throws before any provider is attempted (the world is
    untouched) and returns no batch result, whatever the providers requested. *)
Theorem crossPost_needs_upload_for_bytes :
forall (this : Client.SocialPostingClient) (params : Client.CrossPostParams)
       (w : World),
  Client.bufferGiven params = true ->
  truthy (trimOpt (Client.imageUrl params)) = false ->
  Client.uploadImage (Client.options this) = None ->
  Client.crossPost this params w
  = (Throw (PlainError
              (lit ("imageBuffer provided but no uploadImage option; "
                    ++ "pass imageUrl or set uploadImage in options"))), w).
Proof.
intros this params w Hbuffer Hurl Hupload.
unfold Client.crossPost, Client.resolveImage.
rewrite Hupload, Hbuffer.
destruct (Client.imageBuffer params);
  unfold bind at 1 2; unfold ret at 1; cbv beta iota; rewrite Hurl; reflexivity.
Qed.

Lemma crossPost_needs_upload_for_bytes_witness :
Client.bufferGiven (Scenario.bufferPost [l; t] (lit "hello")) = true
/\ Client.crossPost Scenario.plainClient (Scenario.bufferPost [l; t] (lit "hello"))
     (Scenario.scripted [])
   = (Throw (PlainError
               (lit ("imageBuffer provided but no uploadImage option; "
                     ++ "pass imageUrl or set uploadImage in options"))),
      Scenario.scripted []).
Proof.
split; [reflexivity|].
apply (@crossPost_needs_upload_for_bytes Scenario.plainClient
         (Scenario.bufferPost [l; t] (lit "hello")) (Scenario.scripted []));
  reflexivity.
Defined.

(** C3 as stated fails: with image bytes and no upload capability, a post to
    LinkedIn and Threads, neither of which requires an image, fails as a
    whole and no request is made. *)
Lemma bytes_without_upload_fail_the_call :
let run := Client.crossPost Scenario.plainClient
             (Scenario.bufferPost [l; t] (lit "hello")) (Scenario.scripted []) in
(forall result, fst run <> Ok result)
/\ (exists e, fst run = Throw e)
/\ trace (snd run) = [].
Proof.
split; [intros result; discriminate|]. split; [eexists|]; reflexivity.
Qed.


(* ================================================================== *)
(** * Properties: the provider loop of crossPost                        *)
(* ================================================================== *)

Section Ensures.
Context {A B : Type}.

Lemma ensures_ret (a : A) (R : A -> Prop) : R a -> ensures (ret a) R.
Proof. intros H w a' w' Heq. injection Heq as <- _. exact H. Qed.

Lemma ensures_bind (m : M A) (k : A -> M B) (R1 : A -> Prop) (R : B -> Prop) :
ensures m R1 -> (forall a, R1 a -> ensures (k a) R) -> ensures (bind m k) R.
Proof.
intros Hm Hk w b w' H. apply bind_inv_Ok in H. destruct H as (a & w1 & H1 & H2).
exact (Hk a (Hm _ _ _ H1) _ _ _ H2).
Qed.

Lemma ensures_any (m : M A) : ensures m (fun _ => True).
Proof. intros w a w' _. exact I. Qed.
End Ensures.

Section Wp.
Context {S : Type}.

Lemma wp_ret {A} (a : A) (Q : A -> S -> Prop) E s : Q a s -> wp (ret a) Q E s.
Proof. intros H w. exact H. Qed.

Lemma wp_bind {A B} (m : Proc S A) (k : A -> Proc S B) (Q : B -> S -> Prop) E s :
wp m (fun a s' => wp (k a) Q E s') E s -> wp (bind m k) Q E s.
Proof.
intros H w. specialize (H w). unfold bind.
destruct (m (s, w)) as [[a|e|] [s1 w1]]; [|exact H|exact I].
exact (H w1).
Qed.

Lemma wp_tryCatch {A} (m : Proc S A) (h : JsError -> Proc S A)
      (Q : A -> S -> Prop) E s :
wp m Q (fun s' => forall e, wp (h e) Q E s') s -> wp (tryCatch m h) Q E s.
Proof.
intros H w. specialize (H w). unfold tryCatch.
destruct (m (s, w)) as [[a|e|] [s1 w1]]; [exact H| |exact I].
exact (H e w1).
Qed.

Lemma wp_modify (g : S -> S) (Q : unit -> S -> Prop) E s :
Q tt (g s) -> wp (modify g) Q E s.
Proof. intros H w. exact H. Qed.

Lemma wp_lift {A} (m : M A) (R : A -> Prop) (Q : A -> S -> Prop) (E : S -> Prop) s :
ensures m R -> (forall a, R a -> Q a s) -> E s -> wp (lift m) Q E s.
Proof.
intros Hm HQ HE w. unfold lift. cbn [fst snd].
destruct (m w) as [[a|e|] w1] eqn:Hrun; [|exact HE|exact I].
apply HQ. exact (Hm _ _ _ Hrun).
Qed.

Lemma wp_lift_total {A} (m : M A) (Q : A -> S -> Prop) (E : S -> Prop) s :
total m -> (forall a, Q a s) -> wp (lift m) Q E s.
Proof.
intros Hm HQ w. unfold lift. cbn [fst snd].
destruct (Hm w) as (a & w1 & Hrun). rewrite Hrun. apply HQ.
Qed.

Lemma wp_weaken {A} (p : Proc S A) (Q1 Q2 : A -> S -> Prop) (E1 E2 : S -> Prop) s :
wp p Q1 E1 s -> (forall a s', Q1 a s' -> Q2 a s') -> (forall s', E1 s' -> E2 s') ->
wp p Q2 E2 s.
Proof.
intros H HQ HE w. specialize (H w).
destruct (p (s, w)) as [[a|e|] [s1 w1]]; auto.
Qed.

(** A loop keeps an invariant that its body keeps, also when it throws. *)
Lemma wp_forEach {A} (body : A -> Proc S unit) (Inv : S -> Prop) (xs : list A) :
(forall x s, Inv s -> wp (body x) (fun _ => Inv) Inv s) ->
forall s, Inv s -> wp (Client.forEach xs body) (fun _ => Inv) Inv s.
Proof.
intros Hbody. induction xs as [|x xs IH]; intros s Hs.
- apply wp_ret. exact Hs.
- cbn [Client.forEach]. apply wp_bind.
  eapply wp_weaken; [apply Hbody; exact Hs| |auto].
  intros u s' Hs'. apply IH. exact Hs'.
Qed.

Lemma ensures_withLocals {A} (p : Proc S A) (Q : A -> S -> Prop) E s :
wp p Q E s -> ensures (withLocals s p) (fun r => Q (fst r) (snd r)).
Proof.
intros H w r w' Hrun. unfold withLocals in Hrun. specialize (H w).
destruct (p (s, w)) as [[a|e|] [s1 w1]]; try discriminate.
injection Hrun as <- _. exact H.
Qed.
End Wp.

Section Orchestrator.
Import Request Client.

Lemma ensures_retryLoop {T} (fn : M T) (R : T -> Prop) retries delayMs remaining :
ensures fn R ->
forall attempt lastErr,
  ensures (retryLoop fn retries delayMs remaining attempt lastErr)
          (fun x => R (fst x)).
Proof.
intros Hfn. induction remaining as [|k IH]; intros attempt lastErr w x w' H.
- discriminate.
- cbn [retryLoop] in H. unfold tryCatch in H.
  destruct ((result <- fn;; ret (result, attempt)) w) as [[y|e|] w1] eqn:Hrun.
  + injection H as <- _.
    apply bind_inv_Ok in Hrun. destruct Hrun as (v & w2 & Hv & Hret).
    injection Hret as <- _. exact (Hfn _ _ _ Hv).
  + destruct ((attempt <=? retries)%Z && isRetryableError e); [|discriminate].
    apply bind_inv_Ok in H. destruct H as ([] & w2 & _ & H).
    exact (IH _ _ _ _ _ H).
  + discriminate.
Qed.

Lemma ensures_attemptPost retries delayMs doPost (R : PlatformResult -> Prop) :
ensures doPost R ->
ensures (attemptPost retries delayMs doPost) (fun x => R (fst x)).
Proof.
intros H. unfold attemptPost. destruct (retries >? 0)%Z.
- apply ensures_retryLoop. exact H.
- eapply ensures_bind; [exact H|]. intros pr Hpr. apply ensures_ret. exact Hpr.
Qed.

(** What [doPost] returns: the outcome of a post that its adapter accepted. *)
Lemma ensures_posted (adapter : M PostResult) (RA : PostResult -> Prop)
      label code content :
ensures adapter RA ->
ensures (result <- adapter ;; posted label code content result)
        (fun pr => exists result stamp,
           RA result /\
           pr = {| pr_platform := label; pr_code := code;
                   pr_postId := Some (postId result); pr_error := None;
                   pr_content := Some content; pr_permalink := permalink result;
                   pr_postedAt := Some stamp; pr_attempt := None |}).
Proof.
intros H. eapply ensures_bind; [exact H|]. intros result Hres w pr w' Hrun.
unfold posted, bind, dateNow, ret in Hrun. injection Hrun as <- _.
exists result, (now w). auto.
Qed.

End Orchestrator.

Section StepInvariant.
Import Request Client.

Variable Inv : Batch -> Prop.
Variable Good : PlatformCode -> jsstring -> PostResult -> Prop.

Hypothesis Inv_reject :
  forall b label code failure error content,
    Inv b -> Inv (pushResult (errorResult label code error content)
                    (pushFailure label failure b)).

Hypothesis Inv_complete :
  forall b label code content result stamp attempt,
    Inv b -> Good code content result ->
    Inv (pushResult
           (withAttempt
              {| pr_platform := label; pr_code := code;
                 pr_postId := Some (postId result); pr_error := None;
                 pr_content := Some content; pr_permalink := permalink result;
                 pr_postedAt := Some stamp; pr_attempt := None |} attempt)
           (raiseAttempt attempt b)).

Lemma wp_reject this label code content failure error (E : Batch -> Prop) b :
Inv b -> (forall s, Inv s -> E s) ->
wp (reject this label code content failure error) (fun _ => Inv) E b.
Proof.
intros Hb HE. unfold reject.
apply wp_bind, wp_modify, wp_bind, wp_modify.
assert (Hpushed := Inv_reject label code failure error content Hb).
eapply wp_lift; [apply ensures_any| |apply HE]; auto.
Qed.

Lemma wp_complete this label code content retries delayMs adapter b :
Inv b ->
ensures adapter (Good code content) ->
wp (complete this label code retries delayMs
      (result <- adapter ;; posted label code content result))
   (fun _ => Inv)
   (fun s => forall e, wp (reject this label code content (errorMessage e)
                             (errorMessage e)) (fun _ => Inv) Inv s) b.
Proof.
intros Hb Hadapter. unfold complete.
apply wp_bind.
eapply wp_lift;
  [apply ensures_attemptPost, ensures_posted; exact Hadapter| |].
- intros [pr attempt] (result & stamp & Hgood & Hpr). cbn [fst] in Hpr. subst pr.
  apply wp_bind, wp_modify, wp_bind, wp_modify.
  assert (Hpushed := Inv_complete label stamp attempt Hb Hgood).
  eapply wp_lift; [apply ensures_any| |]; auto.
  intros e. apply wp_reject; auto.
- intros e. apply wp_reject; auto.
Qed.

Hypothesis Good_meta :
  forall cfg params, ensures (Meta.postToMeta cfg params) (Good f (Meta.content params)).
Hypothesis Good_instagram :
  forall cfg content url,
    ensures (Instagram.postToInstagram cfg content url) (Good i content).
Hypothesis Good_linkedin :
  forall cfg content image visibility,
    ensures (LinkedIn.postToLinkedIn cfg content image visibility) (Good l content).
Hypothesis Good_threads :
  forall cfg params,
    ensures (Threads.postToThreads cfg params) (Good t (Threads.content params)).

(** The loop body keeps [Inv], whether it returns or throws. *)
Lemma platformStep_keeps this params image baseContent retries delayMs code b :
Inv b ->
wp (platformStep this params image baseContent retries delayMs code)
   (fun _ => Inv) Inv b.
Proof.
intros Hb. unfold platformStep.
apply wp_bind. eapply wp_lift; [apply ensures_any| |exact Hb].
intros content _.
apply wp_bind. eapply wp_lift; [apply ensures_any| |exact Hb].
intros _ _. cbv zeta.
apply wp_tryCatch.
assert (Hrej : forall failure error,
          wp (reject this (Utils.CODE_TO_PLATFORM_LABEL code) code content failure error)
             (fun _ => Inv)
             (fun s => forall e,
                wp (reject this (Utils.CODE_TO_PLATFORM_LABEL code) code content
                      (errorMessage e) (errorMessage e)) (fun _ => Inv) Inv s) b).
{ intros failure error. apply wp_reject; [exact Hb|].
  intros s Hs e. apply wp_reject; auto. }
destruct code.
- destruct (meta (config this)) as [metaConfig|]; [|apply Hrej].
  destruct (nonempty (pageAccessToken metaConfig) && nonempty (pageId metaConfig));
    [|apply Hrej].
  destruct (present image) as [url|]; [|apply Hrej].
  apply (@wp_complete this (Utils.CODE_TO_PLATFORM_LABEL f) f content retries delayMs
           _ b Hb).
  apply (@Good_meta metaConfig
           {| Meta.content := content; Meta.imageUrl := url;
              Meta.targeting := targeting params; Meta.createAd := createAd params;
              Meta.dailyBudget := dailyBudget params;
              Meta.campaignName := campaignName params;
              Meta.adSetName := adSetName params |}).
- destruct (meta (config this)) as [metaConfig|]; [|apply Hrej].
  destruct (nonempty (pageAccessToken metaConfig)
            && truthy (instagramBusinessAccountId metaConfig)); [|apply Hrej].
  destruct (present image) as [url|]; [|apply Hrej].
  apply wp_complete; [exact Hb|]. apply Good_instagram.
- destruct (linkedin (config this)) as [linkedInConfig|]; [|apply Hrej].
  destruct (nonempty (li_accessToken linkedInConfig)); [|apply Hrej].
  match goal with |- context [present ?a] => destruct (present a) as [author|] end;
    [|apply Hrej].
  apply wp_complete; [exact Hb|]. apply Good_linkedin.
- match goal with |- context [match present ?u with _ => _ end] =>
    destruct (present u) as [threadsUser|] end; [|apply Hrej].
  match goal with |- context [match present ?u with _ => _ end] =>
    destruct (present u) as [threadsToken|] end; [|apply Hrej].
  apply (@wp_complete this (Utils.CODE_TO_PLATFORM_LABEL t) t content retries delayMs
           _ b Hb).
  apply (@Good_threads {| userId := threadsUser; th_accessToken := threadsToken |}
           {| Threads.content := content; Threads.imageUrl := image;
              Threads.altText := altText params;
              Threads.linkAttachment := linkAttachment params |}).
Qed.

End StepInvariant.

Section BatchInvariant.
Import Request Client.

Variable Inv : Batch -> Prop.
Variable Good : PlatformCode -> jsstring -> PostResult -> Prop.

Hypothesis Inv_start : Inv {| results := []; failures := []; highestAttempt := 1 |}.
Hypothesis Inv_reject :
  forall b label code failure error content,
    Inv b -> Inv (pushResult (errorResult label code error content)
                    (pushFailure label failure b)).
Hypothesis Inv_complete :
  forall b label code content result stamp attempt,
    Inv b -> Good code content result ->
    Inv (pushResult
           (withAttempt
              {| pr_platform := label; pr_code := code;
                 pr_postId := Some (postId result); pr_error := None;
                 pr_content := Some content; pr_permalink := permalink result;
                 pr_postedAt := Some stamp; pr_attempt := None |} attempt)
           (raiseAttempt attempt b)).
Hypothesis Good_meta :
  forall cfg params, ensures (Meta.postToMeta cfg params) (Good f (Meta.content params)).
Hypothesis Good_instagram :
  forall cfg content url,
    ensures (Instagram.postToInstagram cfg content url) (Good i content).
Hypothesis Good_linkedin :
  forall cfg content image visibility,
    ensures (LinkedIn.postToLinkedIn cfg content image visibility) (Good l content).
Hypothesis Good_threads :
  forall cfg params,
    ensures (Threads.postToThreads cfg params) (Good t (Threads.content params)).

(** What [crossPost] returns is read off a batch that satisfies [Inv]. *)
Lemma crossPost_returns_batch this params :
ensures (crossPost this params)
  (fun r => exists b,
     Inv b /\ platformResults r = results b /\ failed r = failures b
     /\ batchStatus r = statusOf (List.length (failures b)) (completedCount (results b))).
Proof.
unfold crossPost.
eapply ensures_bind; [apply ensures_any|]. intros image _.
eapply ensures_bind.
- apply (ensures_withLocals (Q := fun _ => Inv) (E := Inv)).
  apply wp_forEach; [|exact Inv_start].
  intros code b Hb.
  apply (platformStep_keeps Inv_reject Inv_complete Good_meta Good_instagram
           Good_linkedin Good_threads); exact Hb.
- intros [u b] Hb. cbn [snd] in Hb. apply ensures_ret.
  exists b. cbn. auto.
Qed.

End BatchInvariant.

Section BatchStatus.
Import Client.

Lemma failuresMatch_reject b label code failure error content :
failuresMatch b ->
failuresMatch (pushResult (errorResult label code error content)
                 (pushFailure label failure b)).
Proof.
unfold failuresMatch, pushResult, pushFailure. cbn [results failures].
intros H. rewrite filter_app, !length_app, H. reflexivity.
Qed.

Lemma failuresMatch_complete b label code content result stamp attempt :
failuresMatch b ->
failuresMatch
  (pushResult
     (withAttempt
        {| pr_platform := label; pr_code := code;
           pr_postId := Some (postId result); pr_error := None;
           pr_content := Some content; pr_permalink := permalink result;
           pr_postedAt := Some stamp; pr_attempt := None |} attempt)
     (raiseAttempt attempt b)).
Proof.
unfold failuresMatch, pushResult, raiseAttempt. cbn [results failures].
intros H. rewrite filter_app, length_app, H. cbn. lia.
Qed.

Lemma completed_none rs :
completedCount rs = 0%nat <-> (forall pr, In pr rs -> truthy (pr_postId pr) = false).
Proof.
unfold completedCount. induction rs as [|r rs IH]; cbn [filter].
- split; [intros _ pr []|reflexivity].
- destruct (truthy (pr_postId r)) eqn:Hr; cbn [List.length].
  + split; [discriminate|]. intros H. specialize (H r (or_introl eq_refl)).
    rewrite Hr in H. discriminate.
  + rewrite IH. split.
    * intros H pr [<-|Hin]; [exact Hr|apply H; exact Hin].
    * intros H pr Hin. apply H. right. exact Hin.
Qed.

Lemma completed_some rs :
completedCount rs <> 0%nat <-> (exists pr, In pr rs /\ truthy (pr_postId pr) = true).
Proof.
unfold completedCount. induction rs as [|r rs IH]; cbn [filter].
- split; [intros H; exfalso; apply H; reflexivity|intros (pr & [] & _)].
- destruct (truthy (pr_postId r)) eqn:Hr; cbn [List.length].
  + split; [|discriminate]. intros _. exists r. split; [left; reflexivity|exact Hr].
  + rewrite IH. split.
    * intros (pr & Hin & Hpr). exists pr. split; [right; exact Hin|exact Hpr].
    * intros (pr & [<-|Hin] & Hpr); [rewrite Hr in Hpr; discriminate|].
      exists pr. auto.
Qed.

(** C2, as the code has it. A [crossPost] call returns or throws, and for
    every batch that it returns: the status is [full] iff the [failed] list
    is empty; it is [failed] iff the [failed] list is not empty and no outcome
    has a post id; it is [partial] iff the [failed] list is not empty and some
    outcome has a post id; and it is a function of the outcome list alone
    ([deriveStatus]), the [failed] list having one entry per outcome with an
    error. *)
Theorem batch_status_is_derived :
forall (this : SocialPostingClient) (params : CrossPostParams) (w : World),
  fst (crossPost this params w) <> Hang
  /\ forall (w' : World) (r : CrossPostResult),
       crossPost this params w = (Ok r, w') ->
       (batchStatus r = StatusFull <-> failed r = [])
       /\ (batchStatus r = StatusFailed <->
           failed r <> []
           /\ forall pr, In pr (platformResults r) -> truthy (pr_postId pr) = false)
       /\ (batchStatus r = StatusPartial <->
           failed r <> []
           /\ exists pr, In pr (platformResults r) /\ truthy (pr_postId pr) = true)
       /\ batchStatus r = deriveStatus (platformResults r).
Proof.
intros this params w. split; [apply crossPost_returns_or_throws|].
intros w' r Hrun.
assert (Hbatch : exists b,
          failuresMatch b /\ platformResults r = results b /\ failed r = failures b
          /\ batchStatus r = statusOf (List.length (failures b))
                                (completedCount (results b))).
{ refine (@crossPost_returns_batch failuresMatch (fun _ _ _ => True)
            _ _ _ _ _ _ _ this params w r w' Hrun).
  - reflexivity.
  - intros; apply failuresMatch_reject; assumption.
  - intros; apply failuresMatch_complete; assumption.
  - intros; apply ensures_any.
  - intros; apply ensures_any.
  - intros; apply ensures_any.
  - intros; apply ensures_any. }
destruct Hbatch as (b & Hinv & Hres & Hfail & Hstatus).
rewrite Hres, Hfail, Hstatus. unfold deriveStatus. rewrite <- Hinv.
rewrite <- completed_none, <- completed_some.
unfold statusOf.
destruct (failures b) as [|x xs]; cbn [List.length Nat.eqb].
- repeat split; try reflexivity; try discriminate;
    try (intros [H _]; exfalso; apply H; reflexivity).
- destruct (completedCount (results b)) as [|n]; cbn [Nat.eqb];
    repeat split; try reflexivity; try discriminate; try lia;
    try (intros [_ H]; exfalso; lia).
Qed.

End BatchStatus.

Section ThreadsLimit.
Import Client.

Lemma postToThreads_refuses config params w :
(Threads.THREADS_TEXT_MAX_LENGTH < List.length (trim (Threads.content params)))%nat
\/ (trim (Threads.content params) = []
    /\ present (trimOpt (Threads.imageUrl params)) = None) ->
exists message,
  Threads.postToThreads config params w
  = (Throw (SocialPostingError message None NoDetails), w).
Proof.
intros H. unfold Threads.postToThreads.
destruct (negb (nonempty (trim (userId config)))); [eexists; reflexivity|].
destruct (negb (nonempty (trim (th_accessToken config)))); [eexists; reflexivity|].
destruct H as [Hlong|[Hempty Himage]].
- destruct (negb (nonempty (trim (Threads.content params)))
            && negb (truthy (present (trimOpt (Threads.imageUrl params)))));
    [eexists; reflexivity|].
  apply Nat.ltb_lt in Hlong. rewrite Hlong. eexists; reflexivity.
- rewrite Hempty, Himage. eexists; reflexivity.
Qed.

Lemma postToThreads_within_limit config params :
ensures (Threads.postToThreads config params)
  (fun _ => ~ (Threads.THREADS_TEXT_MAX_LENGTH
               < List.length (trim (Threads.content params)))%nat).
Proof.
intros w res w' Hrun Hlong.
destruct (@postToThreads_refuses config params w (or_introl Hlong)) as [message H].
rewrite H in Hrun. discriminate.
Qed.

Lemma crossPost_refuses_long_threads this params :
ensures (crossPost this params)
  (fun r => Forall overLimitIsRefused (platformResults r)).
Proof.
intros w r w' Hrun.
assert (Hbatch : exists b,
          Forall overLimitIsRefused (results b)
          /\ platformResults r = results b /\ failed r = failures b
          /\ batchStatus r = statusOf (List.length (failures b))
                                (completedCount (results b))).
{ refine (@crossPost_returns_batch
            (fun b => Forall overLimitIsRefused (results b))
            (fun code content _ =>
               code = t ->
               ~ (Threads.THREADS_TEXT_MAX_LENGTH < List.length (trim content))%nat)
            _ _ _ _ _ _ _ this params w r w' Hrun).
  - constructor.
  - intros b label code failure error content Hb.
    unfold pushResult, pushFailure. cbn [results].
    apply Forall_app. split; [exact Hb|]. constructor; [|constructor].
    intros _ c _ _. cbn. split; [discriminate|reflexivity].
  - intros b label code content result stamp attempt Hb Hgood.
    unfold pushResult, raiseAttempt. cbn [results].
    apply Forall_app. split; [exact Hb|]. constructor; [|constructor].
    intros Hcode c Hc Hlong. cbn in Hcode, Hc. injection Hc as <-.
    exfalso. exact (Hgood Hcode Hlong).
  - intros cfg p w0 a w1 _ Hcode. discriminate.
  - intros cfg content url w0 a w1 _ Hcode. discriminate.
  - intros cfg content image visibility w0 a w1 _ Hcode. discriminate.
  - intros cfg p w0 a w1 H0 _. exact (postToThreads_within_limit H0). }
destruct Hbatch as (b & Hinv & Hres & _). rewrite Hres. exact Hinv.
Qed.

(** C10. [postToThreads] throws a SocialPostingError, before any network
    call (the world is untouched), when the trimmed text is longer than 500
    code units, and likewise when the text and the image are both absent. And
    in every batch that [crossPost] returns, an outcome for channel [t] whose
    content is longer than that carries an error and no post id; a
    [crossPost] call returns or throws. *)
Theorem threads_text_limit :
(forall (config : ThreadsConfig) (params : Threads.ThreadsPostParams) (w : World),
   (Threads.THREADS_TEXT_MAX_LENGTH < List.length (trim (Threads.content params)))%nat
   \/ (trim (Threads.content params) = []
       /\ present (trimOpt (Threads.imageUrl params)) = None) ->
   exists message,
     Threads.postToThreads config params w
     = (Throw (SocialPostingError message None NoDetails), w))
/\
(forall (this : SocialPostingClient) (params : CrossPostParams) (w w' : World)
        (r : CrossPostResult) (pr : PlatformResult) (c : jsstring),
   crossPost this params w = (Ok r, w') ->
   In pr (platformResults r) ->
   pr_code pr = t ->
   pr_content pr = Some c ->
   (Threads.THREADS_TEXT_MAX_LENGTH < List.length (trim c))%nat ->
   pr_error pr <> None /\ pr_postId pr = None)
/\
(forall (this : SocialPostingClient) (params : CrossPostParams) (w : World),
   fst (crossPost this params w) <> Hang).
Proof.
split; [|split].
- intros config params w. apply postToThreads_refuses.
- intros this params w w' r pr c Hrun Hin Hcode Hc Hlong.
  pose proof (crossPost_refuses_long_threads Hrun) as Hall.
  rewrite Forall_forall in Hall. exact (Hall pr Hin Hcode c Hc Hlong).
- intros this params w. apply crossPost_returns_or_throws.
Qed.

End ThreadsLimit.

Section OneOutcomePerProvider.
Import Request Client.

Variable this : SocialPostingClient.

(** The progress-done hook, when there is one, returns. *)
Hypothesis done_returns :
  forall label code pr, total (notifyDone (options this) label code pr).

Lemma reject_appends label code content failure error (E : Batch -> Prop) b :
wp (reject this label code content failure error)
   (fun _ b' => appended code b b') E b.
Proof.
unfold reject.
apply wp_bind, wp_modify, wp_bind, wp_modify.
apply wp_lift_total; [apply done_returns|].
intros _. eexists. split; reflexivity.
Qed.

Lemma complete_appends label code retries delayMs adapter content b :
wp (complete this label code retries delayMs
      (result <- adapter ;; posted label code content result))
   (fun _ b' => appended code b b')
   (fun s => forall e,
      wp (reject this label code content (errorMessage e) (errorMessage e))
         (fun _ b' => appended code b b') (fun _ => True) s) b.
Proof.
unfold complete. apply wp_bind.
eapply wp_lift;
  [apply ensures_attemptPost, ensures_posted, ensures_any| |].
- intros [pr attempt] (result & stamp & _ & Hpr). cbn [fst] in Hpr. subst pr.
  apply wp_bind, wp_modify, wp_bind, wp_modify.
  apply wp_lift_total; [apply done_returns|].
  intros _. eexists. split; reflexivity.
- intros e. apply reject_appends.
Qed.

Lemma platformStep_appends params image baseContent retries delayMs code b :
wp (platformStep this params image baseContent retries delayMs code)
   (fun _ b' => appended code b b') (fun _ => True) b.
Proof.
unfold platformStep.
apply wp_bind. eapply wp_lift; [apply ensures_any| |exact I].
intros content _.
apply wp_bind. eapply wp_lift; [apply ensures_any| |exact I].
intros _ _. cbv zeta.
apply wp_tryCatch.
assert (Hrej : forall failure error,
          wp (reject this (Utils.CODE_TO_PLATFORM_LABEL code) code content failure error)
             (fun _ b' => appended code b b')
             (fun s => forall e,
                wp (reject this (Utils.CODE_TO_PLATFORM_LABEL code) code content
                      (errorMessage e) (errorMessage e))
                   (fun _ b' => appended code b b') (fun _ => True) s) b)
  by (intros; apply reject_appends).
destruct code.
- destruct (meta (config this)) as [metaConfig|]; [|apply Hrej].
  destruct (nonempty (pageAccessToken metaConfig) && nonempty (pageId metaConfig));
    [|apply Hrej].
  destruct (present image) as [url|]; [|apply Hrej].
  apply complete_appends.
- destruct (meta (config this)) as [metaConfig|]; [|apply Hrej].
  destruct (nonempty (pageAccessToken metaConfig)
            && truthy (instagramBusinessAccountId metaConfig)); [|apply Hrej].
  destruct (present image) as [url|]; [|apply Hrej].
  apply complete_appends.
- destruct (linkedin (config this)) as [linkedInConfig|]; [|apply Hrej].
  destruct (nonempty (li_accessToken linkedInConfig)); [|apply Hrej].
  match goal with |- context [present ?a] => destruct (present a) as [author|] end;
    [|apply Hrej].
  apply complete_appends.
- match goal with |- context [match present ?u with _ => _ end] =>
    destruct (present u) as [threadsUser|] end; [|apply Hrej].
  match goal with |- context [match present ?u with _ => _ end] =>
    destruct (present u) as [threadsToken|] end; [|apply Hrej].
  apply complete_appends.
Qed.

Lemma forEach_appends params image baseContent retries delayMs codes :
forall b,
  wp (forEach codes (platformStep this params image baseContent retries delayMs))
     (fun _ b' => map pr_code (results b') = map pr_code (results b) ++ codes)
     (fun _ => True) b.
Proof.
induction codes as [|code codes IH]; intros b.
- apply wp_ret. symmetry. apply app_nil_r.
- cbn [forEach]. apply wp_bind.
  eapply wp_weaken; [apply platformStep_appends| |auto].
  intros u b' (pr & Hres & Hcode). cbv beta.
  eapply wp_weaken; [apply IH| |auto].
  intros u' b'' H. cbv beta in H |- *.
  rewrite H, Hres, map_app. cbn [map]. rewrite Hcode, <- app_assoc. reflexivity.
Qed.

(** When the progress-done hook returns, a batch that is returned has one
    outcome per requested provider, in request order. *)
Lemma crossPost_one_outcome_each params :
ensures (crossPost this params)
        (fun r => map pr_code (platformResults r) = postOn params).
Proof.
unfold crossPost.
eapply ensures_bind; [apply ensures_any|]. intros image _.
eapply ensures_bind.
- apply (ensures_withLocals
           (Q := fun _ b' => map pr_code (results b') = [] ++ postOn params)
           (E := fun _ => True)).
  apply (@forEach_appends params image (baseContentOf this params)
           (Z.max 0 (orElse (retries params) 0%Z))
           (Z.max 0 (orElse (retryDelayMs params) 1000%Z)) (postOn params)
           {| results := []; failures := []; highestAttempt := 1 |}).
- intros [u b] Hb. cbn [fst snd] in Hb. apply ensures_ret. exact Hb.
Qed.

End OneOutcomePerProvider.


Lemma batch_status_is_derived_witness :
let run := Client.crossPost Scenario.plainClient
             (Scenario.textPost [t; f] (lit "hello")) Scenario.threadsTextPublished in
let r := Scenario.returned Scenario.noBatch (fst run) in
run = (Ok r, snd run)
/\ map Client.pr_postId (Client.platformResults r) = [Some (lit "123"); None]
/\ List.length (Client.failed r) = 1%nat
/\ Client.batchStatus r = Client.StatusPartial
/\ (Client.batchStatus r = Client.StatusFull <-> Client.failed r = [])
/\ (Client.batchStatus r = Client.StatusFailed <->
    Client.failed r <> []
    /\ forall pr, In pr (Client.platformResults r) ->
                  truthy (Client.pr_postId pr) = false)
/\ (Client.batchStatus r = Client.StatusPartial <->
    Client.failed r <> []
    /\ exists pr, In pr (Client.platformResults r)
                  /\ truthy (Client.pr_postId pr) = true)
/\ Client.batchStatus r = deriveStatus (Client.platformResults r).
Proof.
intros run r.
assert (Hrun : run = (Ok r, snd run)) by (vm_compute; reflexivity).
split; [exact Hrun|].
split; [vm_compute; reflexivity|]. split; [vm_compute; reflexivity|].
split; [vm_compute; reflexivity|].
exact (proj2 (@batch_status_is_derived Scenario.plainClient
                (Scenario.textPost [t; f] (lit "hello"))
                Scenario.threadsTextPublished)
         (snd run) r Hrun).
Defined.

(** C2 as stated fails on the empty list: no outcome has a post id, and the
    status is [full], not [failed]. *)
Lemma empty_batch_is_full :
let run := Client.crossPost Scenario.plainClient (Scenario.textPost [] (lit "hello"))
             (Scenario.scripted []) in
fst run = Ok {| Client.platformResults := []; Client.failed := [];
                Client.batchStatus := Client.StatusFull;
                Client.maxAttempt := None |}
/\ (forall pr, In pr ([] : list Client.PlatformResult) ->
               truthy (Client.pr_postId pr) = false)
/\ Client.StatusFull <> Client.StatusFailed.
Proof.
split; [reflexivity|]. split; [intros pr []|discriminate].
Qed.

Lemma threads_text_limit_witness :
(Threads.THREADS_TEXT_MAX_LENGTH < List.length (trim Scenario.longText))%nat
/\ (exists message,
      Threads.postToThreads Scenario.threadsConfig
        {| Threads.content := Scenario.longText; Threads.imageUrl := None;
           Threads.altText := None; Threads.linkAttachment := None |}
        (Scenario.scripted [])
      = (Throw (SocialPostingError message None NoDetails), Scenario.scripted []))
/\ (let run := Client.crossPost Scenario.plainClient
                 (Scenario.textPost [t] Scenario.longText) (Scenario.scripted []) in
    let pr := Client.errorResult (lit "Threads") t
                (lit "Threads post text cannot exceed 500 characters")
                Scenario.longText in
    fst run = Ok {| Client.platformResults := [pr];
                    Client.failed :=
                      [{| Client.f_platform := lit "Threads";
                          Client.f_error :=
                            lit "Threads post text cannot exceed 500 characters" |}];
                    Client.batchStatus := Client.StatusFailed;
                    Client.maxAttempt := None |}
    /\ Client.pr_error pr <> None /\ Client.pr_postId pr = None).
Proof.
assert (Hlong : (Threads.THREADS_TEXT_MAX_LENGTH
                 < List.length (trim Scenario.longText))%nat)
  by (apply Nat.ltb_lt; vm_compute; reflexivity).
split; [exact Hlong|]. split.
- apply (proj1 threads_text_limit Scenario.threadsConfig
           {| Threads.content := Scenario.longText; Threads.imageUrl := None;
              Threads.altText := None; Threads.linkAttachment := None |}
           (Scenario.scripted [])).
  left. exact Hlong.
- intros run pr.
  assert (Hrun : fst run = Ok {| Client.platformResults := [pr];
                    Client.failed :=
                      [{| Client.f_platform := lit "Threads";
                          Client.f_error :=
                            lit "Threads post text cannot exceed 500 characters" |}];
                    Client.batchStatus := Client.StatusFailed;
                    Client.maxAttempt := None |})
    by (vm_compute; reflexivity).
  split; [exact Hrun|].
  refine (proj1 (proj2 threads_text_limit) Scenario.plainClient
            (Scenario.textPost [t] Scenario.longText) (Scenario.scripted [])
            (snd run) _ pr Scenario.longText _ _ eq_refl eq_refl Hlong).
  + pose proof (surjective_pairing run) as Hpair. rewrite Hrun in Hpair.
    exact Hpair.
  + left. reflexivity.
Defined.

(* ================================================================== *)
(** * Properties: reply batches                                         *)
(* ================================================================== *)

Section ReplyRouting.
Import Request Client.

Lemma attempt_routes {A} (m : M A) (k : A -> Replies -> Replies)
      (h : JsError -> Replies -> Replies) b w :
halts m ->
exists b' w',
  tryCatch (x <- lift m ;; modify (k x)) (fun e => modify (h e)) (b, w)
  = (Ok tt, (b', w'))
  /\ ((exists x, b' = k x b) \/ (exists e, b' = h e b)).
Proof.
intros Hm. specialize (Hm w). unfold tryCatch, bind, lift, modify. cbn [fst snd].
destruct (m w) as [[a|e|] w1]; cbn [fst snd] in *.
- exists (k a b), w1. split; [reflexivity|]. left. exists a. reflexivity.
- exists (h e b), w1. split; [reflexivity|]. right. exists e. reflexivity.
- congruence.
Qed.

Ltac skipped :=
  do 2 eexists; split; [reflexivity|]; split; [reflexivity|eexists; reflexivity].

Ltac attempted :=
  match goal with
  | |- exists b' w', tryCatch (bind (lift ?m) (fun x => modify (@?k x)))
                       (fun e => modify (@?h e)) (?b, ?w) = _ /\ _ =>
      let Hm := fresh in
      let Hrun := fresh in
      assert (Hm : halts m) by auto with halts nocore;
      destruct (@attempt_routes _ m k h b w Hm) as (b' & w' & Hrun & [[x ->]|[e ->]]);
      (do 2 eexists; split; [exact Hrun|]); [left|right]; eexists; reflexivity
  end.

(** One request goes to exactly one of the three lists: to [skipped], with
    no vendor call, when the check before the attempt fails, and to [results]
    or to [failed] when it passes. *)
Lemma replyStep_routes this req b w :
exists b' w',
  replyStep this req (b, w) = (Ok tt, (b', w'))
  /\ if attemptable this req
     then (exists x, b' = pushDone x b) \/ (exists x, b' = pushRejected x b)
     else w' = w /\ exists x, b' = pushSkipped x b.
Proof.
unfold replyStep, attemptable.
destruct (channel req) eqn:Hchannel; cbv zeta;
  [ destruct (meta (config this)) as [cfg|]; [|skipped];
    destruct (commentId req) as [target|]
  | destruct (meta (config this)) as [cfg|]; [|skipped];
    destruct (commentId req) as [target|]
  | destruct (linkedin (config this)) as [cfg|]; [|skipped];
    destruct (rq_postId req) as [target|]
  | destruct (threads (config this)) as [cfg|]; [|skipped];
    destruct (rq_postId req) as [target|] ];
  unfold present, truthy;
  try (rewrite andb_false_r; skipped);
  (destruct (nonempty target); [|rewrite andb_false_r; skipped]);
  rewrite andb_true_r;
  match goal with
  | |- context [if ?ready then _ else _] => destruct ready; [|skipped]
  end;
  attempted.
Qed.

(** A loop whose body always returns, returns. *)
Lemma forEach_returns {S A} (body : A -> Proc S unit) (xs : list A) :
(forall x sw, exists sw', body x sw = (Ok tt, sw')) ->
forall sw, exists sw', forEach xs body sw = (Ok tt, sw').
Proof.
intros Hbody. induction xs as [|x rest IH]; intros sw; cbn [forEach].
- exists sw. reflexivity.
- destruct (Hbody x sw) as (sw1 & Hrun). destruct (IH sw1) as (sw2 & Hrest).
  exists sw2. unfold bind. rewrite Hrun. exact Hrest.
Qed.

(** [replyToComments] always returns, and the status of what it returns is
    computed from [failed] and [results]: [skipped] plays no part. *)
Lemma replyToComments_returns this replies batchLimit w :
exists r w',
  replyToComments this replies batchLimit w = (Ok r, w')
  /\ rp_batchStatus r
     = statusOf (List.length (rp_failed r)) (List.length (rp_results r)).
Proof.
unfold replyToComments.
set (start := {| done := []; rejected := []; passedOver := [] |}).
destruct (@forEach_returns Replies _
            (fun batch => forEach batch (replyStep this))
            (rounds batchLimit replies))
  with (sw := (start, w)) as ([out w'] & Hrun).
{ intros batch sw. apply forEach_returns. intros req [b w0].
  destruct (replyStep_routes this req b w0) as (b' & w1 & Hstep & _).
  exists (b', w1). exact Hstep. }
eexists. exists w'. unfold bind, withLocals. rewrite Hrun. cbn. split; reflexivity.
Qed.
End ReplyRouting.

(* ================================================================== *)
(** * Properties: where the code departs from its own contract          *)
(* ================================================================== *)

(** C1 fails on the code. Threads is the one provider requested and its
    publish succeeds; the progress-done hook throws on the successful outcome,
    inside the [try] block and after the outcome was pushed, so the [catch]
    block pushes a second outcome for the same provider. The call returns two
    outcomes for one requested provider. *)
Theorem throwing_done_hook_doubles_the_outcome :
let params := Scenario.textPost [t] (lit "hello") in
let run := Client.crossPost Scenario.storingClient params
             Scenario.threadsTextPublished in
exists first second,
  fst run = Ok {| Client.platformResults := [first; second];
                  Client.failed :=
                    [{| Client.f_platform := lit "Threads";
                        Client.f_error := lit "database unavailable" |}];
                  Client.batchStatus := Client.StatusPartial;
                  Client.maxAttempt := None |}
  /\ Client.postOn params = [t]
  /\ Client.pr_code first = t /\ Client.pr_postId first = Some (lit "123")
  /\ Client.pr_code second = t
  /\ Client.pr_error second = Some (lit "database unavailable").
Proof.
intros params run. eexists. eexists.
split; [vm_compute; reflexivity|]. repeat split; reflexivity.
Qed.

(** C8 fails on the code for LinkedIn. A reply request on channel [l] that
    has credentials and a post id but no comment id is not skipped: the client
    calls the vendor (one request, a comment on the post) and the request ends
    in [results]. *)
Theorem linkedin_reply_without_comment_id_is_attempted :
let run := Client.replyToComments Scenario.plainClient
             [Scenario.replyWithoutComment] None in
let ran := run Scenario.commentAccepted in
Client.commentId Scenario.replyWithoutComment = None
/\ fst ran
   = Ok {| Client.rp_results :=
             [{| Client.rr_channel := lit "LinkedIn"; Client.rr_code := l;
                 Client.rr_commentId := None;
                 Client.rr_replyId := Some (lit "7001") |}];
           Client.rp_failed := [];
           Client.rp_skipped := [];
           Client.rp_batchStatus := Client.StatusFull |}
/\ map url (requests (trace (snd ran)))
   = [lit "https://api.linkedin.com/v2/socialActions/urn%3Ali%3Ashare%3A1/comments"].
Proof.
intros run ran. split; [reflexivity|]. split; vm_compute; reflexivity.
Qed.

(* ================================================================== *)
(** * Properties: transport and vendor errors                           *)
(* ================================================================== *)

Section TransportErrors.
Import Request.

(** X1. [fetchWithTimeout] always makes exactly one exchange with the
    network and returns or throws. It returns the response whenever the
    network gave one, whatever its status; it throws exactly when the
    transport failed, and then the error is a SocialPostingError with code
    NETWORK_ERROR, which [isRetryableError] accepts: a transport failure is
    always retried by [withRetries]. *)
Theorem transport_failure_is_retryable :
forall (req : Request) (w : World),
  match fetchWithTimeout req w with
  | (Ok r, w') =>
      w' = exchange req w /\ exists ms, net w (served w) = HttpReply ms r
  | (Throw e, w') =>
      w' = exchange req w
      /\ (exists ms cause, net w (served w) = NetworkFailure ms cause)
      /\ (exists message details,
            e = SocialPostingError message (Some NETWORK_ERROR) details)
      /\ isRetryableError e = true
  | (Hang, _) => False
  end.
Proof.
intros req w. unfold fetchWithTimeout, tryCatch, fetch.
destruct (net w (served w)) as [ms cause|ms r].
- unfold throw. split; [reflexivity|]. split; [eauto|]. split; [eauto|]. reflexivity.
- split; [reflexivity|]. eauto.
Qed.

Lemma ofN_digits n : Forall (fun c => is_digit c = true) (ofN n).
Proof.
unfold ofN.
assert (H : forall d, Forall (fun c => is_digit c = true)
                        (lit (NilEmpty.string_of_uint d))).
{ induction d; cbn [NilEmpty.string_of_uint lit]; constructor; auto. }
unfold NilZero.string_of_uint. destruct (N.to_uint n); try apply (H (_ u)); try apply H. cbn. constructor; auto.
Qed.

Lemma startsWith_digits_only p d :
p <> [] -> is_digit (last p 0%N) = false -> Forall (fun c => is_digit c = true) d ->
startsWith p d = false.
Proof.
intros Hp Hlast Hd. revert p Hp Hlast.
induction Hd as [|y d Hy _ IH]; intros [|x p] Hp Hlast; try congruence; [reflexivity|].
cbn [startsWith]. destruct p as [|x' p].
- cbn [last] in Hlast. destruct (N.eqb_spec x y) as [->|]; [congruence|reflexivity].
- rewrite IH; [apply andb_false_r|discriminate|exact Hlast].
Qed.

Lemma startsWith_before_digits p a d :
p <> [] -> is_digit (last p 0%N) = false -> Forall (fun c => is_digit c = true) d ->
startsWith p (a ++ d) = startsWith p a.
Proof.
intros Hp Hlast Hd. revert p Hp Hlast.
induction a as [|y a IH]; intros p Hp Hlast.
- cbn [app]. rewrite (startsWith_digits_only Hp Hlast Hd).
  destruct p; [congruence|reflexivity].
- destruct p as [|x p]; [congruence|]. cbn [app startsWith].
  destruct p as [|x' p]; [reflexivity|].
  rewrite IH; [reflexivity|discriminate|exact Hlast].
Qed.

Lemma includes_before_digits p a d :
p <> [] -> is_digit (last p 0%N) = false -> Forall (fun c => is_digit c = true) d ->
includes p (a ++ d) = includes p a.
Proof.
intros Hp Hlast Hd. induction a as [|y a IH].
- cbn [app]. destruct p as [|x p]; [congruence|].
  clear Hp. induction Hd as [|z d Hz Hd IHd]; [reflexivity|].
  cbn [includes]. rewrite IHd.
  rewrite (@startsWith_digits_only (x :: p) (z :: d)); auto; discriminate.
- pose proof (startsWith_before_digits (y :: a) Hp Hlast Hd) as Hhere.
  cbn [app includes] in *. rewrite IH, Hhere. reflexivity.
Qed.

Lemma lower_digits d :
Forall (fun c => is_digit c = true) d -> map toLowerAscii d = d.
Proof.
induction 1 as [|c d Hc _ IH]; [reflexivity|]. cbn [map]. rewrite IH. f_equal.
unfold toLowerAscii, is_digit in *.
destruct (65 <=? c)%N eqn:H1; [|reflexivity].
destruct (c <=? 90)%N eqn:H2; [|reflexivity].
apply andb_prop in Hc. destruct Hc as [_ Hc].
apply N.leb_le in H1, Hc. lia.
Qed.

(** The default message of an HTTP error reads like no transient fault. *)
Lemma default_message_is_plain name n :
In name [lit "Meta"; lit "Instagram"; lit "Threads"; lit "LinkedIn"] ->
mentionsTransientFault (name ++ lit " API error: " ++ ofN n) = false.
Proof.
intros Hname. unfold mentionsTransientFault, includes_ci.
rewrite app_assoc, map_app, (lower_digits (ofN_digits n)).
rewrite !includes_before_digits; try apply ofN_digits; try discriminate;
  try reflexivity.
cbn [In] in Hname.
destruct Hname as [<-|[<-|[<-|[<-|[]]]]]; vm_compute; reflexivity.
Qed.

(** X2. When a vendor answers outside 200-299 with a body that is not JSON,
    [throwIfNotOk] throws a SocialPostingError with code API_ERROR whose
    message is "<platform> API error: <status>" and whose details are the
    first 500 code units of the body; whether that error is retried depends
    on the body alone, not on the status: it is retried exactly when those
    500 code units hold 429 or 5dd as a word of their own. *)
Theorem http_error_retry_reads_the_body :
forall (name : jsstring) (r : Response) (b : Body) (w : World),
  In name [lit "Meta"; lit "Instagram"; lit "Threads"; lit "LinkedIn"] ->
  ok r = false ->
  parsed b = None ->
  exists e,
    throwIfNotOk r b name w = (Throw e, w)
    /\ e = SocialPostingError (name ++ lit " API error: " ++ ofN (status r))
             (Some API_ERROR) (DetailText (slice0 500 (text b)))
    /\ isRetryableError e = mentionsRetryableStatus (slice0 500 (text b)).
Proof.
intros name r b w Hname Hok Hparsed. eexists. split; [|split; [reflexivity|]].
- unfold throwIfNotOk. rewrite Hok, Hparsed.
  destruct (nonempty (text b)); reflexivity.
- cbn [isRetryableError]. change (JS.eqb API_ERROR NETWORK_ERROR) with false.
  change (JS.eqb API_ERROR API_ERROR) with true. cbv iota.
  rewrite (default_message_is_plain (status r) Hname), orb_false_r.
  destruct (slice0 500 (text b)); reflexivity.
Qed.

Lemma http_error_retry_reads_the_body_witness :
let r := {| status := 503; body := {| text := lit "upstream 5031 busy"; parsed := None |};
            headers := [] |} in
ok r = false
/\ exists e,
     throwIfNotOk r (body r) (lit "Meta") (Scenario.scripted []) = (Throw e, Scenario.scripted [])
     /\ e = SocialPostingError (lit "Meta API error: 503") (Some API_ERROR)
              (DetailText (lit "upstream 5031 busy"))
     /\ isRetryableError e = false.
Proof.
intros r. split; [reflexivity|].
destruct (@http_error_retry_reads_the_body (lit "Meta") r (body r) (Scenario.scripted []))
  as (e & Hrun & He & Hretry); [left; reflexivity|reflexivity|reflexivity|].
exists e. split; [exact Hrun|]. split; [exact He|]. rewrite Hretry. reflexivity.
Defined.
End TransportErrors.

(* ================================================================== *)
(** * Properties: the text utilities                                    *)
(* ================================================================== *)

Section Trimming.
Variable P : N -> Prop.

Lemma Forall_trimStart s : Forall P s -> Forall P (trimStart s).
Proof.
induction 1 as [|c s Hc Hs IH]; cbn [trimStart]; [constructor|].
destruct (is_space c); [exact IH|constructor; assumption].
Qed.

Lemma Forall_trim s : Forall P s -> Forall P (trim s).
Proof.
intros H. unfold trim, trimEnd.
apply Forall_rev, Forall_trimStart, Forall_rev, Forall_trimStart, H.
Qed.
End Trimming.

Lemma trimStart_head s :
match trimStart s with [] => True | c :: _ => is_space c = false end.
Proof.
induction s as [|c s IH]; cbn [trimStart]; [exact I|].
destruct (is_space c) eqn:Hc; [exact IH|exact Hc].
Qed.

Lemma trimStart_fixed s :
match s with [] => True | c :: _ => is_space c = false end -> trimStart s = s.
Proof. destruct s as [|c s]; [reflexivity|]. cbn [trimStart]. intros ->. reflexivity. Qed.

(** [trimStart] splits a string into white space and the rest. *)
Lemma trimStart_split s :
exists spaces, s = spaces ++ trimStart s /\ Forall (fun c => is_space c = true) spaces.
Proof.
induction s as [|c s (spaces & Hs & Hall)]; [exists []; split; [reflexivity|constructor]|].
cbn [trimStart]. destruct (is_space c) eqn:Hc.
- exists (c :: spaces). split; [cbn; congruence|constructor; assumption].
- exists []. split; [reflexivity|constructor].
Qed.

Lemma trimEnd_split s :
exists spaces, s = trimEnd s ++ spaces /\ Forall (fun c => is_space c = true) spaces.
Proof.
unfold trimEnd. destruct (trimStart_split (rev s)) as (spaces & Hs & Hall).
exists (rev spaces). split; [|apply Forall_rev; exact Hall].
rewrite <- rev_app_distr, <- Hs, rev_involutive. reflexivity.
Qed.

Lemma trimEnd_last s :
match trimEnd s with [] => True | _ :: _ => is_space (last (trimEnd s) 0%N) = false end.
Proof.
unfold trimEnd. pose proof (trimStart_head (rev s)) as H.
destruct (trimStart (rev s)) as [|c t]; [exact I|].
cbn [rev]. destruct (rev t ++ [c]) eqn:E; [exact I|]. rewrite <- E, last_last. exact H.
Qed.

Lemma trimEnd_fixed s :
match s with [] => True | _ :: _ => is_space (last s 0%N) = false end -> trimEnd s = s.
Proof.
intros H. unfold trimEnd.
rewrite trimStart_fixed; [apply rev_involutive|].
destruct s as [|c s] using rev_ind; [exact I|].
rewrite rev_app_distr. cbn [rev app].
destruct (s ++ [c]) eqn:E; [destruct s; discriminate|]. rewrite <- E, last_last in H.
exact H.
Qed.

Lemma trimEnd_head s :
match s with [] => True | c :: _ => is_space c = false end ->
match trimEnd s with [] => True | c :: _ => is_space c = false end.
Proof.
intros H. destruct (trimEnd_split s) as (spaces & Hs & _).
destruct (trimEnd s) as [|c t]; [exact I|]. rewrite Hs in H. exact H.
Qed.

Lemma trim_is_trimmed s : trimmed (trim s).
Proof.
unfold trim. pose proof (trimEnd_head (trimStart_head s)) as Hhead.
pose proof (trimEnd_last (trimStart s)) as Hlast. unfold trimmed.
destruct (trimEnd (trimStart s)); [exact I|]. split; assumption.
Qed.

Lemma trim_fixed s : trimmed s -> trim s = s.
Proof.
intros H. unfold trim. destruct s as [|c s]; [reflexivity|]. destruct H as [Hc Hl].
rewrite trimStart_fixed by exact Hc. apply trimEnd_fixed. exact Hl.
Qed.

Section Sanitizing.
Import Utils.

Lemma replaceCRLF_cons c r :
replaceCRLF (c :: r)
= if N.eqb c 13 then
    match r with
    | d :: r' => if N.eqb d 10 then 10%N :: replaceCRLF r' else c :: replaceCRLF r
    | [] => [c]
    end
  else c :: replaceCRLF r.
Proof.
destruct (N.eqb_spec c 13) as [->|Hc].
- destruct r as [|d r']; [reflexivity|].
  destruct (N.eqb_spec d 10) as [->|Hd]; [reflexivity|].
  destruct d as [|p]; [reflexivity|].
  do 4 (try (destruct p as [p|p|]; try reflexivity)); congruence.
- destruct c as [|p]; [reflexivity|].
  do 4 (try (destruct p as [p|p|]; try reflexivity)); congruence.
Qed.

Lemma replaceCRLF_keeps (P : N -> Prop) s :
P 10%N -> Forall P s -> Forall P (replaceCRLF s).
Proof.
intros H10. remember (List.length s) as n eqn:Hn. revert s Hn.
induction n as [n IH] using lt_wf_ind. intros s Hn Hs.
destruct s as [|c r]; [constructor|]. rewrite replaceCRLF_cons.
inversion Hs as [|? ? Hc Hr]; subst.
assert (Hrest : Forall P (replaceCRLF r)) by (apply (IH (List.length r)); cbn; auto; lia).
destruct (N.eqb c 13); [|constructor; assumption].
destruct r as [|d r']; [constructor; auto|].
destruct (N.eqb d 10); [|constructor; assumption].
constructor; [exact H10|]. inversion Hr; subst.
apply (IH (List.length r')); cbn; auto; lia.
Qed.

Lemma replaceCRLF_without_CR s :
Forall (fun c => c <> 13%N) s -> replaceCRLF s = s.
Proof.
induction 1 as [|c r Hc _ IH]; [reflexivity|]. rewrite replaceCRLF_cons.
destruct (N.eqb_spec c 13); [congruence|]. rewrite IH. reflexivity.
Qed.

Lemma replaceCR_clean s : Forall (fun c => c <> 13%N) (replaceCR s).
Proof.
unfold replaceCR. induction s as [|c s IH]; cbn [map]; constructor; [|exact IH].
destruct (N.eqb_spec c 13); [discriminate|assumption].
Qed.

Lemma replaceCR_keeps (P : N -> Prop) s : P 10%N -> Forall P s -> Forall P (replaceCR s).
Proof.
intros H10. unfold replaceCR. induction 1; cbn [map]; constructor; auto.
destruct (N.eqb _ 13); assumption.
Qed.

Lemma replaceCR_without_CR s : Forall (fun c => c <> 13%N) s -> replaceCR s = s.
Proof.
unfold replaceCR. induction 1 as [|c r Hc _ IH]; [reflexivity|]. cbn [map].
rewrite IH. destruct (N.eqb_spec c 13); [congruence|reflexivity].
Qed.

Lemma filter_all {A} (keep : A -> bool) s :
Forall (fun c => keep c = true) s -> filter keep s = s.
Proof. induction 1 as [|c r Hc _ IH]; [reflexivity|]. cbn. rewrite Hc, IH. reflexivity. Qed.

Lemma sanitizeContent_clean text : cleanText (sanitizeContent text).
Proof.
split; [|apply trim_is_trimmed].
assert (H1 : Forall (fun c => c <> 65533%N) (sanitizeContent text)).
{ apply Forall_trim, replaceCR_keeps, replaceCRLF_keeps; try discriminate.
  apply Forall_forall. intros c Hin. apply filter_In in Hin. destruct Hin as [_ Hc].
  destruct (N.eqb_spec c 65533); [discriminate|assumption]. }
assert (H2 : Forall (fun c => c <> 13%N) (sanitizeContent text))
  by apply Forall_trim, replaceCR_clean.
rewrite Forall_forall in *. intros c Hin. split; auto.
Qed.

(** X3. The text that [sanitizeContent] returns holds no replacement
    character U+FFFD and no carriage return, has no white space at either
    end, and is left as it is by a second pass. *)
Theorem sanitizeContent_is_clean_and_idempotent :
forall text : jsstring,
  let clean := sanitizeContent text in
  Forall (fun c => c <> 65533%N /\ c <> 13%N) clean
  /\ trimmed clean
  /\ sanitizeContent clean = clean.
Proof.
intros text clean. destruct (sanitizeContent_clean text) as [Hall H3].
fold clean in Hall, H3.
assert (H1 : Forall (fun c => c <> 65533%N) clean)
  by (eapply Forall_impl; [|exact Hall]; intros c [Hc _]; exact Hc).
assert (H2 : Forall (fun c => c <> 13%N) clean)
  by (eapply Forall_impl; [|exact Hall]; intros c [_ Hc]; exact Hc).
split; [exact Hall|]. split; [exact H3|].
unfold sanitizeContent at 1. rewrite filter_all.
- rewrite (replaceCRLF_without_CR H2), (replaceCR_without_CR H2). apply trim_fixed, H3.
- eapply Forall_impl; [|exact H1]. cbn. intros c Hc.
  destruct (N.eqb_spec c 65533); [congruence|reflexivity].
Qed.
End Sanitizing.

Section Hashtags.
Import Utils.

Lemma splitOn_pieces (sep : N -> bool) s :
forall cur inSep,
  Forall (fun c => sep c = false) cur ->
  Forall (Forall (fun c => sep c = false)) (splitOn sep s cur inSep).
Proof.
induction s as [|c r IH]; intros cur inSep Hcur; cbn [splitOn].
- constructor; [apply Forall_rev; exact Hcur|constructor].
- destruct (sep c) eqn:Hc.
  + destruct inSep; [apply IH; exact Hcur|].
    constructor; [apply Forall_rev; exact Hcur|]. apply IH. constructor.
  + apply IH. constructor; assumption.
Qed.

Lemma Forall_stripHash (P : N -> Prop) s : Forall P s -> Forall P (stripHash s).
Proof.
intros H. destruct s as [|c r]; [exact H|].
assert (Hr : Forall P r) by (inversion H; assumption).
unfold stripHash. destruct c as [|p]; [exact H|].
do 6 (try (destruct p as [p|p|]; try exact H)); exact Hr.
Qed.

(** X4. [normalizeHashtags] never returns an empty tag. From a string, no
    tag holds a separator (white space or a comma); from an array, there are
    at most as many tags as entries. *)
Theorem normalized_hashtags_are_tags :
(forall s : jsstring,
   Forall (fun tag => nonempty tag = true
                      /\ Forall (fun c => isSeparator c = false) tag)
     (normalizeHashtags (Some (TagText s))))
/\ (forall tags : list jsstring,
      Forall (fun tag => nonempty tag = true) (normalizeHashtags (Some (TagList tags)))
      /\ (List.length (normalizeHashtags (Some (TagList tags)))
          <= List.length tags)%nat).
Proof.
split.
- intros s. cbn [normalizeHashtags]. apply Forall_forall. intros tag Hin.
  apply filter_In in Hin. destruct Hin as [Hin Htag]. split; [exact Htag|].
  apply in_map_iff in Hin. destruct Hin as (piece & <- & Hpiece).
  apply Forall_stripHash, Forall_trim.
  pose proof (@splitOn_pieces isSeparator s [] false (Forall_nil _)) as Hall.
  rewrite Forall_forall in Hall. exact (Hall piece Hpiece).
- intros tags. cbn [normalizeHashtags]. split.
  + apply Forall_forall. intros tag Hin. apply filter_In in Hin. apply Hin.
  + etransitivity; [apply filter_length_le|]. rewrite length_map. reflexivity.
Qed.
End Hashtags.

(* ================================================================== *)
(** * Properties: deleting a post                                       *)
(* ================================================================== *)

Section Deleting.
Import Request Client.

Lemma newRequests_none w : newRequests w w = [].
Proof. apply newRequests_app. symmetry. apply app_nil_r. Qed.

Lemma newRequests_exchange q w : newRequests w (exchange q w) = [q].
Proof. apply newRequests_app, requests_exchange. Qed.

(** X5. [client.deletePost] never throws: it always returns a result. It
    makes at most one request, a DELETE, and it reports success exactly when
    it made that request and the vendor answered it with a 2xx status. *)
Theorem deletePost_never_throws :
forall (this : SocialPostingClient) (channel : PlatformCode) (postId : jsstring)
       (w : World),
  let run := deletePost this channel postId w in
  exists result,
    fst run = Ok result
    /\ (newRequests w (snd run) = []
        \/ exists q, newRequests w (snd run) = [q] /\ method q = DELETE)
    /\ (success result = true <->
        exists q ms response,
          newRequests w (snd run) = [q]
          /\ net w (served w) = HttpReply ms response /\ ok response = true).
Proof.
intros this channel postId w.
assert (Hnone : forall result,
          success result = false ->
          let run := (Ok result, w) in
          exists result0,
            fst run = Ok result0
            /\ (newRequests w (snd run) = []
                \/ exists q, newRequests w (snd run) = [q] /\ method q = DELETE)
            /\ (success result0 = true <->
                exists q ms response,
                  newRequests w (snd run) = [q]
                  /\ net w (served w) = HttpReply ms response /\ ok response = true)).
{ intros result Hresult run. exists result. cbn [fst snd run].
  rewrite newRequests_none, Hresult. split; [reflexivity|]. split; [left; reflexivity|].
  split; [discriminate|]. intros (q & ms & response & Hq & _). discriminate. }
assert (Hcall : forall (req : Request) (name : jsstring),
          method req = DELETE ->
          let run :=
            tryCatch
              (res <- fetchWithTimeout req ;;
               throwIfNotOk res (body res) name ;; ret deleted)
              (fun err => ret (notDeleted (errorMessage err))) w in
          exists result,
            fst run = Ok result
            /\ (newRequests w (snd run) = []
                \/ exists q, newRequests w (snd run) = [q] /\ method q = DELETE)
            /\ (success result = true <->
                exists q ms response,
                  newRequests w (snd run) = [q]
                  /\ net w (served w) = HttpReply ms response /\ ok response = true)).
{ intros req name Hmethod.
  cbv [tryCatch bind ret throw fetchWithTimeout fetch throwIfNotOk].
  destruct (net w (served w)) as [ms cause|ms r] eqn:Hreply; [|destruct (ok r) eqn:Hok];
    (eexists; cbn [fst snd]; split; [reflexivity|]; rewrite newRequests_exchange;
     split; [right; eexists; split; [reflexivity|exact Hmethod]|]).
  - split; [discriminate|]. intros (q & ms' & response & _ & Hr & _). discriminate.
  - split; [intros _; eauto 6|reflexivity].
  - split; [discriminate|]. intros (q & ms' & response & _ & Hr & Hok').
    injection Hr as <- <-. congruence. }
unfold deletePost.
destruct channel.
- destruct (meta (config this)) as [cfg|]; [|apply (Hnone (notDeleted _)); reflexivity].
  destruct (nonempty (pageAccessToken cfg)); [|apply (Hnone (notDeleted _)); reflexivity].
  unfold Meta.deletePost.
  destruct (negb _); [apply (Hnone (notDeleted _)); reflexivity|].
  unfold encoded. destruct (encodeURIComponent _) as [e|];
    [|apply (Hnone (notDeleted _)); reflexivity].
  repeat match goal with
         | |- context [bind (ret ?a) ?k] =>
             change (bind (ret a) k) with (k a); cbv beta iota
         end.
  match goal with
  | |- context [fetchWithTimeout ?req] =>
      destruct (Hcall req (lit "Meta") eq_refl) as (result & Hrun & Hreq & Hok)
  end.
  exists result. revert Hrun Hreq Hok.
  cbv [tryCatch bind ret throw fetchWithTimeout fetch throwIfNotOk].
  destruct (net w (served w)) as [ms cause|ms r]; [|destruct (ok r)]; auto.
- apply (Hnone (notDeleted _)); reflexivity.
- destruct (linkedin (config this)) as [cfg|]; [|apply (Hnone (notDeleted _)); reflexivity].
  destruct (nonempty (li_accessToken cfg)); [|apply (Hnone (notDeleted _)); reflexivity].
  unfold LinkedIn.deletePost.
  destruct (negb _); [apply (Hnone (notDeleted _)); reflexivity|].
  unfold encoded. destruct (encodeURIComponent _) as [e|];
    [|apply (Hnone (notDeleted _)); reflexivity].
  repeat match goal with
         | |- context [bind (ret ?a) ?k] =>
             change (bind (ret a) k) with (k a); cbv beta iota
         end.
  match goal with
  | |- context [fetchWithTimeout ?req] =>
      destruct (Hcall req (lit "LinkedIn") eq_refl) as (result & Hrun & Hreq & Hok)
  end.
  exists result. revert Hrun Hreq Hok.
  cbv [tryCatch bind ret throw fetchWithTimeout fetch throwIfNotOk].
  destruct (net w (served w)) as [ms cause|ms r]; [|destruct (ok r)]; auto.
- destruct (threads (config this)) as [cfg|]; [|apply (Hnone (notDeleted _)); reflexivity].
  destruct (nonempty (th_accessToken cfg)); [|apply (Hnone (notDeleted _)); reflexivity].
  unfold Threads.deletePost.
  destruct (negb _); [apply (Hnone (notDeleted _)); reflexivity|].
  unfold encoded. destruct (encodeURIComponent _) as [e|];
    [|apply (Hnone (notDeleted _)); reflexivity].
  repeat match goal with
         | |- context [bind (ret ?a) ?k] =>
             change (bind (ret a) k) with (k a); cbv beta iota
         end.
  match goal with
  | |- context [fetchWithTimeout ?req] =>
      destruct (Hcall req (lit "Threads") eq_refl) as (result & Hrun & Hreq & Hok)
  end.
  exists result. revert Hrun Hreq Hok.
  cbv [tryCatch bind ret throw fetchWithTimeout fetch throwIfNotOk].
  destruct (net w (served w)) as [ms cause|ms r]; [|destruct (ok r)]; auto.
Qed.
End Deleting.

(* ================================================================== *)
(** * Properties: reply batches, all requests                           *)
(* ================================================================== *)

Section ReplyBatches.
Import Request Client.

Lemma chunks_concat {A} (n : nat) :
(0 < n)%nat ->
forall (m : nat) (xs : list A),
  (List.length xs <= m * n)%nat ->
  List.concat (map (fun k => firstn n (skipn (k * n) xs)) (seq 0 m)) = xs.
Proof.
intros Hn. induction m as [|m IH]; intros xs Hlen.
- destruct xs; [reflexivity|cbn in Hlen; lia].
- cbn [seq map List.concat]. rewrite <- seq_shift, map_map.
  rewrite (map_ext (fun k => firstn n (skipn (S k * n) xs))
                   (fun k => firstn n (skipn (k * n) (skipn n xs)))).
  + rewrite IH; [apply firstn_skipn|]. rewrite length_skipn. lia.
  + intros k. rewrite skipn_skipn. do 2 f_equal. lia.
Qed.

Lemma batches_concat (limit : nat) (replies : list ReplyRequest) :
(0 < limit)%nat -> List.concat (batches limit replies) = replies.
Proof.
intros Hlimit. unfold batches. apply chunks_concat; [exact Hlimit|].
pose proof (Nat.div_mod_eq (List.length replies + limit - 1) limit) as Hdiv.
pose proof (Nat.mod_upper_bound (List.length replies + limit - 1) limit) as Hmod.
nia.
Qed.

Lemma forEach_app {S A} (xs ys : list A) (body : A -> Proc S unit) sw :
forEach (xs ++ ys) body sw = (forEach xs body ;; forEach ys body) sw.
Proof.
revert sw. induction xs as [|x xs IH]; intros sw; cbn [app forEach].
- reflexivity.
- unfold bind. destruct (body x sw) as [[[]|e|] sw1]; [|reflexivity|reflexivity].
  rewrite IH. reflexivity.
Qed.

Lemma forEach_concat {S A} (xss : list (list A)) (body : A -> Proc S unit) sw :
forEach xss (fun xs => forEach xs body) sw = forEach (List.concat xss) body sw.
Proof.
revert sw. induction xss as [|xs xss IH]; intros sw; cbn [List.concat forEach]; [reflexivity|].
rewrite forEach_app. unfold bind.
destruct (forEach xs body sw) as [[[]|e|] sw1]; [apply IH|reflexivity|reflexivity].
Qed.

(** A limit that is a number cuts the list into its batches; a limit that
    is [NaN] visits nothing. *)
Lemma rounds_concat (batchLimit : option Z) (replies : list ReplyRequest) :
List.concat (rounds (option_map Num batchLimit) replies) = replies.
Proof.
unfold rounds. destruct batchLimit as [z|]; cbn [option_map clamped];
  apply batches_concat; lia.
Qed.

Lemma rounds_NaN (replies : list ReplyRequest) :
List.concat (rounds (Some NaN) replies) = [].
Proof. destruct replies; reflexivity. Qed.

(** [replyToComments] runs its requests one after the other, whatever the
    batches. *)
Lemma replyToComments_flat this replies batchLimit w :
replyToComments this replies batchLimit w
= ('(_, out) <- withLocals {| done := []; rejected := []; passedOver := [] |}
                  (forEach (List.concat (rounds batchLimit replies)) (replyStep this)) ;;
   ret {| rp_results := done out; rp_failed := rejected out;
          rp_skipped := passedOver out;
          rp_batchStatus := statusOf (List.length (rejected out))
                              (List.length (done out)) |}) w.
Proof. unfold replyToComments, bind, withLocals. rewrite forEach_concat. reflexivity. Qed.

(** X6. The [batchLimit] option of [replyToComments] changes nothing that a
    caller can see as long as it is a number: with any two such limits, given
    or left out, the call makes the same requests in the same order and
    returns the same result. With [NaN] as the limit the call looks at no
    request at all: it makes no request and returns no result, no failure
    and no skipped entry, with status [full]. *)
Theorem batchLimit_does_not_change_the_outcome :
forall (this : SocialPostingClient) (replies : list ReplyRequest)
       (batchLimit otherLimit : option Z) (w : World),
  replyToComments this replies (option_map Num batchLimit) w
  = replyToComments this replies (option_map Num otherLimit) w
  /\ replyToComments this replies (Some NaN) w
     = (Ok {| rp_results := []; rp_failed := []; rp_skipped := [];
              rp_batchStatus := StatusFull |}, w).
Proof.
intros this replies batchLimit otherLimit w. split.
- rewrite !replyToComments_flat, !rounds_concat. reflexivity.
- rewrite replyToComments_flat, rounds_NaN. reflexivity.
Qed.

Lemma attempt_lands {A} (m : M A) (k : A -> Replies -> Replies)
      (h : JsError -> Replies -> Replies) b w :
halts m ->
exists b' w',
  tryCatch (x <- lift m ;; modify (k x)) (fun e => modify (h e)) (b, w)
  = (Ok tt, (b', w'))
  /\ ((exists x, b' = k x b) \/ (exists e, b' = h e b)).
Proof.
intros Hm. specialize (Hm w). unfold tryCatch, bind, lift, modify. cbn [fst snd].
destruct (m w) as [[a|e|] w1]; cbn [fst snd] in *; [| |congruence];
  do 2 eexists; (split; [reflexivity|]); [left|right]; eexists; reflexivity.
Qed.

#[local] Hint Resolve halts_meta_replyToComment halts_instagram_replyToComment
  halts_linkedin_replyToComment halts_replyToPost : halts.

Ltac passes_over :=
  do 2 eexists; split; [reflexivity|]; split; [reflexivity|];
  eexists; split; reflexivity.

Ltac lands :=
  match goal with
  | |- exists b' w', tryCatch (bind (lift ?m) (fun x => modify (@?k x)))
                       (fun e => modify (@?h e)) (?b, ?w) = _ /\ _ =>
      let Hm := fresh in
      let Hrun := fresh in
      assert (Hm : halts m) by auto with halts nocore;
      destruct (@attempt_lands _ m k h b w Hm) as (b' & w' & Hrun & [[x ->]|[e ->]]);
      (do 2 eexists; split; [exact Hrun|]); [left|right]; eexists; split; reflexivity
  end.

(** Where one request lands, with the channel code of the entry. *)
Lemma replyStep_lands this req b w :
exists b' w',
  replyStep this req (b, w) = (Ok tt, (b', w'))
  /\ if attemptable this req
     then (exists x, b' = pushDone x b /\ rr_code x = channel req)
          \/ (exists x, b' = pushRejected x b /\ ri_code x = channel req)
     else w' = w /\ exists x, b' = pushSkipped x b /\ ri_code x = channel req.
Proof.
unfold replyStep, attemptable.
destruct (channel req) eqn:Hchannel; cbv zeta;
  [ destruct (meta (config this)) as [cfg|]; [|passes_over];
    destruct (commentId req) as [target|]
  | destruct (meta (config this)) as [cfg|]; [|passes_over];
    destruct (commentId req) as [target|]
  | destruct (linkedin (config this)) as [cfg|]; [|passes_over];
    destruct (rq_postId req) as [target|]
  | destruct (threads (config this)) as [cfg|]; [|passes_over];
    destruct (rq_postId req) as [target|] ];
  unfold present, truthy;
  try (rewrite andb_false_r; passes_over);
  (destruct (nonempty target); [|rewrite andb_false_r; passes_over]);
  rewrite andb_true_r;
  match goal with
  | |- context [if ?ready then _ else _] => destruct ready; [|passes_over]
  end;
  lands.
Qed.

(** What the reply loop does to its three lists, request by request. *)
Lemma reply_loop_routes this (replies : list ReplyRequest) :
forall b w,
exists b' w',
  forEach replies (replyStep this) (b, w) = (Ok tt, (b', w'))
  /\ map ri_code (passedOver b')
     = map ri_code (passedOver b)
       ++ map channel (filter (fun q => negb (attemptable this q)) replies)
  /\ (List.length (done b') + List.length (rejected b')
      = List.length (done b) + List.length (rejected b)
        + List.length (filter (attemptable this) replies))%nat.
Proof.
induction replies as [|req rest IH]; intros b w.
- exists b, w. cbn. rewrite app_nil_r. split; [reflexivity|]. split; [reflexivity|lia].
- destruct (replyStep_lands this req b w) as (b1 & w1 & Hstep & Hroute).
  destruct (IH b1 w1) as (b' & w' & Hrest & Hskip & Hcount).
  exists b', w'. cbn [forEach]. unfold bind. rewrite Hstep.
  split; [exact Hrest|]. cbn [filter]. rewrite Hskip, Hcount.
  destruct (attemptable this req) eqn:Hready; cbn [negb].
  + destruct Hroute as [(x & -> & _)|(x & -> & _)];
      cbn [passedOver done rejected pushDone pushRejected];
      rewrite ?length_app; cbn [List.length]; split; [reflexivity|lia|reflexivity|lia].
  + destruct Hroute as (_ & x & -> & Hcode). cbn [passedOver done rejected pushSkipped].
    split; [|lia]. rewrite map_app, <- app_assoc. cbn [map app]. rewrite Hcode.
    reflexivity.
Qed.

(** X7. With a batch limit that is a number, given or left out,
    [replyToComments] always returns, and every request ends in exactly one
    of [results], [failed] and [skipped]: the skipped entries are, in order,
    the requests that fail the credential and id checks of their channel, and
    every other request is in [results] or in [failed]. *)
Theorem every_reply_request_is_accounted_for :
forall (this : SocialPostingClient) (replies : list ReplyRequest)
       (batchLimit : option Z) (w : World),
  exists r w',
    replyToComments this replies (option_map Num batchLimit) w = (Ok r, w')
    /\ map ri_code (rp_skipped r)
       = map channel (filter (fun q => negb (attemptable this q)) replies)
    /\ (List.length (rp_results r) + List.length (rp_failed r)
        = List.length (filter (attemptable this) replies))%nat
    /\ (List.length (rp_results r) + List.length (rp_failed r)
        + List.length (rp_skipped r) = List.length replies)%nat.
Proof.
intros this replies batchLimit w.
destruct (@reply_loop_routes this replies
            {| done := []; rejected := []; passedOver := [] |} w)
  as (b' & w' & Hloop & Hskip & Hcount).
cbn [passedOver done rejected List.length map app Nat.add] in Hskip, Hcount.
eexists. exists w'. split.
- rewrite replyToComments_flat, rounds_concat. unfold bind, withLocals.
  rewrite Hloop. reflexivity.
- cbn [rp_skipped rp_results rp_failed]. split; [exact Hskip|]. split; [exact Hcount|].
  rewrite Hcount. rewrite <- (length_map ri_code), Hskip, length_map.
  clear. induction replies as [|q rest IH]; [reflexivity|]. cbn [filter].
  destruct (attemptable this q); cbn [negb List.length]; lia.
Qed.

Lemma reply_loop_passes_over this (replies : list ReplyRequest) :
Forall (fun q => attemptable this q = false) replies ->
forall b w,
exists b',
  forEach replies (replyStep this) (b, w) = (Ok tt, (b', w))
  /\ done b' = done b /\ rejected b' = rejected b
  /\ map ri_code (passedOver b') = map ri_code (passedOver b) ++ map channel replies.
Proof.
induction 1 as [|req rest Hreq Hrest IH]; intros b w.
- exists b. cbn. rewrite app_nil_r. repeat split; reflexivity.
- destruct (replyStep_lands this req b w) as (b1 & w1 & Hstep & Hroute).
  rewrite Hreq in Hroute. destruct Hroute as (-> & x & -> & Hcode).
  destruct (IH (pushSkipped x b) w) as (b' & Hloop & Hdone & Hrejected & Hskipped).
  exists b'. cbn [forEach]. unfold bind. rewrite Hstep.
  split; [exact Hloop|]. split; [exact Hdone|]. split; [exact Hrejected|].
  rewrite Hskipped. cbn [pushSkipped passedOver map]. rewrite map_app, <- app_assoc.
  cbn [map app]. rewrite Hcode. reflexivity.
Qed.

(** X21. A batch of replies in which nothing could be attempted is reported
    as "full": when every request fails the credential and id checks of its
    channel and the batch limit is a number, given or left out,
    [replyToComments] makes no request, returns no result and no failure,
    lists every request in [skipped], in order, and sets the batch status to
    "full". *)
Theorem skipped_replies_make_a_full_batch :
forall (this : SocialPostingClient) (replies : list ReplyRequest)
       (batchLimit : option Z) (w : World),
  Forall (fun q => attemptable this q = false) replies ->
  exists r,
    replyToComments this replies (option_map Num batchLimit) w = (Ok r, w)
    /\ rp_results r = [] /\ rp_failed r = []
    /\ map ri_code (rp_skipped r) = map channel replies
    /\ rp_batchStatus r = StatusFull.
Proof.
intros this replies batchLimit w Hnone.
destruct (reply_loop_passes_over Hnone {| done := []; rejected := []; passedOver := [] |} w)
  as (b' & Hloop & Hdone & Hrejected & Hskipped).
exists {| rp_results := done b'; rp_failed := rejected b'; rp_skipped := passedOver b';
          rp_batchStatus := statusOf (List.length (rejected b')) (List.length (done b')) |}.
split.
- rewrite replyToComments_flat, rounds_concat. unfold bind, withLocals.
  rewrite Hloop. reflexivity.
- cbn [rp_results rp_failed rp_skipped rp_batchStatus].
  rewrite Hdone, Hrejected. repeat split; [exact Hskipped].
Qed.

Lemma skipped_replies_make_a_full_batch_witness :
exists r,
  replyToComments
    Scenario.bareClient
    [Scenario.replyWithoutComment; Scenario.replyWithoutComment] None
    Scenario.commentAccepted
  = (Ok r, Scenario.commentAccepted)
  /\ rp_results r = [] /\ rp_failed r = []
  /\ map ri_code (rp_skipped r) = [l; l]
  /\ rp_batchStatus r = StatusFull.
Proof.
apply (@skipped_replies_make_a_full_batch
         Scenario.bareClient
         [Scenario.replyWithoutComment; Scenario.replyWithoutComment] None
         Scenario.commentAccepted).
repeat constructor.
Defined.
End ReplyBatches.

(* ================================================================== *)
(** * Properties: the outcomes of a batch                               *)
(* ================================================================== *)

Section Outcomes.
Import Request Client.

Lemma ensures_throw {A} (e : JsError) (R : A -> Prop) : ensures (throw e) R.
Proof. intros w a w' H. discriminate. Qed.

Lemma ensures_tryCatch {A} (m : M A) (h : JsError -> M A) (R : A -> Prop) :
ensures m R -> (forall e, ensures (h e) R) -> ensures (tryCatch m h) R.
Proof.
intros Hm Hh w a w' H. unfold tryCatch in H.
destruct (m w) as [[x|e|] w1] eqn:Hrun; [| |discriminate].
- injection H as <- <-. exact (Hm _ _ _ Hrun).
- exact (Hh e _ _ _ H).
Qed.

Lemma present_nonempty o s : present o = Some s -> nonempty s = true.
Proof.
unfold present. destruct o as [x|]; [|discriminate].
destruct (nonempty x) eqn:Hx; [|discriminate]. intros [= <-]. exact Hx.
Qed.

Ltac ensuring :=
  repeat first
    [ apply ensures_throw
    | lazymatch goal with
      | |- ensures (bind _ _) _ => eapply ensures_bind; [apply ensures_any|intros ? _]
      | |- ensures (match ?x with _ => _ end) _ => destruct x eqn:?
      | |- ensures (let _ := _ in _) _ => cbv zeta
      end ].

Lemma postToMeta_id cfg params :
ensures (Meta.postToMeta cfg params) (fun res => nonempty (postId res) = true).
Proof.
unfold Meta.postToMeta. ensuring.
apply ensures_ret. cbn [postId].
match goal with
| H : match ?c with _ => _ end = Some _ |- _ =>
    destruct c as [[]|]; try discriminate; exact (present_nonempty H)
end.
Qed.

Lemma postToInstagram_id cfg content url :
ensures (Instagram.postToInstagram cfg content url)
  (fun res => nonempty (postId res) = true).
Proof.
unfold Instagram.postToInstagram, Instagram.publishContainer. ensuring.
apply ensures_ret. cbn [postId].
match goal with H : present _ = Some ?id |- nonempty ?id = true =>
  exact (present_nonempty H) end.
Qed.

Ltac named_id :=
  apply ensures_ret; intros ? [= <-];
  match goal with H : present _ = Some ?id |- nonempty ?id = true =>
    exact (present_nonempty H) end.

Lemma postToThreads_id cfg params :
ensures (Threads.postToThreads cfg params) (fun res => nonempty (postId res) = true).
Proof.
unfold Threads.postToThreads.
do 4 (match goal with |- ensures (if ?c then _ else _) _ =>
        destruct c; [apply ensures_throw|] end).
cbv zeta.
do 3 (eapply ensures_bind; [apply ensures_any|intros ? _]).
eapply (ensures_bind (R1 := fun o => forall id, o = Some id -> nonempty id = true)).
- destruct (present (stringProp _ _)) as [creationId|] eqn:Hcreated;
    [|apply ensures_ret; discriminate].
  destruct (truthy _); [|named_id].
  ensuring; named_id.
- intros [id|] Hid; [|apply ensures_throw].
  eapply ensures_bind; [apply ensures_any|intros link _].
  apply ensures_ret. exact (Hid id eq_refl).
Qed.

Lemma matchUgcPost_nonempty s m : LinkedIn.matchUgcPost s = Some m -> nonempty m = true.
Proof.
induction s as [|c r IH]; cbn [LinkedIn.matchUgcPost].
- destruct (LinkedIn.dropPrefix _ _) as [rest|]; [|discriminate].
  destruct (nonempty (LinkedIn.takeWhile _ _)); [|discriminate]. intros [= <-]. reflexivity.
- destruct (LinkedIn.dropPrefix _ _) as [rest|]; [|exact IH].
  destruct (nonempty (LinkedIn.takeWhile _ _)); [|exact IH]. intros [= <-]. reflexivity.
Qed.

Lemma matchUrn_nonempty s m : LinkedIn.matchUrn s = Some m -> nonempty m = true.
Proof.
induction s as [|c r IH]; cbn [LinkedIn.matchUrn].
- destruct (LinkedIn.dropPrefix _ _) as [rest|]; [|discriminate].
  destruct (LinkedIn.dropWhile _ _) as [|d after]; [discriminate|].
  destruct (N.eqb_spec d 58) as [->|Hd].
  + destruct (_ && _); [|discriminate]. intros [= <-]. reflexivity.
  + destruct d as [|p]; [discriminate|].
    do 6 (try (destruct p as [p|p|]; try discriminate)). congruence.
- destruct (LinkedIn.dropPrefix _ _) as [rest|]; [|exact IH].
  destruct (LinkedIn.dropWhile _ _) as [|d after]; [exact IH|].
  destruct (N.eqb_spec d 58) as [->|Hd].
  + destruct (_ && _); [|exact IH]. intros [= <-]. reflexivity.
  + destruct d as [|p]; [exact IH|].
    do 6 (try (destruct p as [p|p|]; try exact IH)). congruence.
Qed.

Lemma postToLinkedIn_id cfg content image visibility :
ensures (LinkedIn.postToLinkedIn cfg content image visibility)
  (fun res => nonempty (postId res) = true).
Proof.
unfold LinkedIn.postToLinkedIn.
destruct (negb _); [apply ensures_throw|].
destruct (present _) as [authorUrn|]; [|apply ensures_throw].
eapply ensures_bind; [apply ensures_any|intros asset _]. cbv zeta.
do 2 (eapply ensures_bind; [apply ensures_any|intros ? _]).
eapply (ensures_bind (R1 := fun o => forall id, o = Some id -> nonempty id = true)).
- apply ensures_tryCatch; [|intros e; apply ensures_ret; discriminate].
  eapply ensures_bind; [apply ensures_any|intros data _].
  destruct (present (stringProp data _)) eqn:Hid; [named_id|apply ensures_ret; discriminate].
- intros fromBody Hbody.
  match goal with
  | |- ensures (match ?found with _ => _ end) _ =>
      assert (Hfound : forall id, found = Some id -> nonempty id = true);
      [|destruct found as [id|]; [|apply ensures_throw]]
  end.
  + intros id. destruct fromBody as [x|]; [intros [= <-]; exact (Hbody x eq_refl)|].
    destruct (present (LinkedIn.orOpt _ _)) as [x|] eqn:Hheader;
      [intros [= <-]; exact (present_nonempty Hheader)|].
    destruct (present (LinkedIn.header _ _)) as [location|]; [|discriminate].
    destruct (LinkedIn.matchUgcPost location) as [m|] eqn:Hm.
    * intros [= <-]. exact (matchUgcPost_nonempty Hm).
    * apply matchUrn_nonempty.
  + destruct (startsWith _ id); [|apply ensures_ret; exact (Hfound id eq_refl)].
    eapply ensures_bind; [apply ensures_any|intros e _].
    apply ensures_ret. exact (Hfound id eq_refl).
Qed.

Lemma wellFormed_counts rs :
Forall wellFormed rs ->
(completedCount rs + List.length (filter hasError rs) = List.length rs)%nat.
Proof.
unfold completedCount.
induction 1 as [|pr rs Hpr _ IH]; [reflexivity|]. cbn [filter List.length].
unfold wellFormed in Hpr. unfold hasError at 1.
destruct (pr_error pr).
- destruct Hpr as (-> & _). cbn [truthy List.length]. lia.
- destruct Hpr as (-> & _). cbn [List.length]. lia.
Qed.

(** X8. In every batch that [crossPost] returns, an outcome is either a
    failure (an error and no post id, permalink, timestamp or attempt number)
    or a success (a non-empty post id, a timestamp and an attempt number, and
    no error); the successes and the entries of [failed] add up to the number
    of outcomes. *)
Theorem outcomes_are_well_formed :
forall (this : SocialPostingClient) (params : CrossPostParams) (w w' : World)
       (r : CrossPostResult),
  crossPost this params w = (Ok r, w') ->
  Forall wellFormed (platformResults r)
  /\ (completedCount (platformResults r) + List.length (failed r)
      = List.length (platformResults r))%nat.
Proof.
intros this params w w' r Hrun.
assert (Hbatch : exists b,
          (Forall wellFormed (results b) /\ failuresMatch b)
          /\ platformResults r = results b /\ failed r = failures b
          /\ batchStatus r = statusOf (List.length (failures b))
                                (completedCount (results b))).
{ refine (@crossPost_returns_batch
            (fun b => Forall wellFormed (results b) /\ failuresMatch b)
            (fun _ _ result => nonempty (postId result) = true)
            _ _ _ _ _ _ _ this params w r w' Hrun).
  - split; [constructor|reflexivity].
  - intros b label code failure error content [Hb Hmatch].
    split; [|apply failuresMatch_reject; exact Hmatch].
    unfold pushResult, pushFailure. cbn [results].
    apply Forall_app. split; [exact Hb|]. constructor; [|constructor].
    cbn. auto.
  - intros b label code content result stamp attempt [Hb Hmatch] Hgood.
    split; [|apply failuresMatch_complete; exact Hmatch].
    unfold pushResult, raiseAttempt. cbn [results].
    apply Forall_app. split; [exact Hb|]. constructor; [|constructor].
    cbn. split; [exact Hgood|]. split; discriminate.
  - intros; apply postToMeta_id.
  - intros; apply postToInstagram_id.
  - intros; apply postToLinkedIn_id.
  - intros; apply postToThreads_id. }
destruct Hbatch as (b & [Hinv Hmatch] & Hres & Hfail & _).
rewrite Hres, Hfail. split; [exact Hinv|].
rewrite Hmatch. apply wellFormed_counts, Hinv.
Qed.

Lemma outcomes_are_well_formed_witness :
let run := crossPost Scenario.plainClient
             (Scenario.textPost [t; f] (lit "hello")) Scenario.threadsTextPublished in
let r := Scenario.returned Scenario.noBatch (fst run) in
run = (Ok r, snd run)
/\ map pr_postId (platformResults r) = [Some (lit "123"); None]
/\ Forall wellFormed (platformResults r)
/\ (completedCount (platformResults r) + List.length (failed r)
    = List.length (platformResults r))%nat.
Proof.
intros run r.
assert (Hrun : run = (Ok r, snd run)) by (vm_compute; reflexivity).
split; [exact Hrun|]. split; [vm_compute; reflexivity|].
exact (@outcomes_are_well_formed Scenario.plainClient
         (Scenario.textPost [t; f] (lit "hello")) Scenario.threadsTextPublished
         (snd run) r Hrun).
Defined.
End Outcomes.

(* ================================================================== *)
(** * Properties: the text of an outcome                                *)
(* ================================================================== *)

Section CleanContent.
Import Request Utils Client.

Lemma ensures_prepareContent this params baseContent code :
ensures (prepareContent this params baseContent code) cleanText.
Proof.
unfold prepareContent. cbv zeta.
eapply ensures_bind; [apply ensures_any|]. intros adapted _.
apply ensures_ret, sanitizeContent_clean.
Qed.

Lemma sanitized_reject b label code failure error content :
cleanText content -> Forall sanitized (results b) ->
Forall sanitized (results (pushResult (errorResult label code error content)
                             (pushFailure label failure b))).
Proof.
intros Hc Hb. cbn [pushResult pushFailure results]. apply Forall_app. split; [exact Hb|].
constructor; [|constructor]. exists content. split; [reflexivity|exact Hc].
Qed.

Lemma wp_reject_clean this label code content failure error (E : Batch -> Prop) b :
cleanText content -> Forall sanitized (results b) ->
(forall s, Forall sanitized (results s) -> E s) ->
wp (reject this label code content failure error)
   (fun _ s => Forall sanitized (results s)) E b.
Proof.
intros Hc Hb HE. unfold reject.
apply wp_bind, wp_modify, wp_bind, wp_modify.
assert (Hpushed := sanitized_reject label code failure error Hc Hb).
eapply wp_lift; [apply ensures_any| |apply HE]; auto.
Qed.

Lemma wp_complete_clean this label code content retries delayMs (adapter : M PostResult) b :
cleanText content -> Forall sanitized (results b) ->
wp (complete this label code retries delayMs
      (result <- adapter ;; posted label code content result))
   (fun _ s => Forall sanitized (results s))
   (fun s => forall e, wp (reject this label code content (errorMessage e)
                             (errorMessage e))
                          (fun _ s' => Forall sanitized (results s'))
                          (fun s' => Forall sanitized (results s')) s) b.
Proof.
intros Hc Hb. unfold complete.
apply wp_bind.
eapply wp_lift;
  [apply ensures_attemptPost, ensures_posted; apply ensures_any| |].
- intros [pr attempt] (result & stamp & _ & Hpr). cbn [fst] in Hpr. subst pr.
  apply wp_bind, wp_modify, wp_bind, wp_modify.
  assert (Hpushed : Forall sanitized
            (results (pushResult
               (withAttempt
                  {| pr_platform := label; pr_code := code;
                     pr_postId := Some (postId result); pr_error := None;
                     pr_content := Some content; pr_permalink := permalink result;
                     pr_postedAt := Some stamp; pr_attempt := None |} attempt)
               (raiseAttempt attempt b)))).
  { cbn [pushResult raiseAttempt results]. apply Forall_app. split; [exact Hb|].
    constructor; [|constructor]. exists content. split; [reflexivity|exact Hc]. }
  eapply wp_lift; [apply ensures_any| |]; auto.
  intros e. apply wp_reject_clean; auto.
- intros e. apply wp_reject_clean; auto.
Qed.

Lemma platformStep_sanitizes this params image baseContent retries delayMs code b :
Forall sanitized (results b) ->
wp (platformStep this params image baseContent retries delayMs code)
   (fun _ s => Forall sanitized (results s))
   (fun s => Forall sanitized (results s)) b.
Proof.
intros Hb. unfold platformStep.
apply wp_bind. eapply wp_lift; [apply ensures_prepareContent| |exact Hb].
intros content Hc.
apply wp_bind. eapply wp_lift; [apply ensures_any| |exact Hb].
intros _ _. cbv zeta.
apply wp_tryCatch.
assert (Hrej : forall failure error,
          wp (reject this (CODE_TO_PLATFORM_LABEL code) code content failure error)
             (fun _ s => Forall sanitized (results s))
             (fun s => forall e,
                wp (reject this (CODE_TO_PLATFORM_LABEL code) code content
                      (errorMessage e) (errorMessage e))
                   (fun _ s' => Forall sanitized (results s'))
                   (fun s' => Forall sanitized (results s')) s) b).
{ intros failure error. apply wp_reject_clean; [exact Hc|exact Hb|].
  intros s Hs e. apply wp_reject_clean; auto. }
destruct code.
- destruct (meta (config this)) as [metaConfig|]; [|apply Hrej].
  destruct (nonempty (pageAccessToken metaConfig) && nonempty (pageId metaConfig));
    [|apply Hrej].
  destruct (present image) as [url|]; [|apply Hrej].
  apply wp_complete_clean; assumption.
- destruct (meta (config this)) as [metaConfig|]; [|apply Hrej].
  destruct (nonempty (pageAccessToken metaConfig)
            && truthy (instagramBusinessAccountId metaConfig)); [|apply Hrej].
  destruct (present image) as [url|]; [|apply Hrej].
  apply wp_complete_clean; assumption.
- destruct (linkedin (config this)) as [linkedInConfig|]; [|apply Hrej].
  destruct (nonempty (li_accessToken linkedInConfig)); [|apply Hrej].
  match goal with |- context [present ?a] => destruct (present a) as [author|] end;
    [|apply Hrej].
  apply wp_complete_clean; assumption.
- match goal with |- context [match present ?u with _ => _ end] =>
    destruct (present u) as [threadsUser|] end; [|apply Hrej].
  match goal with |- context [match present ?u with _ => _ end] =>
    destruct (present u) as [threadsToken|] end; [|apply Hrej].
  apply wp_complete_clean; assumption.
Qed.

(** X22. Every outcome in a batch that [crossPost] returns, success or
    failure, records the text prepared for its provider, and that text is
    sanitized whatever the content, suffix, hashtags and content adapter
    were: it holds no U+FFFD and no carriage return and has no white space at
    either end. *)
Theorem recorded_content_is_sanitized :
forall (this : SocialPostingClient) (params : CrossPostParams) (w w' : World)
       (r : CrossPostResult),
  crossPost this params w = (Ok r, w') ->
  Forall sanitized (platformResults r).
Proof.
intros this params w w' r Hrun.
refine (_ : (fun r => Forall sanitized (platformResults r)) r).
revert w r w' Hrun. change (ensures (crossPost this params)
                              (fun r => Forall sanitized (platformResults r))).
unfold crossPost.
eapply ensures_bind; [apply ensures_any|]. intros image _. cbv zeta.
eapply ensures_bind.
- apply (ensures_withLocals (Q := fun _ s => Forall sanitized (results s))
           (E := fun s => Forall sanitized (results s))).
  apply wp_forEach; [|constructor].
  intros code b Hb. apply platformStep_sanitizes. exact Hb.
- intros [u b] Hb. cbn [snd] in Hb. apply ensures_ret. exact Hb.
Qed.

Lemma recorded_content_is_sanitized_witness :
let run := crossPost Scenario.plainClient
             (Scenario.textPost [t; f] (lit "  hello  ")) Scenario.threadsTextPublished in
let r := Scenario.returned Scenario.noBatch (fst run) in
run = (Ok r, snd run)
/\ map pr_content (platformResults r) = [Some (lit "hello"); Some (lit "hello")]
/\ Forall sanitized (platformResults r).
Proof.
intros run r.
assert (Hrun : run = (Ok r, snd run)) by (vm_compute; reflexivity).
split; [exact Hrun|]. split; [vm_compute; reflexivity|].
exact (@recorded_content_is_sanitized Scenario.plainClient
         (Scenario.textPost [t; f] (lit "  hello  ")) Scenario.threadsTextPublished
         (snd run) r Hrun).
Defined.
End CleanContent.

(* ================================================================== *)
(** * Properties: providers that are not ready                          *)
(* ================================================================== *)

Section Silence.

Lemma silent_ret {A} (a : A) : silent (ret a).
Proof. intros w. reflexivity. Qed.

Lemma silent_throw {A} (e : JsError) : silent (@throw World A e).
Proof. intros w. reflexivity. Qed.

Lemma silent_bind {A B} (m : M A) (k : A -> M B) :
silent m -> (forall a, silent (k a)) -> silent (bind m k).
Proof.
intros Hm Hk w. unfold bind. specialize (Hm w).
destruct (m w) as [[a|e|] w1]; cbn [snd] in *; [|exact Hm|exact Hm].
rewrite (Hk a w1). exact Hm.
Qed.

Lemma silent_tryCatch {A} (m : M A) (h : JsError -> M A) :
silent m -> (forall e, silent (h e)) -> silent (tryCatch m h).
Proof.
intros Hm Hh w. unfold tryCatch. specialize (Hm w).
destruct (m w) as [[a|e|] w1]; cbn [snd] in *; [exact Hm| |exact Hm].
rewrite (Hh e w1). exact Hm.
Qed.

Lemma silent_call {A} name (fn : Closure A) : silent (call name fn).
Proof.
intros w. unfold call. destruct (fn w); cbn [snd record trace];
  rewrite requests_app; apply app_nil_r.
Qed.

Lemma silent_dateNow : silent dateNow.
Proof. intros w. reflexivity. Qed.

Lemma quiet_ret {S A} (Inv : S -> Prop) (a : A) : quiet Inv (ret a).
Proof. intros s w Hs. split; [reflexivity|exact Hs]. Qed.

Lemma quiet_bind {S A B} (Inv : S -> Prop) (m : Proc S A) (k : A -> Proc S B) :
quiet Inv m -> (forall a, quiet Inv (k a)) -> quiet Inv (bind m k).
Proof.
intros Hm Hk s w Hs. unfold bind. destruct (Hm s w Hs) as [Hreq Hinv].
destruct (m (s, w)) as [[a|e|] [s1 w1]]; cbn [fst snd] in *; [|auto|auto].
destruct (Hk a s1 w1 Hinv) as [Hreq' Hinv']. split; [congruence|exact Hinv'].
Qed.

Lemma quiet_tryCatch {S A} (Inv : S -> Prop) (m : Proc S A) (h : JsError -> Proc S A) :
quiet Inv m -> (forall e, quiet Inv (h e)) -> quiet Inv (tryCatch m h).
Proof.
intros Hm Hh s w Hs. unfold tryCatch. destruct (Hm s w Hs) as [Hreq Hinv].
destruct (m (s, w)) as [[a|e|] [s1 w1]]; cbn [fst snd] in *; [auto| |auto].
destruct (Hh e s1 w1 Hinv) as [Hreq' Hinv']. split; [congruence|exact Hinv'].
Qed.

Lemma quiet_lift {S A} (Inv : S -> Prop) (m : M A) : silent m -> quiet Inv (lift m).
Proof.
intros Hm s w Hs. unfold lift. cbn [fst snd]. specialize (Hm w).
destruct (m w) as [r w1]. cbn [fst snd] in *. split; [exact Hm|exact Hs].
Qed.

Lemma quiet_forEach {S A} (Inv : S -> Prop) (body : A -> Proc S unit) (xs : list A) :
(forall x, In x xs -> quiet Inv (body x)) -> quiet Inv (Client.forEach xs body).
Proof.
induction xs as [|x xs IH]; intros Hbody; cbn [Client.forEach].
- apply quiet_ret.
- apply quiet_bind; [apply Hbody; left; reflexivity|].
  intros _. apply IH. intros y Hy. apply Hbody. right. exact Hy.
Qed.
End Silence.

Section NotReady.
Import Request Client.

Lemma silent_notifyStart o label code : silent (notifyStart o label code).
Proof.
unfold notifyStart. destruct (progress o) as [[[hook|] done]|];
  first [apply silent_call|apply silent_ret].
Qed.

Lemma silent_notifyDone o label code pr : silent (notifyDone o label code pr).
Proof.
unfold notifyDone. destruct (progress o) as [[start [hook|]]|];
  first [apply silent_call|apply silent_ret].
Qed.

Lemma silent_prepareContent this params baseContent code :
silent (prepareContent this params baseContent code).
Proof.
unfold prepareContent. cbv zeta. apply silent_bind; [|intros; apply silent_ret].
destruct (contentAdapter (options this)) as [adapter|]; [|apply silent_ret].
destruct (nonempty _); [|apply silent_ret].
apply silent_bind; [apply silent_call|intros; apply silent_ret].
Qed.

Lemma quiet_reject this label code content failed error :
quiet failures_only (reject this label code content failed error).
Proof.
intros b w [Hb Hmatch]. unfold reject, bind, modify, lift. cbn [fst snd].
pose proof (silent_notifyDone (options this) label code
              (errorResult label code error content) w) as Hsilent.
assert (Hpushed : failures_only
                    (pushResult (errorResult label code error content)
                       (pushFailure label failed b))).
{ split; [|apply failuresMatch_reject; exact Hmatch].
  unfold pushResult. cbn [results]. apply Forall_app. split; [exact Hb|].
  constructor; [|constructor]. split; [reflexivity|discriminate]. }
destruct (notifyDone _ _ _ _ w) as [[[]|e|] w1]; cbn [fst snd] in *; auto.
Qed.

(** A provider that is not ready is not contacted, and gets a failure. *)
Lemma platformStep_not_ready this params image baseContent retries delayMs code :
ready this params image code = false ->
quiet failures_only (platformStep this params image baseContent retries delayMs code).
Proof.
intros Hready. unfold platformStep. cbv zeta.
apply quiet_bind; [apply quiet_lift, silent_prepareContent|intros content].
apply quiet_bind; [apply quiet_lift, silent_notifyStart|intros _].
apply quiet_tryCatch; [|intros e; apply quiet_reject].
unfold ready in Hready. destruct code.
- destruct (meta (config this)) as [cfg|]; [|apply quiet_reject].
  destruct (nonempty (pageAccessToken cfg) && nonempty (pageId cfg));
    [|apply quiet_reject].
  unfold present. destruct image as [url|]; [|apply quiet_reject].
  cbn [andb truthy] in Hready. rewrite Hready. apply quiet_reject.
- destruct (meta (config this)) as [cfg|]; [|apply quiet_reject].
  destruct (nonempty (pageAccessToken cfg) && truthy (instagramBusinessAccountId cfg));
    [|apply quiet_reject].
  unfold present. destruct image as [url|]; [|apply quiet_reject].
  cbn [andb truthy] in Hready. rewrite Hready. apply quiet_reject.
- destruct (linkedin (config this)) as [cfg|]; [|apply quiet_reject].
  destruct (nonempty (li_accessToken cfg)); [|apply quiet_reject].
  cbn [andb] in Hready. unfold present.
  match type of Hready with truthy ?a = false => destruct a as [author|] end;
    [|apply quiet_reject].
  cbn [truthy] in Hready. rewrite Hready. apply quiet_reject.
- unfold present.
  match type of Hready with truthy ?a && truthy ?b = false =>
    destruct a as [user|]; [|apply quiet_reject];
    destruct b as [token|]; cbn [truthy] in Hready;
    [|destruct (nonempty user); apply quiet_reject]
  end.
  destruct (nonempty user); [|apply quiet_reject].
  cbn [andb] in Hready. rewrite Hready. apply quiet_reject.
Qed.

(** X9. A provider whose credentials or image are missing is never
    contacted. When no image bytes are given and every requested provider
    fails the checks that [crossPost] makes before it calls an adapter, the
    call makes no request at all; every outcome it returns is a failure, and
    the batch status is "failed" unless no provider was requested. *)
Theorem providers_not_ready_are_not_contacted :
forall (this : SocialPostingClient) (params : CrossPostParams) (w : World),
  imageBuffer params = None ->
  (forall code, In code (postOn params) ->
                ready this params (trimOpt (imageUrl params)) code = false) ->
  let run := crossPost this params w in
  requests (trace (snd run)) = requests (trace w)
  /\ forall r, fst run = Ok r ->
               Forall failure (platformResults r)
               /\ (platformResults r <> [] -> batchStatus r = StatusFailed).
Proof.
intros this params w Hbuffer Hready run.
assert (Himage : resolveImage this params w = (Ok (trimOpt (imageUrl params)), w)).
{ unfold resolveImage, bufferGiven. rewrite Hbuffer. cbv zeta.
  unfold bind, ret. rewrite andb_false_r. reflexivity. }
set (start := {| results := []; failures := []; highestAttempt := 1 |}).
set (loop := forEach (postOn params)
               (platformStep this params (trimOpt (imageUrl params))
                  (baseContentOf this params)
                  (Z.max 0 (orElse (retries params) 0%Z))
                  (Z.max 0 (orElse (retryDelayMs params) 1000%Z)))).
assert (Hquiet : quiet failures_only loop).
{ apply quiet_forEach. intros code Hin. apply platformStep_not_ready, Hready, Hin. }
destruct (Hquiet start w (conj (Forall_nil _) eq_refl)) as [Hreq [Hinv Hmatch]].
assert (Hrun : run = match loop (start, w) with
                     | (Ok _, (b, w')) =>
                         (Ok {| platformResults := results b; failed := failures b;
                                batchStatus := statusOf (List.length (failures b))
                                                 (completedCount (results b));
                                maxAttempt := if (highestAttempt b >? 1)%Z
                                              then Some (highestAttempt b) else None |},
                          w')
                     | (Throw e, (_, w')) => (Throw e, w')
                     | (Hang, (_, w')) => (Hang, w')
                     end).
{ unfold run, crossPost. unfold bind at 1. rewrite Himage. cbv zeta.
  unfold bind, withLocals. fold start. fold loop.
  destruct (loop (start, w)) as [[[]|e|] [b w']]; reflexivity. }
rewrite Hrun. destruct (loop (start, w)) as [[[]|e|] [b w']]; cbn [fst snd] in *;
  (split; [exact Hreq|]); try discriminate.
intros r [= <-]. cbn [platformResults batchStatus]. split; [exact Hinv|].
intros Hsome. rewrite Hmatch.
assert (Hcounts : completedCount (results b) = 0%nat
                  /\ List.length (filter hasError (results b))
                     = List.length (results b)).
{ clear - Hinv. unfold completedCount.
  induction Hinv as [|pr rs [Hid Herr] _ [IH1 IH2]]; [split; reflexivity|].
  cbn [filter]. unfold hasError at 1. rewrite Hid. cbn [truthy].
  destruct (pr_error pr); [|congruence]. cbn [List.length]. split; [exact IH1|lia]. }
destruct Hcounts as [-> ->]. destruct (results b); [congruence|reflexivity].
Qed.
End NotReady.

(* ================================================================== *)
(** * Properties: a post on a Facebook page                             *)
(* ================================================================== *)

Section Replies.
Import Request.

(** A request whose reply is checked and parsed: the rest runs on the
    accepted reply, and anything else is thrown. *)
Lemma read_reply {B} (req : Request) (name ctx : jsstring)
      (k : Response -> Json -> M B) (w : World) :
exists e,
  (res <- fetchWithTimeout req ;;
   throwIfNotOk res (body res) name ;;
   data <- parseJson (body res) ctx ;;
   k res data) w
  = match net w (served w), accepted (net w (served w)) with
    | HttpReply _ r, Some data => k r data (exchange req w)
    | _, _ => (Throw e, exchange req w)
    end.
Proof.
unfold bind, fetchWithTimeout, tryCatch, fetch, accepted.
destruct (net w (served w)) as [ms cause|ms r];
  [eexists; unfold throw; reflexivity|].
unfold throwIfNotOk. destruct (ok r); [|eexists; unfold throw; reflexivity].
unfold ret, parseJson.
destruct (nonempty (text (body r))); [|exists (PlainError []); reflexivity].
destruct (parsed (body r)); [exists (PlainError []); reflexivity|].
eexists; unfold throw; reflexivity.
Qed.

Lemma fetchPermalink_run base id token fld ctx w :
Instagram.fetchPermalink base id token fld ctx w
= (Ok (present (field fld (net w (served w)))),
   exchange (getWith (base ++ lit "/" ++ id)
               [(lit "fields", lit fld); (lit "access_token", token)]) w).
Proof.
unfold Instagram.fetchPermalink, tryCatch, bind, fetchWithTimeout, tryCatch, fetch,
  field, accepted.
destruct (net w (served w)) as [ms cause|ms r]; [reflexivity|].
destruct (ok r); [|reflexivity].
unfold parseJson. destruct (nonempty (text (body r))); [|reflexivity].
destruct (parsed (body r)); reflexivity.
Qed.
End Replies.

Section Growing.
Import Request.

Lemma grows_silent {A} (m : M A) : silent m -> grows m.
Proof. intros Hm w. exists []. rewrite app_nil_r. apply Hm. Qed.

Lemma grows_bind {A B} (m : M A) (k : A -> M B) :
grows m -> (forall a, grows (k a)) -> grows (bind m k).
Proof.
intros Hm Hk w. unfold bind. destruct (Hm w) as [made Hmade].
destruct (m w) as [[a|e|] w1]; cbn [snd] in *; [|eauto|eauto].
destruct (Hk a w1) as [more Hmore]. exists (made ++ more).
rewrite Hmore, Hmade, app_assoc. reflexivity.
Qed.

Lemma grows_fetchWithTimeout req : grows (fetchWithTimeout req).
Proof.
intros w. exists [req]. rewrite fetchWithTimeout_world. apply requests_exchange.
Qed.

Lemma silent_throwIfNotOk r b name : silent (throwIfNotOk r b name).
Proof. intros w. unfold throwIfNotOk. destruct (ok r); reflexivity. Qed.

Lemma silent_parseJson b ctx : silent (parseJson b ctx).
Proof.
intros w. unfold parseJson.
destruct (nonempty (text b)); [destruct (parsed b)|]; reflexivity.
Qed.

Lemma silent_nameOr name prefix : silent (Meta.nameOr name prefix).
Proof. intros w. destruct name; reflexivity. Qed.

Lemma silent_targetingSpec t : silent (Meta.targetingSpec t).
Proof.
intros w. unfold Meta.targetingSpec.
destruct (Meta.toMetaTargetingSpec t); [reflexivity|].
match goal with |- context [if ?c then _ else _] => destruct c end; reflexivity.
Qed.

Ltac growing :=
  repeat first
    [ apply grows_fetchWithTimeout
    | apply grows_silent;
      first [apply silent_ret | apply silent_throw | apply silent_throwIfNotOk
            | apply silent_parseJson | apply silent_nameOr | apply silent_dateNow
            | apply silent_targetingSpec]
    | lazymatch goal with
      | |- grows (bind _ _) => apply grows_bind; [|intros ?]
      | |- grows (match ?x with _ => _ end) => destruct x
      | |- grows (let _ := _ in _) => cbv zeta
      end ].

Lemma grows_createMetaAd config page imageUrl message spec budget campaign adSet status :
grows (Meta.createMetaAd config page imageUrl message spec budget campaign adSet status).
Proof.
unfold Meta.createMetaAd, Meta.uploadMetaAdImage, Meta.createMetaCampaign,
  Meta.createMetaAdSet, Meta.createMetaAdCreative, Meta.createMetaAdRecord,
  Meta.createResource.
growing.
Qed.
End Growing.

Section FacebookPost.
Import Request.

Lemma nonempty_of_trim s : nonempty (trim s) = true -> nonempty s = true.
Proof. destruct s; [discriminate|reflexivity]. Qed.


Lemma present_Some o s : present o = Some s -> o = Some s /\ nonempty s = true.
Proof.
unfold present. destruct o as [x|]; [|discriminate].
destruct (nonempty x) eqn:Hx; [|discriminate]. intros [= <-]. auto.
Qed.

End FacebookPost.

(* ================================================================== *)
(** * Properties: the posts of a Facebook page                          *)
(* ================================================================== *)

Section PagePosts.
Import Request.

(** A request for a list, checked and parsed: the list is returned from a
    reply that holds one, and anything else is thrown. *)
Lemma read_listing (req : Request) (name ctx : jsstring) (w : World) :
exists e,
  (res <- fetchWithTimeout req ;;
   throwIfNotOk res (body res) name ;;
   data <- parseJson (body res) ctx ;;
   listOf data "data") w
  = (match listing (net w (served w)) with
     | Some items => Ok items
     | None => Throw e
     end, exchange req w).
Proof.
destruct (@read_reply _ req name ctx (fun _ data => listOf data "data") w) as [e He].
cbv beta in He. rewrite He. unfold listing.
destruct (accepted (net w (served w))) as [data|] eqn:Hdata.
- destruct (net w (served w)) as [ms cause|ms r]; [discriminate|].
  destruct data; first [exists e; reflexivity|exists (nullRead "data"); reflexivity].
- exists e. destruct (net w (served w)); reflexivity.
Qed.

Lemma readPagePosts_run config limit path w :
exists e,
  readPagePosts config limit path w
  = (match listing (net w (served w)) with
     | Some posts => Ok posts
     | None => Throw e
     end, exchange (Meta.pagePostsRequest config limit path) w).
Proof. apply read_listing. Qed.

End PagePosts.

(* ================================================================== *)
(** * Properties: the readers return or throw                           *)
(* ================================================================== *)

#[local] Hint Resolve halts_fetchWithTimeout halts_parseJson halts_throwIfNotOk
  halts_encoded halts_ret halts_throw halts_modify halts_dateNow : halts.

Section Readers.
Import Request.

Lemma halts_listOf data key : halts (listOf data key).
Proof. unfold listOf. halting. Qed.
#[local] Hint Resolve halts_listOf : halts.

Lemma halts_getUserMedia config limit : halts (Instagram.getUserMedia config limit).
Proof. unfold Instagram.getUserMedia. halting. Qed.

Lemma halts_getMediaComments config mediaId limit :
halts (Instagram.getMediaComments config mediaId limit).
Proof. unfold Instagram.getMediaComments. halting. Qed.

Lemma halts_getUserThreads config limit : halts (Threads.getUserThreads config limit).
Proof. unfold Threads.getUserThreads. halting. Qed.

Lemma halts_getRepliesForPost config postId limit :
halts (Threads.getRepliesForPost config postId limit).
Proof. unfold Threads.getRepliesForPost. halting. Qed.

Lemma halts_getPageRecentPosts config limit : halts (Meta.getPageRecentPosts config limit).
Proof. unfold Meta.getPageRecentPosts. halting. Qed.

Lemma halts_getPostComments config postId limit :
halts (Meta.getPostComments config postId limit).
Proof. unfold Meta.getPostComments. halting. Qed.

Lemma halts_postItems elements : halts (LinkedIn.postItems elements).
Proof.
induction elements as [|el rest IH]; cbn [LinkedIn.postItems]; [halting|].
destruct el; halting.
Qed.

Lemma halts_commentItems elements : halts (LinkedIn.commentItems elements).
Proof.
induction elements as [|el rest IH]; cbn [LinkedIn.commentItems]; [halting|].
destruct el; halting.
Qed.
#[local] Hint Resolve halts_postItems halts_commentItems : halts.

Lemma halts_linkedin_getRecentPosts config limit :
halts (LinkedIn.getRecentPosts config limit).
Proof. unfold LinkedIn.getRecentPosts. halting. Qed.

Lemma halts_linkedin_getPostComments config postId limit :
halts (LinkedIn.getPostComments config postId limit).
Proof. unfold LinkedIn.getPostComments. halting. Qed.

Lemma halts_isoOf createdAt : halts (Client.isoOf createdAt).
Proof. unfold Client.isoOf. halting. Qed.
#[local] Hint Resolve halts_isoOf : halts.

Lemma halts_readComments read raw : halts (Client.readComments read raw).
Proof.
induction raw as [|c rest IH]; cbn [Client.readComments]; [halting|].
destruct c; halting.
Qed.

Lemma halts_linkedInComments raw : halts (Client.linkedInComments raw).
Proof. induction raw as [|c rest IH]; cbn [Client.linkedInComments]; halting. Qed.

Lemma halts_commentsWhen b m : halts m -> halts (Client.commentsWhen b m).
Proof. intros Hm. unfold Client.commentsWhen. halting. Qed.

Lemma halts_orNoComments m : halts m -> halts (Client.orNoComments m).
Proof. intros Hm. unfold Client.orNoComments. halting. Qed.
End Readers.

#[local] Hint Resolve halts_getUserMedia halts_getMediaComments halts_getUserThreads
  halts_getRepliesForPost halts_getPageRecentPosts halts_getPostComments
  halts_linkedin_getRecentPosts halts_linkedin_getPostComments halts_isoOf
  halts_readComments halts_linkedInComments : halts.

(* ================================================================== *)
(** * Properties: recent posts, channel by channel                      *)
(* ================================================================== *)

(** [halting], for the loops and the comment lookups of the readers. *)
Ltac reading :=
  repeat first
    [ solve [auto with halts nocore]
    | lazymatch goal with
      | |- halts (bind _ _) => apply halts_bind; [|intros ?]
      | |- halts (tryCatch _ _) => apply halts_tryCatch; [|intros ?]
      | |- halts (lift _) => apply halts_lift
      | |- halts (withLocals _ _) => apply halts_withLocals
      | |- halts (Client.forEach _ _) => apply halts_forEach; intros ?
      | |- halts (Client.commentsWhen _ _) => apply halts_commentsWhen
      | |- halts (Client.orNoComments _) => apply halts_orNoComments
      | |- halts (match ?x with _ => _ end) => destruct x
      | |- halts (let _ := _ in _) => cbv zeta
      end ].

Section RecentPosts.
Import Request Utils Client.

Lemma halts_recentStep this limit inc climit code :
halts (recentStep this limit inc climit code).
Proof. unfold recentStep. destruct code; reading. Qed.

Lemma ensures_commentsWhen inc m :
ensures (commentsWhen inc m) (fun c => c <> None <-> inc = true).
Proof.
intros w c w'. unfold commentsWhen. destruct inc.
- unfold bind. destruct (m w) as [[a| |] w1]; try discriminate.
  intros [= <- _]. split; [reflexivity|discriminate].
- intros [= <- _]. split; [intros H; contradiction H; reflexivity|discriminate].
Qed.

Lemma gathering_start code inc r : gathering code inc r r.
Proof. exists []. rewrite app_nil_r. repeat split. constructor. Qed.

Lemma gathering_push code inc r r' post :
gathering code inc r r' -> channelPost code inc post ->
gathering code inc r (pushPost post r').
Proof.
intros (posts & Hf & Hp & Hall) Hpost. exists (posts ++ [post]).
cbn [pushPost found problems]. rewrite Hf, app_assoc. repeat split; [exact Hp|].
apply Forall_app. split; [exact Hall|]. constructor; [exact Hpost|constructor].
Qed.

Lemma gathering_added code inc r r' : gathering code inc r r' -> added code inc r r'.
Proof.
intros (posts & Hf & Hp & Hall). exists (posts, []). cbn [fst snd].
rewrite app_nil_r. repeat split; [exact Hf|exact Hp|exact Hall|constructor|cbn; lia].
Qed.

Lemma gathering_failed code inc r r' message :
gathering code inc r r' ->
added code inc r (pushError (CODE_TO_PLATFORM_LABEL code) code message r').
Proof.
intros (posts & Hf & Hp & Hall).
exists (posts, [{| ce_platform := CODE_TO_PLATFORM_LABEL code; ce_code := code;
                   ce_error := message |}]).
cbn [fst snd pushError found problems]. rewrite Hp.
repeat split; [exact Hf|exact Hall| |cbn; lia].
constructor; [split; reflexivity|constructor].
Qed.

Ltac collects :=
  lazymatch goal with
  | |- wp (bind (lift (commentsWhen _ _)) _) _ _ _ =>
      apply wp_bind;
      eapply wp_lift; [apply ensures_commentsWhen| |assumption];
      intros ? ?
  end.

Lemma wp_recentStep this limit inc climit code r :
wp (recentStep this limit inc climit code)
   (fun _ r' => added code inc r r') (fun _ => False) r.
Proof.
unfold recentStep. apply wp_tryCatch.
assert (Hmissing : forall message,
  wp (modify (pushError (CODE_TO_PLATFORM_LABEL code) code message))
     (fun _ r' => added code inc r r')
     (fun r' => forall e,
        wp (modify (pushError (CODE_TO_PLATFORM_LABEL code) code (errorMessage e)))
           (fun _ r'' => added code inc r r'') (fun _ => False) r') r).
{ intros message. apply wp_modify. apply gathering_failed, gathering_start. }
assert (Hloop : forall A (raw : list A) body,
  (forall x s, gathering code inc r s ->
     wp (body x) (fun _ => gathering code inc r) (gathering code inc r) s) ->
  wp (forEach raw body)
     (fun _ r' => added code inc r r')
     (fun r' => forall e,
        wp (modify (pushError (CODE_TO_PLATFORM_LABEL code) code (errorMessage e)))
           (fun _ r'' => added code inc r r'') (fun _ => False) r') r).
{ intros A raw body Hbody.
  eapply wp_weaken; [apply wp_forEach; [exact Hbody|apply gathering_start]| |].
  - intros ? s Hs. apply gathering_added, Hs.
  - intros s Hs e. apply wp_modify. apply gathering_failed, Hs. }
assert (Hlist : forall A (m : M (list A)) body,
  (forall x s, gathering code inc r s ->
     wp (body x) (fun _ => gathering code inc r) (gathering code inc r) s) ->
  wp (bind (lift m) (fun raw => forEach raw body))
     (fun _ r' => added code inc r r')
     (fun r' => forall e,
        wp (modify (pushError (CODE_TO_PLATFORM_LABEL code) code (errorMessage e)))
           (fun _ r'' => added code inc r r'') (fun _ => False) r') r).
{ intros A m body Hbody. apply wp_bind.
  eapply wp_lift; [apply ensures_any| |].
  - intros raw ?. apply Hloop, Hbody.
  - intros e. apply wp_modify. apply gathering_failed, gathering_start. }
destruct code.
- destruct (meta (config this)) as [metaConfig|]; [|apply Hmissing].
  destruct (nonempty (pageAccessToken metaConfig) && nonempty (pageId metaConfig));
    [|apply Hmissing].
  apply Hlist. intros p s Hs. destruct p; try (intros w; exact Hs);
    (collects; apply wp_modify, gathering_push;
       [assumption|split; [reflexivity|split; [reflexivity|assumption]]]).
- destruct (meta (config this)) as [metaConfig|]; [|apply Hmissing].
  destruct (nonempty (pageAccessToken metaConfig)
            && truthy (instagramBusinessAccountId metaConfig)); [|apply Hmissing].
  apply Hlist. intros p s Hs. destruct p; try (intros w; exact Hs);
    (collects; apply wp_modify, gathering_push;
       [assumption|split; [reflexivity|split; [reflexivity|assumption]]]).
- destruct (linkedin (config this)) as [linkedInConfig|]; [|apply Hmissing].
  destruct (nonempty (li_accessToken linkedInConfig)); [|apply Hmissing].
  apply Hlist. intros p s Hs. collects. apply wp_bind.
  eapply wp_lift; [apply ensures_any| |assumption].
  intros stamp ?. apply wp_modify, gathering_push;
    [assumption|split; [reflexivity|split; [reflexivity|assumption]]].
- destruct (threads (config this)) as [threadsConfig|]; [|apply Hmissing].
  destruct (nonempty (userId threadsConfig) && nonempty (th_accessToken threadsConfig));
    [|apply Hmissing].
  apply Hlist. intros p s Hs. destruct p; try (intros w; exact Hs);
    (collects; apply wp_modify, gathering_push;
       [assumption|split; [reflexivity|split; [reflexivity|assumption]]]).
Qed.

Lemma recentStep_run this limit inc climit code r w :
exists r' w', recentStep this limit inc climit code (r, w) = (Ok tt, (r', w'))
              /\ added code inc r r'.
Proof.
pose proof (wp_recentStep this limit inc climit code r w) as Hwp.
pose proof (@halts_recentStep this limit inc climit code (r, w)) as Hhalts.
destruct (recentStep this limit inc climit code (r, w)) as [[[]|e|] [r' w']];
  [|contradiction|contradiction Hhalts; reflexivity].
exists r', w'. split; [reflexivity|exact Hwp].
Qed.

Lemma channels_run this limit inc climit codes : forall r w,
exists r' w' blocks,
  forEach codes (recentStep this limit inc climit) (r, w) = (Ok tt, (r', w'))
  /\ Forall2 (channelBlock inc) codes blocks
  /\ found r' = found r ++ List.concat (map fst blocks)
  /\ problems r' = problems r ++ List.concat (map snd blocks).
Proof.
induction codes as [|code rest IH]; intros r w.
- exists r, w, []. cbn. rewrite !app_nil_r. repeat split. constructor.
- destruct (recentStep_run this limit inc climit code r w)
    as (r1 & w1 & Hstep & block & Hf & Hp & Hblock).
  destruct (IH r1 w1) as (r' & w' & blocks & Hrest & Hall & Hf' & Hp').
  exists r', w', (block :: blocks). cbn [forEach]. unfold bind. rewrite Hstep.
  split; [exact Hrest|]. split; [constructor; assumption|].
  cbn [map List.concat]. rewrite Hf', Hp', Hf, Hp, <- !app_assoc. split; reflexivity.
Qed.

(** X13. [getRecentPosts] always returns: the failure of a channel is never
    thrown. The posts and the errors come channel by channel in the order of
    [channels]: every requested channel contributes posts that carry its code
    and label, and at most one error with its code and label; a post has a
    comment list exactly when [includeComments] is set. *)
Theorem recent_posts_come_channel_by_channel this params w :
exists result w' blocks,
  getRecentPosts this params w = (Ok result, w')
  /\ Forall2 (channelBlock (orElse (includeComments params) false))
             (orElse (channels params) []) blocks
  /\ gr_posts result = List.concat (map fst blocks)
  /\ gr_errors result = List.concat (map snd blocks).
Proof.
unfold getRecentPosts. cbv zeta.
destruct (channels_run this (Z.min 100 (Z.max 1 (orElse (limitPerChannel params) 5%Z)))
            (orElse (includeComments params) false)
            (Z.min 100 (Z.max 1 (orElse (commentsLimitPerPost params) 20%Z)))
            (orElse (channels params) []) {| found := []; problems := [] |} w)
  as (r' & w' & blocks & Hrun & Hall & Hf & Hp).
exists {| gr_posts := found r'; gr_errors := problems r' |}, w', blocks.
unfold bind, withLocals. rewrite Hrun. cbn [fst snd gr_posts gr_errors].
repeat split; assumption.
Qed.
End RecentPosts.

Section Unreadable.
Import Request Utils Client.

Lemma recentStep_unreadable this limit inc climit code r w :
readable this code = false ->
recentStep this limit inc climit code (r, w)
= (Ok tt, ({| found := found r; problems := problems r ++ [missingConfig code] |}, w)).
Proof.
intros Hno. unfold recentStep, readable in *.
destruct code.
- destruct (meta (config this)) as [metaConfig|]; [rewrite Hno|]; reflexivity.
- destruct (meta (config this)) as [metaConfig|]; [rewrite Hno|]; reflexivity.
- destruct (linkedin (config this)) as [linkedInConfig|]; [rewrite Hno|]; reflexivity.
- destruct (threads (config this)) as [threadsConfig|]; [rewrite Hno|]; reflexivity.
Qed.

Lemma channels_unreadable this limit inc climit codes : forall r w,
Forall (fun code => readable this code = false) codes ->
forEach codes (recentStep this limit inc climit) (r, w)
= (Ok tt, ({| found := found r; problems := problems r ++ map missingConfig codes |}, w)).
Proof.
induction codes as [|code rest IH]; intros r w Hall.
- cbn. rewrite app_nil_r. destruct r; reflexivity.
- inversion Hall as [|? ? Hcode Hrest]; subst. cbn [forEach]. unfold bind.
  rewrite (recentStep_unreadable _ _ _ _ _ Hcode), (IH _ _ Hrest).
  cbn [found problems map]. rewrite <- app_assoc. reflexivity.
Qed.

(** X14. Channels whose credentials are absent from the configuration are
    reported, not contacted: when that holds for every requested channel,
    [getRecentPosts] leaves the world as it is (no request is made) and
    returns no post and one "... config missing" error per requested channel,
    in order. *)
Theorem channels_without_credentials_are_reported :
forall (this : SocialPostingClient) (params : GetRecentPostsParams) (w : World),
  Forall (fun code => readable this code = false) (orElse (channels params) []) ->
  getRecentPosts this params w
  = (Ok {| gr_posts := [];
           gr_errors := map missingConfig (orElse (channels params) []) |}, w).
Proof.
intros this params w Hall. unfold getRecentPosts. cbv zeta.
unfold bind, withLocals. rewrite (channels_unreadable _ _ _ _ _ Hall). reflexivity.
Qed.

Lemma channels_without_credentials_are_reported_witness :
getRecentPosts Scenario.bareClient (Scenario.recentOn [f; t; f; l; i])
  Scenario.threadsTextPublished
= (Ok {| gr_posts := [];
         gr_errors := map missingConfig [f; t; f; l; i] |},
   Scenario.threadsTextPublished).
Proof.
apply (@channels_without_credentials_are_reported Scenario.bareClient
         (Scenario.recentOn [f; t; f; l; i]) Scenario.threadsTextPublished).
repeat constructor.
Defined.
End Unreadable.

(* ================================================================== *)
(** * Properties: recent posts and their comments                       *)
(* ================================================================== *)

Section Lookups.
Import Request Utils Client.

(** A lookup whose failure is swallowed always gives comments. *)
Lemma orNoComments_run m w :
halts m -> exists comments w', orNoComments m w = (Ok comments, w').
Proof.
intros Hm. unfold orNoComments, tryCatch. specialize (Hm w).
destruct (m w) as [[a|e|] w1];
  [do 2 eexists; reflexivity|do 2 eexists; reflexivity|contradiction Hm; reflexivity].
Qed.

Lemma commentsWhen_run inc m w :
halts m ->
exists comments w',
  commentsWhen inc (orNoComments m) w = (Ok comments, w')
  /\ (comments <> None <-> inc = true).
Proof.
intros Hm. unfold commentsWhen. destruct inc.
- destruct (orNoComments_run w Hm) as (c & w' & Hrun). unfold bind. rewrite Hrun.
  exists (Some c), w'. split; [reflexivity|]. split; [reflexivity|discriminate].
- exists None, w. split; [reflexivity|].
  split; [intros H; contradiction H; reflexivity|discriminate].
Qed.

Lemma getUserThreads_run config limit w items :
nonempty (trim (userId config)) = true ->
nonempty (trim (th_accessToken config)) = true ->
listing (net w (served w)) = Some items ->
exists w', Threads.getUserThreads config limit w = (Ok items, w').
Proof.
intros Huser Htoken Hitems. unfold Threads.getUserThreads.
rewrite Huser, Htoken. cbn [negb orb].
match goal with
| |- context [(res0 <- fetchWithTimeout ?req ;; _ ;; _ <- _ ;; _) w] =>
    destruct (read_listing req (lit "Threads") (lit "Threads") w) as [e He]
end.
rewrite He, Hitems. eexists; reflexivity.
Qed.

Lemma threads_loop config inc climit label (items : list Json) :
Forall (fun p => p <> JNull) items ->
forall r w,
exists posts w',
  forEach items
    (fun p =>
       match p with
       | JNull => throw (nullRead "id")
       | _ =>
           comments <-
             lift (commentsWhen inc
                     (orNoComments
                        (rawReplies <-
                           Threads.getRepliesForPost config
                             (idText (stringProp p (lit "id"))) climit ;;
                         readComments threadsComment rawReplies))) ;;
           modify (pushPost
                     {| pw_code := t; pw_platform := label;
                        pw_postId := stringProp p (lit "id");
                        pw_text := stringProp p (lit "text");
                        pw_timestamp :=
                          option_map AsGiven (stringProp p (lit "timestamp"));
                        pw_permalink := stringProp p (lit "permalink");
                        pw_mediaType := stringProp p (lit "media_type");
                        pw_comments := comments |})
       end) (r, w)
  = (Ok tt, ({| found := found r ++ posts; problems := problems r |}, w'))
  /\ Forall2 (shows inc) items posts.
Proof.
induction 1 as [|p rest Hp Hrest IH]; intros r w.
- exists [], w. rewrite app_nil_r. destruct r. split; [reflexivity|constructor].
- cbn [forEach].
  assert (Hm : halts (rawReplies <-
                        Threads.getRepliesForPost config
                          (idText (stringProp p (lit "id"))) climit ;;
                      readComments threadsComment rawReplies)).
  { apply halts_bind; [apply halts_getRepliesForPost|intros ?; apply halts_readComments]. }
  destruct (commentsWhen_run inc w Hm) as (c & w1 & Hrun & Hc).
  set (post := {| pw_code := t; pw_platform := label;
                  pw_postId := stringProp p (lit "id");
                  pw_text := stringProp p (lit "text");
                  pw_timestamp := option_map AsGiven (stringProp p (lit "timestamp"));
                  pw_permalink := stringProp p (lit "permalink");
                  pw_mediaType := stringProp p (lit "media_type");
                  pw_comments := c |}).
  destruct (IH (pushPost post r) w1) as (posts & w' & Hloop & Hall).
  exists (post :: posts), w'. split.
  + unfold bind at 1.
    destruct p; try (contradiction Hp; reflexivity);
      unfold bind at 1; unfold lift at 1; cbn [fst snd]; rewrite Hrun;
      unfold modify at 1; cbn [fst snd]; fold post; rewrite Hloop;
      cbn [pushPost found problems]; rewrite <- app_assoc; reflexivity.
  + constructor; [|exact Hall]. repeat split; try reflexivity; apply Hc.
Qed.

End Lookups.

Section LookupsThatCount.
Import Request Utils Client.

Lemma getPageRecentPosts_accepted config limit w items :
nonempty (trim (pageAccessToken config)) = true ->
nonempty (trim (pageId config)) = true ->
listing (net w (served w)) = Some items ->
Meta.getPageRecentPosts config limit w
= (Ok items, exchange (Meta.pagePostsRequest config limit "feed") w).
Proof.
intros Htoken Hpage Hitems. unfold Meta.getPageRecentPosts.
rewrite Htoken, Hpage. cbn [negb orb]. cbv zeta. unfold tryCatch.
destruct (readPagePosts_run config limit "feed" w) as [err Hfeed].
unfold readPagePosts in Hfeed. rewrite Hfeed, Hitems. reflexivity.
Qed.

Lemma getUserMedia_accepted config limit w items ig :
nonempty (trim (pageAccessToken config)) = true ->
present (trimOpt (instagramBusinessAccountId config)) = Some ig ->
listing (net w (served w)) = Some items ->
exists w', Instagram.getUserMedia config limit w = (Ok items, w')
           /\ net w' = net w /\ served w' = S (served w).
Proof.
intros Htoken Hig Hitems. unfold Instagram.getUserMedia.
rewrite Htoken, Hig. cbn [negb].
match goal with
| |- context [(res0 <- fetchWithTimeout ?req ;; _ ;; _ <- _ ;; _) w] =>
    destruct (read_listing req (lit "Instagram") (lit "Instagram") w) as [e He]
end.
rewrite He, Hitems. eexists; split; [reflexivity|]. split; reflexivity.
Qed.

Lemma getPostComments_rejected config postId limit w :
listing (net w (served w)) = None ->
exists e w', Meta.getPostComments config postId limit w = (Throw e, w').
Proof.
intros Hnone. unfold Meta.getPostComments.
destruct (negb (nonempty (trim (pageAccessToken config))));
  [do 2 eexists; reflexivity|].
match goal with
| |- context [(res0 <- fetchWithTimeout ?req ;; _ ;; _ <- _ ;; _) w] =>
    destruct (read_listing req (lit "Meta") (lit "Meta") w) as [e He]
end.
rewrite He, Hnone. do 2 eexists; reflexivity.
Qed.

Lemma getMediaComments_rejected config mediaId limit w :
listing (net w (served w)) = None ->
exists e w', Instagram.getMediaComments config mediaId limit w = (Throw e, w').
Proof.
intros Hnone. unfold Instagram.getMediaComments.
destruct (negb (nonempty (trim (pageAccessToken config))));
  [do 2 eexists; reflexivity|].
match goal with
| |- context [(res0 <- fetchWithTimeout ?req ;; _ ;; _ <- _ ;; _) w] =>
    destruct (read_listing req (lit "Instagram") (lit "Instagram") w) as [e He]
end.
rewrite He, Hnone. do 2 eexists; reflexivity.
Qed.

(** X16. On Facebook and Instagram, failing to read comments costs the
    channel. With [includeComments] set, when the posts are listed, at least
    one, and the comment lookup for the first post fails (no 2xx reply, or a
    body that is [null]), [getRecentPosts] returns none of the listed posts
    for the channel, and one error. *)
Theorem failed_comment_lookup_ends_the_channel :
forall (this : SocialPostingClient) (params : GetRecentPostsParams) (w : World)
       (config : MetaConfig) (ig : jsstring) (code : PlatformCode)
       (p : Json) (rest : list Json),
  meta (Client.config this) = Some config ->
  nonempty (trim (pageAccessToken config)) = true ->
  nonempty (trim (pageId config)) = true ->
  present (trimOpt (instagramBusinessAccountId config)) = Some ig ->
  code = f \/ code = i ->
  channels params = Some [code] ->
  includeComments params = Some true ->
  listing (net w (served w)) = Some (p :: rest) ->
  p <> JNull ->
  listing (net w (S (served w))) = None ->
  exists message w',
    getRecentPosts this params w
    = (Ok {| gr_posts := [];
             gr_errors := [{| ce_platform := CODE_TO_PLATFORM_LABEL code;
                              ce_code := code; ce_error := message |}] |}, w').
Proof.
intros this params w config ig code p rest Hconfig Htoken Hpage Hig Hcode
  Hchannels Hinc Hitems Hp Hnone.
unfold getRecentPosts. cbv zeta. rewrite Hchannels, Hinc. cbn [orElse forEach].
unfold bind at 1. unfold withLocals. unfold bind at 1. unfold recentStep.
rewrite Hconfig. cbv zeta. unfold tryCatch.
destruct Hcode as [-> | ->].
- rewrite (nonempty_of_trim Htoken), (nonempty_of_trim Hpage). cbn [andb].
  unfold bind at 1. unfold lift at 1. cbn [fst snd].
  rewrite (getPageRecentPosts_accepted _ Htoken Hpage Hitems).
  cbn [forEach]. unfold bind at 1.
  match goal with
  | |- context [Meta.getPostComments ?c ?id ?lim] =>
      destruct (@getPostComments_rejected c id lim
                  (exchange (Meta.pagePostsRequest config
                     (Z.min 100 (Z.max 1 (orElse (limitPerChannel params) 5%Z)))
                     "feed") w) Hnone) as (e & w' & Hlookup)
  end.
  exists (errorMessage e), w'.
  destruct p; try (contradiction Hp; reflexivity);
    unfold bind at 1; unfold lift at 1; cbn [fst snd];
    unfold commentsWhen; unfold bind at 1; unfold bind at 1; rewrite Hlookup;
    reflexivity.
- rewrite (nonempty_of_trim Htoken).
  apply present_Some in Hig as Hig'. destruct Hig' as [Higv Hne].
  destruct (instagramBusinessAccountId config) as [raw|] eqn:Hraw; [|discriminate].
  cbn [trimOpt option_map] in Higv. injection Higv as Higv.
  assert (Hraw' : truthy (Some raw) = true).
  { cbn [truthy]. apply nonempty_of_trim. rewrite Higv. exact Hne. }
  rewrite Hraw'. cbn [andb]. unfold bind at 1. unfold lift at 1. cbn [fst snd].
  destruct (@getUserMedia_accepted config
              (Z.min 100 (Z.max 1 (orElse (limitPerChannel params) 5%Z)))
              w (p :: rest) ig Htoken) as (w1 & Hlist & Hnet & Hserved);
    [rewrite Hraw; exact Hig|exact Hitems|].
  rewrite Hlist. cbn [forEach]. unfold bind at 1.
  match goal with
  | |- context [Instagram.getMediaComments ?c ?id ?lim] =>
      destruct (@getMediaComments_rejected c id lim w1) as (e & w' & Hlookup);
        [rewrite Hnet, Hserved; exact Hnone|]
  end.
  exists (errorMessage e), w'.
  destruct p; try (contradiction Hp; reflexivity);
    unfold bind at 1; unfold lift at 1; cbn [fst snd];
    unfold commentsWhen; unfold bind at 1; unfold bind at 1; rewrite Hlookup;
    reflexivity.
Qed.
End LookupsThatCount.

(* ================================================================== *)
(** * Properties: a LinkedIn post with an image                         *)
(* ================================================================== *)

Section ImageUpload.
Import Request.

Lemma fetchWithTimeout_run req w :
fetchWithTimeout req w
= (match net w (served w) with
   | NetworkFailure _ cause =>
       Throw (SocialPostingError
                match cause with
                | ThrownValue _ => lit "Request failed"
                | _ => errorMessage cause
                end (Some NETWORK_ERROR) (DetailValue (errorMessage cause)))
   | HttpReply _ r => Ok r
   end, exchange req w).
Proof.
unfold fetchWithTimeout, tryCatch, fetch. destruct (net w (served w)); reflexivity.
Qed.

Lemma linkedInImageFromUrl_run token owner u w :
uploads w (LinkedIn.linkedInImageFromUrl token owner u w).
Proof.
unfold LinkedIn.linkedInImageFromUrl. cbv zeta.
set (register := {| method := POST; url := _; query := []; payload := JsonBody _ |}).
assert (Hstop1 : forall e, uploads w (Throw e, exchange register w)).
{ intros e. exists 1%nat. cbn [fst snd]. rewrite newRequests_exchange.
  repeat split; try lia; try reflexivity; try discriminate.
  cbn [served exchange]. lia. }
unfold bind at 1. rewrite fetchWithTimeout_run.
destruct (net w (served w)) as [ms0 cause|ms0 r0] eqn:Hreply0; [apply Hstop1|].
unfold bind at 1. unfold throwIfNotOk.
destruct (ok r0) eqn:Hok0; [|apply Hstop1].
unfold ret at 1. unfold bind at 1. unfold parseJson.
destruct (nonempty (text (body r0)));
  [destruct (parsed (body r0)) as [regData|]; [|apply Hstop1]|].
all: unfold ret at 1.
all: match goal with
     | |- context [match present ?a with _ => _ end] =>
         destruct (present a) as [asset|]; [|apply Hstop1]
     end.
all: match goal with
     | |- context [match present ?b with _ => _ end] =>
         destruct (present b) as [uploadUrl|]; [|apply Hstop1]
     end.
all: set (w1 := exchange register w).
all: assert (Hfirst : answeredOk w 0)
       by (exists ms0, r0; rewrite Nat.add_0_r; split; assumption).
all: assert (Hstop2 : forall e, uploads w (Throw e, exchange (getWith u []) w1))
       by (intros e; exists 2%nat; cbn [fst snd];
           rewrite (@newRequests_app w _ [register; getWith u []])
             by (unfold w1; rewrite !requests_exchange, <- app_assoc; reflexivity);
           repeat split; try lia; try reflexivity; try discriminate;
           [cbn [served exchange w1]; lia
           |intros n Hn; replace n with 0%nat by lia; exact Hfirst]).
all: unfold bind at 1; unfold fetch.
all: change (net w1 (served w1)) with (net w (S (served w))).
all: destruct (net w (S (served w))) as [ms1 cause1|ms1 r1] eqn:Hreply1;
       [apply Hstop2|].
all: destruct (ok r1) eqn:Hok1; cbn [negb]; [|apply Hstop2].
all: set (w2 := exchange (getWith u []) w1).
all: assert (Hsecond : answeredOk w 1)
       by (exists ms1, r1; rewrite Nat.add_1_r; split; assumption).
all: unfold bind at 1; rewrite fetchWithTimeout_run.
all: change (net w2 (served w2)) with (net w (S (S (served w)))).
all: match goal with
     | |- context [exchange ?put ?w0] => set (upload := put); set (w3 := exchange upload w0)
     end.
all: assert (Hmade : map method (newRequests w w3) = [POST; GET; PUT])
       by (rewrite (@newRequests_app w _ [register; getWith u []; upload])
             by (unfold w3, w2, w1; rewrite !requests_exchange, <- !app_assoc; reflexivity);
           reflexivity).
all: assert (Hearlier : forall n, (S n < 3)%nat -> answeredOk w n)
       by (intros n Hn; assert (n = 0 \/ n = 1)%nat as [-> | ->] by lia; assumption).
all: exists 3%nat.
all: destruct (net w (S (S (served w)))) as [ms2 cause2|ms2 r2] eqn:Hreply2;
       [cbn [fst snd];
        repeat split; try lia; try exact Hmade; try exact Hearlier; try discriminate;
        cbn [served exchange w3 w2 w1]; lia|].
all: destruct (ok r2) eqn:Hok2; cbn [negb]; unfold ret, throw; cbn [fst snd];
       repeat split; try lia; try exact Hmade; try exact Hearlier; try discriminate;
       try (cbn [served exchange w3 w2 w1]; lia).
all: exists ms2, r2; rewrite Nat.add_comm; split; assumption.
Qed.
End ImageUpload.

Section ImagePost.
Import Request.

Lemma silent_encoded s : silent (encoded s).
Proof. intros w. unfold encoded. destruct (encodeURIComponent s); reflexivity. Qed.

Lemma newRequests_more w w' made q :
newRequests w w' = made -> made <> [] ->
newRequests w (exchange q w') = made ++ [q].
Proof.
unfold newRequests. intros Hmade Hsome. rewrite requests_exchange, skipn_app.
rewrite Hmade. f_equal.
assert (Hlen : (List.length (requests (trace w)) <= List.length (requests (trace w')))%nat).
{ destruct (Nat.le_gt_cases (List.length (requests (trace w)))
              (List.length (requests (trace w')))) as [H|H]; [exact H|].
  rewrite skipn_all2 in Hmade by lia. congruence. }
replace (List.length (requests (trace w)) - List.length (requests (trace w')))%nat
  with 0%nat by lia.
reflexivity.
Qed.

(** X17. A LinkedIn post with an image goes through register, fetch, put and
    post, in this order: [postToLinkedIn] makes at most four requests, with
    methods POST, GET, PUT, POST; each request after the first is made only
    when the one before was answered with a 2xx status; and when a post is
    returned, all four were made and the last one was answered with a 2xx
    status too. *)
Theorem linkedin_post_follows_the_upload :
forall (config : LinkedInConfig) (content u : jsstring) (visibility : option jsstring)
       (w : World),
  nonempty (trim u) = true ->
  publishesAfterUpload w (LinkedIn.postToLinkedIn config content (Some u) visibility w).
Proof.
intros config content u visibility w Hu.
assert (Hnone : forall e, publishesAfterUpload w (Throw e, w)).
{ intros e. exists 0%nat. cbn [fst snd]. rewrite newRequests_none.
  repeat split; try lia; try reflexivity; discriminate. }
unfold LinkedIn.postToLinkedIn.
destruct (negb (nonempty (trim (li_accessToken config)))); [apply Hnone|].
destruct (present _) as [authorUrn|]; [|apply Hnone].
rewrite Hu. unfold bind at 1. unfold bind at 1.
destruct (linkedInImageFromUrl_run (li_accessToken config) authorUrn u w)
  as (k & Hk & Hmade & Hnet & Hserved & Hearlier & Hdone).
destruct (LinkedIn.linkedInImageFromUrl (li_accessToken config) authorUrn u w)
  as [[asset|e|] w3]; cbn [fst snd] in *.
- destruct (Hdone asset eq_refl) as [-> Hthird]. clear Hdone.
  unfold ret at 1. cbv zeta.
  match goal with
  | |- publishesAfterUpload w (bind (fetchWithTimeout ?q) ?rest w3) =>
      set (post := q); set (tail := rest)
  end.
  assert (Hsilent : forall r, silent (tail r)).
  { intros r. unfold tail.
    repeat first
      [ apply silent_ret | apply silent_throw | apply silent_throwIfNotOk
      | apply silent_parseJson | apply silent_encoded
      | apply silent_bind; [|intros ?]
      | apply silent_tryCatch; [|intros ?]
      | match goal with
        | |- silent (match ?x with _ => _ end) => destruct x
        | |- silent (if ?x then _ else _) => destruct x
        | |- silent (let _ := _ in _) => cbv zeta
        end ]. }
  assert (Hchecked : forall r w' res, fst (tail r w') = Ok res -> ok r = true).
  { intros r w' res. unfold tail. unfold bind at 1. unfold throwIfNotOk.
    destruct (ok r); [reflexivity|discriminate]. }
  clearbody tail.
  assert (Hfour : newRequests w (exchange post w3)
                  = newRequests w w3 ++ [post]).
  { apply newRequests_more; [reflexivity|].
    intros Hnil. rewrite Hnil in Hmade. discriminate. }
  assert (Hmethods : map method (newRequests w (exchange post w3))
                     = [POST; GET; PUT; POST]).
  { rewrite Hfour, map_app, Hmade. reflexivity. }
  assert (Hbefore : forall n, (S n < 4)%nat -> answeredOk w n).
  { intros n Hn. destruct (Nat.eq_dec n 2) as [-> | Hn2]; [exact Hthird|].
    apply Hearlier. lia. }
  exists 4%nat. unfold bind. rewrite fetchWithTimeout_run, Hnet, Hserved.
  destruct (net w (served w + 3)%nat) as [ms3 cause3|ms3 r3] eqn:Hreply3.
  + cbn [fst snd]. repeat split; try lia; try assumption; congruence.
  + split; [lia|]. split.
    * unfold newRequests in *. rewrite (Hsilent r3 (exchange post w3)). exact Hmethods.
    * split; [exact Hbefore|]. intros res Hres. split; [reflexivity|].
      exists ms3, r3. split; [exact Hreply3|]. exact (Hchecked _ _ _ Hres).
- exists k.
  assert (Hprefix : firstn k [POST; GET; PUT; POST] = firstn k [POST; GET; PUT])
    by (destruct k as [|[|[|[|]]]]; try lia; reflexivity).
  rewrite Hprefix. split; [lia|]. split; [exact Hmade|]. split; [exact Hearlier|].
  intros res Hres. discriminate Hres.
- exists k.
  assert (Hprefix : firstn k [POST; GET; PUT; POST] = firstn k [POST; GET; PUT])
    by (destruct k as [|[|[|[|]]]]; try lia; reflexivity).
  rewrite Hprefix. split; [lia|]. split; [exact Hmade|]. split; [exact Hearlier|].
  intros res Hres. discriminate Hres.
Qed.
End ImagePost.

(* ================================================================== *)
(** * Properties: the targeting of an ad                                *)
(* ================================================================== *)

Section TargetingSpec.
Import Request Meta.

Lemma pickAll_fails keys xs : pickAll keys xs = None -> In JNull xs.
Proof.
induction xs as [|x rest IH]; cbn [pickAll]; [discriminate|].
destruct x; cbn [pick]; try (destruct (pickAll keys rest); [discriminate|];
  intros _; right; apply IH; reflexivity).
intros _. left. reflexivity.
Qed.

(** X18. The targeting spec sent to Meta always names a place: its
    [geo_locations] is never empty, and it is the single country "US" when
    the caller gave no location (absent or empty lists); [facebook_positions]
    is always ["feed"]. The conversion fails only on a [null] entry in
    [cities] or [customLocations]. *)
Theorem targeting_always_names_a_place :
forall t : Targeting,
  match toMetaTargetingSpec t with
  | Some spec =>
      exists geo,
        prop spec (lit "geo_locations") = Some (JObj geo)
        /\ geo <> []
        /\ (located t = false -> geo = [(lit "countries", JArr [JStr (lit "US")])])
        /\ prop spec (lit "facebook_positions") = Some (JArr [JStr (lit "feed")])
  | None =>
      In JNull (orElse (cities t) []) \/ In JNull (orElse (customLocations t) [])
  end.
Proof.
intros t. unfold toMetaTargetingSpec, located.
destruct (filled (cities t)) eqn:Hcities.
- destruct (pickAll _ (orElse (cities t) [])) as [cityList|] eqn:Hpick;
    [|left; exact (pickAll_fails Hpick)].
  destruct (filled (customLocations t)) eqn:Hcustom.
  + destruct (pickAll _ (orElse (customLocations t) [])) as [locationList|] eqn:Hpick2;
      [|right; exact (pickAll_fails Hpick2)].
    cbv zeta.
    destruct (filled (countries t)), (filled (regions t)), (filled (zips t));
      destruct (ageMin t), (ageMax t), (genders t), (interests t), (behaviors t);
      cbn [app optionalMember option_map];
      (eexists; split; [reflexivity|]; split; [discriminate|]; split;
       [cbn; discriminate|reflexivity]).
  + cbv zeta.
    destruct (filled (countries t)), (filled (regions t)), (filled (zips t));
      destruct (ageMin t), (ageMax t), (genders t), (interests t), (behaviors t);
      cbn [app optionalMember option_map];
      (eexists; split; [reflexivity|]; split; [discriminate|]; split;
       [cbn; discriminate|reflexivity]).
- destruct (filled (customLocations t)) eqn:Hcustom.
  + destruct (pickAll _ (orElse (customLocations t) [])) as [locationList|] eqn:Hpick2;
      [|right; exact (pickAll_fails Hpick2)].
    cbv zeta.
    destruct (filled (countries t)), (filled (regions t)), (filled (zips t));
      destruct (ageMin t), (ageMax t), (genders t), (interests t), (behaviors t);
      cbn [app optionalMember option_map];
      (eexists; split; [reflexivity|]; split; [discriminate|]; split;
       [cbn; discriminate|reflexivity]).
  + cbv zeta.
    destruct (filled (countries t)), (filled (regions t)), (filled (zips t));
      destruct (ageMin t), (ageMax t), (genders t), (interests t), (behaviors t);
      cbn [app optionalMember option_map];
      (eexists; split; [reflexivity|]; split; [discriminate|]; split;
       [cbn; first [discriminate|reflexivity]|reflexivity]).
Qed.
End TargetingSpec.

(* ================================================================== *)
(** * Properties: authors and missing posts                             *)
(* ================================================================== *)

Section Authors.
Import Request.

(** X19. A person URN that is blank hides the organization URN. With an
    access token and a [personUrn] of white space only, [postToLinkedIn] and
    the LinkedIn [getRecentPosts] throw "LinkedIn personUrn or organizationUrn
    is required" without making a request, whatever [organizationUrn] is. *)
Theorem blank_person_urn_hides_the_organization :
forall (config : LinkedInConfig) (person content : jsstring)
       (imageUrl visibility : option jsstring) (limit : Z) (w : World),
  nonempty (trim (li_accessToken config)) = true ->
  personUrn config = Some person ->
  nonempty (trim person) = false ->
  LinkedIn.postToLinkedIn config content imageUrl visibility w
  = (Throw (spError "LinkedIn personUrn or organizationUrn is required"), w)
  /\ LinkedIn.getRecentPosts config limit w
     = (Throw (spError "LinkedIn personUrn or organizationUrn is required"), w).
Proof.
intros config person content imageUrl visibility limit w Htoken Hperson Hblank.
unfold LinkedIn.postToLinkedIn, LinkedIn.getRecentPosts.
rewrite Htoken, Hperson. cbn [negb trimOpt option_map LinkedIn.orOpt present].
rewrite Hblank. split; reflexivity.
Qed.
End Authors.

Section NotFound.
Import Request.

(** X20. A status of 404 or 400 means "no replies" for the replies of one
    post and an error everywhere else: on such a reply [getRepliesForPost]
    returns the empty list, while [getUserThreads] and [getReplies] throw. *)
Theorem missing_threads_post_has_no_replies :
forall (config : ThreadsConfig) (postId : jsstring) (limit : Z) (w : World)
       (ms : N) (r : Response),
  nonempty (trim (userId config)) = true ->
  nonempty (trim (th_accessToken config)) = true ->
  net w (served w) = HttpReply ms r ->
  status r = 404%N \/ status r = 400%N ->
  fst (Threads.getRepliesForPost config postId limit w) = Ok []
  /\ (exists e, fst (Threads.getUserThreads config limit w) = Throw e)
  /\ (exists e, fst (Threads.getReplies config limit w) = Throw e).
Proof.
intros config postId limit w ms r Huser Htoken Hreply Hstatus.
assert (Hnot : ok r = false).
{ unfold ok. destruct Hstatus as [-> | ->]; reflexivity. }
unfold Threads.getRepliesForPost, Threads.getUserThreads, Threads.getReplies.
rewrite Huser, Htoken. cbn [negb orb].
unfold bind. rewrite !fetchWithTimeout_run, Hreply.
unfold throwIfNotOk. rewrite Hnot.
split; [|split; eexists; reflexivity].
destruct Hstatus as [-> | ->]; reflexivity.
Qed.
End NotFound.

(* ================================================================== *)
(** * Properties: scripted runs                                         *)
(* ================================================================== *)

Section ScriptedRuns.
Import Request Utils Client.

Lemma providers_not_ready_are_not_contacted_witness :
let params := Scenario.textPost [f; i; l; t] (lit "hello") in
let run := crossPost Scenario.bareClient params Scenario.threadsTextPublished in
imageBuffer params = None
/\ requests (trace (snd run)) = []
/\ exists r, fst run = Ok r /\ batchStatus r = StatusFailed
             /\ List.length (platformResults r) = 4%nat.
Proof.
intros params run. split; [reflexivity|].
destruct (@providers_not_ready_are_not_contacted Scenario.bareClient params
            Scenario.threadsTextPublished eq_refl) as [Hquiet Hfail].
- intros code _. destruct code; reflexivity.
- split; [exact Hquiet|].
  exists (Scenario.returned Scenario.noBatch (fst run)).
  assert (Hrun : fst run = Ok (Scenario.returned Scenario.noBatch (fst run)))
    by (vm_compute; reflexivity).
  split; [exact Hrun|]. split; [|vm_compute; reflexivity].
  apply (Hfail _ Hrun). vm_compute. discriminate.
Defined.





Lemma failed_comment_lookup_ends_the_channel_witness :
exists message w',
  getRecentPosts Scenario.plainClient (Scenario.recentOn [f]) Scenario.commentsRefused
  = (Ok {| gr_posts := [];
           gr_errors := [{| ce_platform := lit "Facebook"; ce_code := f;
                            ce_error := message |}] |}, w').
Proof.
exact (@failed_comment_lookup_ends_the_channel Scenario.plainClient
         (Scenario.recentOn [f]) Scenario.commentsRefused Scenario.metaConfig
         (lit "17841400000000000") f
         (JObj [Scenario.member "id" "1001_7"]) []
         eq_refl eq_refl eq_refl eq_refl (or_introl eq_refl) eq_refl eq_refl eq_refl
         ltac:(discriminate) eq_refl).
Defined.

Lemma linkedin_post_follows_the_upload_witness :
let run := LinkedIn.postToLinkedIn Scenario.linkedInConfig (lit "hello")
             (Some Scenario.imageUrl) None Scenario.imageNotFound in
nonempty (trim Scenario.imageUrl) = true
/\ publishesAfterUpload Scenario.imageNotFound run
/\ map method (newRequests Scenario.imageNotFound (snd run)) = [POST; GET].
Proof.
intros run. split; [reflexivity|]. split; [|vm_compute; reflexivity].
exact (@linkedin_post_follows_the_upload Scenario.linkedInConfig (lit "hello")
         Scenario.imageUrl None Scenario.imageNotFound eq_refl).
Defined.

Lemma blank_person_urn_hides_the_organization_witness :
organizationUrn Scenario.blankPerson = Some (lit "urn:li:organization:5")
/\ LinkedIn.postToLinkedIn Scenario.blankPerson (lit "hello") None None
     (Scenario.scripted [])
   = (Throw (spError "LinkedIn personUrn or organizationUrn is required"),
      Scenario.scripted []).
Proof.
split; [reflexivity|].
exact (proj1 (@blank_person_urn_hides_the_organization Scenario.blankPerson (lit "  ")
                (lit "hello") None None 5%Z (Scenario.scripted [])
                eq_refl eq_refl eq_refl)).
Defined.

Lemma missing_threads_post_has_no_replies_witness :
fst (Threads.getRepliesForPost Scenario.threadsConfig (lit "123") 20
       Scenario.postNotFound) = Ok []
/\ exists e, fst (Threads.getUserThreads Scenario.threadsConfig 20
                    Scenario.postNotFound) = Throw e
             /\ errorMessage e = lit "Object does not exist".
Proof.
destruct (@missing_threads_post_has_no_replies Scenario.threadsConfig (lit "123") 20%Z
            Scenario.postNotFound _ _ eq_refl eq_refl eq_refl (or_introl eq_refl))
  as (Hnone & [e He] & _).
split; [exact Hnone|]. exists e. split; [exact He|].
vm_compute in He. injection He as <-. reflexivity.
Defined.
End ScriptedRuns.
